(** * TensorFlow backend for Triton: shape/type checker, signature validator,
      string-tensor codec and request processing

    A shallow embedding of [src/tensorflow_utils.cc] and of the parts of
    [src/tensorflow.cc] that decide batching support, validate a SavedModel
    signature against the model configuration, marshal string tensors and
    drive one execution cycle.

    Conventions.
    - A C++ [nullptr] error is [None]; a [TRITONSERVER_Error*] is
      [Some {| err_code; err_msg |}].
    - [int64_t] dimensions are [Z]; [size_t] counts and indices are [nat]
      unless the wrap-around of the type matters, in which case the value is
      a [Z] reduced modulo [2^64] (or [2^32] for [uint32_t]).
    - A linked [TRITONTF_IOList] is a [list TRITONTF_IO] in list order.
    - The build option [TRITON_ENABLE_GPU] is a boolean argument of the code
      that an [#ifdef] on it changes. *)

From Stdlib Require Import ZArith List String Ascii Lia Bool.
From Stdlib Require Import Init.Byte.
From coqutil Require Import Byte LittleEndianList.
From stdpp Require Import base list gmap strings pretty.
Import ListNotations.
Local Open Scope Z_scope.

(* ================================================================= *)
(** ** Errors *)

(** The error codes of [tritonserver.h] (the host server's header). *)
Inductive TRITONSERVER_Error_Code :=
| TRITONSERVER_ERROR_UNKNOWN
| TRITONSERVER_ERROR_INTERNAL
| TRITONSERVER_ERROR_NOT_FOUND
| TRITONSERVER_ERROR_INVALID_ARG
| TRITONSERVER_ERROR_UNAVAILABLE
| TRITONSERVER_ERROR_UNSUPPORTED
| TRITONSERVER_ERROR_ALREADY_EXISTS.

Record TRITONSERVER_Error := TRITONSERVER_ErrorNew {
  err_code : TRITONSERVER_Error_Code;
  err_msg : string
}.

#[global] Instance TRITONSERVER_Error_Code_eq_dec : EqDecision TRITONSERVER_Error_Code.
Proof. solve_decision. Defined.

#[global] Instance TRITONSERVER_Error_eq_dec : EqDecision TRITONSERVER_Error.
Proof. solve_decision. Defined.

(** [std::to_string] on integers. *)
Definition to_string_Z (z : Z) : string := pretty z.
Definition to_string_nat (n : nat) : string := pretty n.

(* ================================================================= *)
(** ** Datatypes ([tensorflow_utils.cc], lines 182-328) *)

(** Modelled from the spec: the enum [TRITONTF_DataType] ("datatype enum"
    of the execution engine's interface) is declared in
    [tensorflow_backend_tf.h], which is not among the sources.  The
    enumerators are the ones [tensorflow_utils.cc] names;
    [TRITONTF_TYPE_unlisted] stands for any value of the C enum that is
    none of them (such a value falls to [default:] in a [switch] and
    through every [==] test). *)
Inductive TRITONTF_DataType :=
| TRITONTF_TYPE_INVALID
| TRITONTF_TYPE_BOOL
| TRITONTF_TYPE_UINT8
| TRITONTF_TYPE_UINT16
| TRITONTF_TYPE_UINT32
| TRITONTF_TYPE_UINT64
| TRITONTF_TYPE_INT8
| TRITONTF_TYPE_INT16
| TRITONTF_TYPE_INT32
| TRITONTF_TYPE_INT64
| TRITONTF_TYPE_FP16
| TRITONTF_TYPE_FP32
| TRITONTF_TYPE_FP64
| TRITONTF_TYPE_STRING
| TRITONTF_TYPE_unlisted.

(** The enumerators of [TRITONSERVER_DataType] ([tritonserver.h]) that the
    source names; [TRITONSERVER_TYPE_unlisted] is any other value. *)
Inductive TRITONSERVER_DataType :=
| TRITONSERVER_TYPE_INVALID
| TRITONSERVER_TYPE_BOOL
| TRITONSERVER_TYPE_UINT8
| TRITONSERVER_TYPE_UINT16
| TRITONSERVER_TYPE_UINT32
| TRITONSERVER_TYPE_UINT64
| TRITONSERVER_TYPE_INT8
| TRITONSERVER_TYPE_INT16
| TRITONSERVER_TYPE_INT32
| TRITONSERVER_TYPE_INT64
| TRITONSERVER_TYPE_FP16
| TRITONSERVER_TYPE_FP32
| TRITONSERVER_TYPE_FP64
| TRITONSERVER_TYPE_BYTES
| TRITONSERVER_TYPE_unlisted.

#[global] Instance TRITONTF_DataType_eq_dec : EqDecision TRITONTF_DataType.
Proof. solve_decision. Defined.

#[global] Instance TRITONSERVER_DataType_eq_dec : EqDecision TRITONSERVER_DataType.
Proof. solve_decision. Defined.

(** [TRITONSERVER_DataType ConvertDataType(TRITONTF_DataType dtype)] *)
Definition ConvertDataType_tf (dtype : TRITONTF_DataType) : TRITONSERVER_DataType :=
  match dtype with
  | TRITONTF_TYPE_INVALID => TRITONSERVER_TYPE_INVALID
  | TRITONTF_TYPE_BOOL => TRITONSERVER_TYPE_BOOL
  | TRITONTF_TYPE_UINT8 => TRITONSERVER_TYPE_UINT8
  | TRITONTF_TYPE_UINT16 => TRITONSERVER_TYPE_UINT16
  | TRITONTF_TYPE_UINT32 => TRITONSERVER_TYPE_UINT32
  | TRITONTF_TYPE_UINT64 => TRITONSERVER_TYPE_UINT64
  | TRITONTF_TYPE_INT8 => TRITONSERVER_TYPE_INT8
  | TRITONTF_TYPE_INT16 => TRITONSERVER_TYPE_INT16
  | TRITONTF_TYPE_INT32 => TRITONSERVER_TYPE_INT32
  | TRITONTF_TYPE_INT64 => TRITONSERVER_TYPE_INT64
  | TRITONTF_TYPE_FP16 => TRITONSERVER_TYPE_FP16
  | TRITONTF_TYPE_FP32 => TRITONSERVER_TYPE_FP32
  | TRITONTF_TYPE_FP64 => TRITONSERVER_TYPE_FP64
  | TRITONTF_TYPE_STRING => TRITONSERVER_TYPE_BYTES
  | TRITONTF_TYPE_unlisted => TRITONSERVER_TYPE_INVALID
  end.

(** [TRITONTF_DataType ConvertDataType(const std::string& dtype)]: the
    chain of [if (dtype == "...")] tests, in source order. *)
Definition ConvertDataType_str (dtype : string) : TRITONTF_DataType :=
  if String.eqb dtype "TYPE_INVALID" then TRITONTF_TYPE_INVALID
  else if String.eqb dtype "TYPE_BOOL" then TRITONTF_TYPE_BOOL
  else if String.eqb dtype "TYPE_UINT8" then TRITONTF_TYPE_UINT8
  else if String.eqb dtype "TYPE_UINT16" then TRITONTF_TYPE_UINT16
  else if String.eqb dtype "TYPE_UINT32" then TRITONTF_TYPE_UINT32
  else if String.eqb dtype "TYPE_UINT64" then TRITONTF_TYPE_UINT64
  else if String.eqb dtype "TYPE_INT8" then TRITONTF_TYPE_INT8
  else if String.eqb dtype "TYPE_INT16" then TRITONTF_TYPE_INT16
  else if String.eqb dtype "TYPE_INT32" then TRITONTF_TYPE_INT32
  else if String.eqb dtype "TYPE_INT64" then TRITONTF_TYPE_INT64
  else if String.eqb dtype "TYPE_FP16" then TRITONTF_TYPE_FP16
  else if String.eqb dtype "TYPE_FP32" then TRITONTF_TYPE_FP32
  else if String.eqb dtype "TYPE_FP64" then TRITONTF_TYPE_FP64
  else if String.eqb dtype "TYPE_STRING" then TRITONTF_TYPE_STRING
  else TRITONTF_TYPE_INVALID.

(** [std::string ConvertToModelConfigString(TRITONTF_DataType dtype)] *)
Definition ConvertToModelConfigString (dtype : TRITONTF_DataType) : string :=
  match dtype with
  | TRITONTF_TYPE_INVALID => "TYPE_INVALID"
  | TRITONTF_TYPE_BOOL => "TYPE_BOOL"
  | TRITONTF_TYPE_UINT8 => "TYPE_UINT8"
  | TRITONTF_TYPE_UINT16 => "TYPE_UINT16"
  | TRITONTF_TYPE_UINT32 => "TYPE_UINT32"
  | TRITONTF_TYPE_UINT64 => "TYPE_UINT64"
  | TRITONTF_TYPE_INT8 => "TYPE_INT8"
  | TRITONTF_TYPE_INT16 => "TYPE_INT16"
  | TRITONTF_TYPE_INT32 => "TYPE_INT32"
  | TRITONTF_TYPE_INT64 => "TYPE_INT64"
  | TRITONTF_TYPE_FP16 => "TYPE_FP16"
  | TRITONTF_TYPE_FP32 => "TYPE_FP32"
  | TRITONTF_TYPE_FP64 => "TYPE_FP64"
  | TRITONTF_TYPE_STRING => "TYPE_STRING"
  | TRITONTF_TYPE_unlisted => "TYPE_INVALID"
  end.

(** [TRITONTF_DataType ConvertDataType(TRITONSERVER_DataType dtype)] *)
Definition ConvertDataType_srv (dtype : TRITONSERVER_DataType) : TRITONTF_DataType :=
  match dtype with
  | TRITONSERVER_TYPE_INVALID => TRITONTF_TYPE_INVALID
  | TRITONSERVER_TYPE_BOOL => TRITONTF_TYPE_BOOL
  | TRITONSERVER_TYPE_UINT8 => TRITONTF_TYPE_UINT8
  | TRITONSERVER_TYPE_UINT16 => TRITONTF_TYPE_UINT16
  | TRITONSERVER_TYPE_UINT32 => TRITONTF_TYPE_UINT32
  | TRITONSERVER_TYPE_UINT64 => TRITONTF_TYPE_UINT64
  | TRITONSERVER_TYPE_INT8 => TRITONTF_TYPE_INT8
  | TRITONSERVER_TYPE_INT16 => TRITONTF_TYPE_INT16
  | TRITONSERVER_TYPE_INT32 => TRITONTF_TYPE_INT32
  | TRITONSERVER_TYPE_INT64 => TRITONTF_TYPE_INT64
  | TRITONSERVER_TYPE_FP16 => TRITONTF_TYPE_FP16
  | TRITONSERVER_TYPE_FP32 => TRITONTF_TYPE_FP32
  | TRITONSERVER_TYPE_FP64 => TRITONTF_TYPE_FP64
  | TRITONSERVER_TYPE_BYTES => TRITONTF_TYPE_STRING
  | TRITONSERVER_TYPE_unlisted => TRITONTF_TYPE_INVALID
  end.

(** [TRITONSERVER_DataTypeString] of the host server: the name of the
    datatype without the "TYPE_" prefix. *)
Definition TRITONSERVER_DataTypeString (dtype : TRITONSERVER_DataType) : string :=
  match dtype with
  | TRITONSERVER_TYPE_BOOL => "BOOL"
  | TRITONSERVER_TYPE_UINT8 => "UINT8"
  | TRITONSERVER_TYPE_UINT16 => "UINT16"
  | TRITONSERVER_TYPE_UINT32 => "UINT32"
  | TRITONSERVER_TYPE_UINT64 => "UINT64"
  | TRITONSERVER_TYPE_INT8 => "INT8"
  | TRITONSERVER_TYPE_INT16 => "INT16"
  | TRITONSERVER_TYPE_INT32 => "INT32"
  | TRITONSERVER_TYPE_INT64 => "INT64"
  | TRITONSERVER_TYPE_FP16 => "FP16"
  | TRITONSERVER_TYPE_FP32 => "FP32"
  | TRITONSERVER_TYPE_FP64 => "FP64"
  | TRITONSERVER_TYPE_BYTES => "BYTES"
  | TRITONSERVER_TYPE_INVALID | TRITONSERVER_TYPE_unlisted => "<invalid>"
  end.

(** [bool CompareDataType(TRITONTF_DataType model_dtype, const std::string& dtype)] *)
Definition CompareDataType (model_dtype : TRITONTF_DataType) (dtype : string) : bool :=
  let cdtype := ConvertDataType_str dtype in
  if decide (cdtype = TRITONTF_TYPE_INVALID) then false
  else bool_decide (model_dtype = cdtype).

(** The type names the string overload recognises, in source order. *)
Definition model_config_type_names : list string :=
  [ "TYPE_INVALID"; "TYPE_BOOL"; "TYPE_UINT8"; "TYPE_UINT16"; "TYPE_UINT32";
    "TYPE_UINT64"; "TYPE_INT8"; "TYPE_INT16"; "TYPE_INT32"; "TYPE_INT64";
    "TYPE_FP16"; "TYPE_FP32"; "TYPE_FP64"; "TYPE_STRING" ]%string.

(* ================================================================= *)
(** ** Shapes and model signatures *)

(** [WILDCARD_DIM] of [triton/backend/backend_common.h]. *)
Definition WILDCARD_DIM : Z := -1.

(** Modelled from the spec: [TRITONTF_Shape] is declared in
    [tensorflow_backend_tf.h], which is not among the sources (a tensor
    shape is an "ordered sequence of signed dimension sizes", and a
    signature "may report rank 0 meaning unknown").  The fields are the
    ones the sources use: a rank and an array of dimensions.
    [dims_at s i] is [s->dims_[i]]. *)
Record TRITONTF_Shape := mkShape {
  rank_ : nat;
  dims_ : list Z
}.

Definition dims_at (s : TRITONTF_Shape) (i : nat) : Z := nth i (dims_ s) 0.

(** The array [dims_] holds exactly [rank_] dimensions. *)
Definition shape_wf (s : TRITONTF_Shape) : Prop := length (dims_ s) = rank_ s.

(** The dimensions of a shape as the code reads them: [dims_[0]] to
    [dims_[rank_ - 1]]. *)
Definition shape_dims (s : TRITONTF_Shape) : list Z :=
  map (dims_at s) (seq 0 (rank_ s)).

(** Modelled from the spec: [TRITONTF_IO] and the linked list
    [TRITONTF_IOList] are declared in [tensorflow_backend_tf.h], which is
    not among the sources (a tensor descriptor is "name, in-model name,
    shape, datatype").  The fields are the ones the sources use. *)
Record TRITONTF_IO := mkIO {
  name_ : string;
  inmodel_name_ : string;
  data_type_ : TRITONTF_DataType;
  shape_ : TRITONTF_Shape
}.

Definition TRITONTF_IOList := list TRITONTF_IO.

(** [ShapeToString(const TRITONTF_Shape*, start_idx)], lines 148-162. *)
Definition ShapeToString (shape : TRITONTF_Shape) (start_idx : nat) : string :=
  "[" +:+
  String.concat ","
    (map (fun idx => to_string_Z (dims_at shape idx))
         (seq start_idx (rank_ shape - start_idx))) +:+
  "]".

(** [backend::ShapeToString(const std::vector<int64_t>&)] of the backend
    utilities: the same bracketed, comma-separated rendering. *)
Definition backend_ShapeToString (dims : list Z) : string :=
  "[" +:+ String.concat "," (map to_string_Z dims) +:+ "]".

(** [ModelSupportsBatch], [tensorflow_utils.cc] lines 33-46: the first
    tensor with a non-zero rank whose leading dimension is not -1 makes
    the function return false. *)
Definition ModelSupportsBatch (model_ios : list TRITONTF_IOList) : bool :=
  forallb
    (fun ios =>
       forallb
         (fun io =>
            negb (negb (Nat.eqb (rank_ (shape_ io)) 0)
                  && negb (dims_at (shape_ io) 0 =? -1)))
         ios)
    model_ios.

(** The first loop of [AutoCompleteHelper::FixBatchingSupport],
    [tensorflow.cc] lines 1200-1208: [sig_supports_batch] starts true and
    is cleared by every tensor of rank 0 or with a leading dimension
    other than -1. *)
Definition sig_supports_batch (model_ios : list TRITONTF_IOList) : bool :=
  fold_left
    (fun acc ios =>
       fold_left
         (fun acc io =>
            if Nat.eqb (rank_ (shape_ io)) 0 || negb (dims_at (shape_ io) 0 =? -1)
            then false else acc)
         ios acc)
    model_ios true.

(** The comparison loop shared by both branches of [CompareDims]:
    [for (i = 0; i < dims.size(); ++i)], reading [model_shape->dims_[i]]
    and accumulating into [succ]. *)
Fixpoint compare_dims_loop (compare_exact : bool) (model_shape : TRITONTF_Shape)
    (i : nat) (dims : list Z) (succ : bool) : bool :=
  match dims with
  | [] => succ
  | d :: rest =>
      let model_dim := dims_at model_shape i in
      let succ' :=
        if compare_exact || negb (model_dim =? WILDCARD_DIM)
        then succ && (model_dim =? d) else succ in
      compare_dims_loop compare_exact model_shape (S i) rest succ'
  end.

(** [CompareDims], [tensorflow_utils.cc] lines 48-122. *)
Definition CompareDims (model_name tensor_name : string)
    (model_shape : TRITONTF_Shape) (dims : list Z)
    (supports_batching compare_exact : bool) : option TRITONSERVER_Error :=
  if supports_batching then
    if Nat.eqb (rank_ model_shape) 0 || negb (dims_at model_shape 0 =? WILDCARD_DIM)
    then
      Some (TRITONSERVER_ErrorNew TRITONSERVER_ERROR_INVALID_ARG
              ("model '" +:+ model_name +:+ "', tensor '" +:+ tensor_name +:+
               "': for the model to support batching the shape should have at " +:+
               "least 1 dimension and the first dimension must be -1; but shape " +:+
               "expected by the model is " +:+ ShapeToString model_shape 0))
    else
      let full_dims := WILDCARD_DIM :: dims in
      let succ := Nat.eqb (rank_ model_shape) (length full_dims) in
      let succ :=
        if succ then compare_dims_loop compare_exact model_shape 0 full_dims succ
        else succ in
      if negb succ then
        Some (TRITONSERVER_ErrorNew TRITONSERVER_ERROR_INVALID_ARG
                ("model '" +:+ model_name +:+ "', tensor '" +:+ tensor_name +:+
                 "': the model expects " +:+ to_string_nat (rank_ model_shape) +:+
                 " dimensions (shape " +:+ ShapeToString model_shape 0 +:+
                 ") but the model configuration specifies " +:+
                 to_string_nat (length full_dims) +:+
                 " dimensions (an initial batch dimension because max_batch_size " +:+
                 "> 0 followed by the explicit tensor shape, making complete " +:+
                 "shape " +:+ backend_ShapeToString full_dims +:+ ")"))
      else None
  else
    let succ := Nat.eqb (rank_ model_shape) (length dims) in
    let succ :=
      if succ then compare_dims_loop compare_exact model_shape 0 dims succ
      else succ in
    if negb succ then
      Some (TRITONSERVER_ErrorNew TRITONSERVER_ERROR_INVALID_ARG
              ("model '" +:+ model_name +:+ "', tensor '" +:+ tensor_name +:+
               "': the model expects " +:+ to_string_nat (rank_ model_shape) +:+
               " dimensions (shape " +:+ ShapeToString model_shape 0 +:+
               ") but the model configuration specifies " +:+
               to_string_nat (length dims) +:+ " dimensions (shape " +:+
               backend_ShapeToString dims +:+ ")"))
    else None.

(** [FindIOByName(const TRITONTF_IOList*, name)]: the first tensor of the
    list with that name. *)
Fixpoint FindIOByName (ios : TRITONTF_IOList) (name : string) : option TRITONTF_IO :=
  match ios with
  | [] => None
  | io :: rest => if String.eqb (name_ io) name then Some io else FindIOByName rest name
  end.

(** What the claims call a tensor that admits batching: rank at least one
    and a wildcard leading dimension. *)
Definition batchable (io : TRITONTF_IO) : Prop :=
  (1 <= rank_ (shape_ io))%nat /\ dims_at (shape_ io) 0 = WILDCARD_DIM.

(** The per-dimension rule of the shape comparison: an exact comparison
    wants equal sizes; a lenient one lets a model wildcard accept any
    configured size and wants every fixed model dimension equal. *)
Definition dim_compatible (compare_exact : bool) (model_dim config_dim : Z) : Prop :=
  if compare_exact then model_dim = config_dim
  else model_dim = WILDCARD_DIM \/ model_dim = config_dim.

(* ================================================================= *)
(** ** Responses and the trace of calls into the host server *)

(** A response object is identified by the index of the request it was
    created for; a slot of the [responses] vector is [None] once the
    pointer is nullptr. *)
Definition Response := nat.

(** The calls into the host server that finalise responses and release
    requests, and the one call into the execution engine. *)
Inductive Event :=
| EvResponseSend (r : Response) (err : option TRITONSERVER_Error)
    (* TRITONBACKEND_ResponseSend(r, COMPLETE_FINAL, err) *)
| EvRequestRelease (i : nat)
    (* TRITONBACKEND_RequestRelease(requests[i], RELEASE_ALL) *)
| EvRequestsRespondWithError (request_count : nat) (err : TRITONSERVER_Error)
    (* RequestsRespondWithError(requests, request_count, err) *)
| EvModelRun (output_names : list string)
    (* TRITONTF_ModelRun *)
| EvReportStatistics (i : nat) (success : bool).
    (* TRITONBACKEND_ModelInstanceReportStatistics *)

(** [RESPOND_AND_SET_NULL_IF_ERROR(&response, X)] of the backend utilities:
    when [X] is an error and the response is still there, the error is
    sent as the final response and the pointer becomes nullptr. *)
Definition RESPOND_AND_SET_NULL_IF_ERROR (response : option Response)
    (x : option TRITONSERVER_Error) : option Response * list Event :=
  match x with
  | None => (response, [])
  | Some e =>
      match response with
      | Some r => (None, [EvResponseSend r (Some e)])
      | None => (None, [])
      end
  end.

(* ================================================================= *)
(** ** String tensors ([tensorflow.cc], lines 542-701) *)

(** The elements of a TF string tensor, in flattened order. *)
Abbreviation TRITONTF_Tensor := (list (list byte)) (only parsing).

(** Modelled from the spec: [TRITONTF_TensorSetString(tensor, idx, cstr,
    len)], the "string-element setter" of the engine's tensor handle, is
    defined in [tensorflow_backend_tf.cc], which is not among the sources.
    Element [idx] becomes the [len] bytes at [cstr] (a nullptr with
    length 0 gives the empty string).  The model leaves the tensor as it
    is for an index past the end. *)
Definition TRITONTF_TensorSetString (tensor : TRITONTF_Tensor) (idx : nat)
    (cstr : list byte) (len : nat) : TRITONTF_Tensor :=
  <[idx := firstn len cstr]> tensor.

(** Modelled from the spec: [TRITONTF_TensorString(tensor, idx, &len)],
    the "string-element getter" of the engine's tensor handle, is defined
    in [tensorflow_backend_tf.cc], which is not among the sources.  It
    gives the bytes of element [idx]; [len] is their number. *)
Definition TRITONTF_TensorString (tensor : TRITONTF_Tensor) (idx : nat) : list byte :=
  nth idx tensor [].

(** [FillStringTensor], lines 542-548. *)
Definition FillStringTensor (tensor : TRITONTF_Tensor) (idx cnt : nat) : TRITONTF_Tensor :=
  fold_left (fun t c => TRITONTF_TensorSetString t (idx + c) [] 0) (seq 0 cnt) tensor.

(** A request input as [SetStringInputTensor] sees it.  [in_content] is
    the outcome of [GetContiguousInputContent] (lines 473-540) on the
    input: an error of the host's buffer accessors or of the copy utility,
    or the input's buffers joined into one byte range in system memory;
    [in_cuda_copy] is the flag that call reports. *)
Record TRITONBACKEND_Input := mkInput {
  in_name : string;
  in_datatype : TRITONSERVER_DataType;
  in_shape : list Z;
  in_properties_err : option TRITONSERVER_Error;
  in_content : TRITONSERVER_Error + list byte;
  in_cuda_copy : bool
}.

(** The mutable state of [SetStringInputTensor]: the tensor being filled,
    the caller's response slot and the calls made so far. *)
Record StringInputState := mkSIS {
  sis_tensor : TRITONTF_Tensor;
  sis_response : option Response;
  sis_trace : list Event
}.

Definition sis_respond (st : StringInputState) (e : TRITONSERVER_Error) : StringInputState :=
  let '(resp, evs) := RESPOND_AND_SET_NULL_IF_ERROR (sis_response st) (Some e) in
  mkSIS (sis_tensor st) resp (sis_trace st ++ evs).

Definition sis_fill (st : StringInputState) (idx cnt : nat) : StringInputState :=
  mkSIS (FillStringTensor (sis_tensor st) idx cnt) (sis_response st) (sis_trace st).

(** The [uint32_t] read at [content]: four bytes in the byte order of the
    machine, little-endian on the platforms the backend is built for. *)
Definition read_uint32 (content : list byte) : nat :=
  Z.to_nat (le_combine (firstn 4 content)).

(** The parsing loop of [SetStringInputTensor], lines 589-633.  [content]
    is the unread part of the payload and its length is
    [content_byte_size].  The result carries the final [element_idx] and
    whether the function returned from inside the loop.  Every iteration
    consumes at least four bytes, so [fuel = length content] is never
    exhausted ([None] is that unreachable case). *)
Fixpoint string_input_loop (fuel : nat) (name : string)
    (request_element_cnt tensor_offset : nat) (content : list byte)
    (element_idx : nat) (st : StringInputState)
  : option (StringInputState * nat * bool) :=
  if (length content <? 4)%nat then Some (st, element_idx, false)
  else
    match fuel with
    | O => None
    | S fuel' =>
        if (request_element_cnt <=? element_idx)%nat then
          let st := sis_respond st
            (TRITONSERVER_ErrorNew TRITONSERVER_ERROR_INVALID_ARG
               ("unexpected number of string elements " +:+
                to_string_nat (element_idx + 1) +:+ " for inference input '" +:+
                name +:+ "', expecting " +:+ to_string_nat request_element_cnt)) in
          let st := sis_fill st (tensor_offset + element_idx)
                      (request_element_cnt - element_idx) in
          Some (st, element_idx, true)
        else
          let len := read_uint32 content in
          let content := skipn 4 content in
          if (length content <? len)%nat then
            let st := sis_respond st
              (TRITONSERVER_ErrorNew TRITONSERVER_ERROR_INVALID_ARG
                 ("incomplete string data for inference input '" +:+ name +:+
                  "', expecting string of length " +:+ to_string_nat len +:+
                  " but only " +:+ to_string_nat (length content) +:+
                  " bytes available")) in
            let st := sis_fill st (tensor_offset + element_idx)
                        (request_element_cnt - element_idx) in
            Some (st, element_idx, true)
          else
            let st := mkSIS
              (TRITONTF_TensorSetString (sis_tensor st) (tensor_offset + element_idx)
                 content len)
              (sis_response st) (sis_trace st) in
            string_input_loop fuel' name request_element_cnt tensor_offset
              (skipn len content) (S element_idx) st
    end.

(** [SetStringInputTensor], lines 550-650.  The result is the final state
    and the returned [cuda_copy] flag.  [TRITON_ENABLE_GPU] tells whether
    the backend is built with GPU support: then a copy that the content
    call started is waited for at line 581 and the flag is cleared. *)
Definition SetStringInputTensor (TRITON_ENABLE_GPU : bool) (tensor : TRITONTF_Tensor)
    (input : TRITONBACKEND_Input) (name : string)
    (request_element_cnt tensor_offset : nat) (response : option Response)
  : StringInputState * bool :=
  let st := mkSIS tensor response [] in
  let element_idx := 0%nat in
  match in_content input with
  | inl err =>
      let '(resp, evs) := RESPOND_AND_SET_NULL_IF_ERROR (sis_response st) (Some err) in
      let st := mkSIS (sis_tensor st) resp (sis_trace st ++ evs) in
      let st := sis_fill st (tensor_offset + element_idx)
                  (request_element_cnt - element_idx) in
      (st, in_cuda_copy input)
  | inr content =>
      let cuda_copy := if TRITON_ENABLE_GPU then false else in_cuda_copy input in
      match string_input_loop (length content) name request_element_cnt
              tensor_offset content element_idx st with
      | None => (st, cuda_copy)
      | Some (st, element_idx, true) => (st, cuda_copy)
      | Some (st, element_idx, false) =>
          if bool_decide (sis_response st <> None)
             && negb (Nat.eqb element_idx request_element_cnt) then
            let st := sis_respond st
              (TRITONSERVER_ErrorNew TRITONSERVER_ERROR_INTERNAL
                 ("expected " +:+ to_string_nat request_element_cnt +:+
                  " strings for inference input '" +:+ name +:+ "', got " +:+
                  to_string_nat element_idx)) in
            let st := sis_fill st (tensor_offset + element_idx)
                        (request_element_cnt - element_idx) in
            (st, cuda_copy)
          else (st, cuda_copy)
      end
  end.

(** The serialisation loop of [SetStringOutputBuffer], lines 663-671: per
    element the first four bytes of the [size_t] length (its low 32 bits
    on a little-endian machine) and then all [len] bytes. *)
Definition serialize_strings (tensor : TRITONTF_Tensor)
    (tensor_element_count tensor_offset : nat) : list byte :=
  fold_left
    (fun serialized e =>
       let cstr := TRITONTF_TensorString tensor (tensor_offset + e) in
       let len := length cstr in
       let serialized := serialized ++ le_split 4 (Z.of_nat len) in
       if (0 <? len)%nat then serialized ++ firstn len cstr else serialized)
    (seq 0 tensor_element_count) [].

(** [SetStringOutputBuffer], lines 652-701.  [output_buffer_err] and
    [copy_buffer] are the outcomes of [TRITONBACKEND_OutputBuffer] and of
    [CopyBuffer] (its error and its [cuda_used] flag).  The result is the
    bytes that reach the response's buffer (if any), the response slot, the
    calls made and the [cuda_copy] flag. *)
Definition SetStringOutputBuffer (tensor : TRITONTF_Tensor)
    (response : option Response)
    (output_buffer_err : option TRITONSERVER_Error)
    (copy_buffer : option TRITONSERVER_Error * bool)
    (tensor_element_count tensor_offset : nat)
  : option (list byte) * option Response * list Event * bool :=
  let cuda_copy := false in
  let serialized := serialize_strings tensor tensor_element_count tensor_offset in
  match output_buffer_err with
  | Some err =>
      let '(resp, evs) := RESPOND_AND_SET_NULL_IF_ERROR response (Some err) in
      (None, resp, evs, cuda_copy)
  | None =>
      let '(err, cuda_used) := copy_buffer in
      let cuda_copy := cuda_copy || cuda_used in
      match err with
      | Some e =>
          let '(resp, evs) := RESPOND_AND_SET_NULL_IF_ERROR response (Some e) in
          (None, resp, evs, cuda_copy)
      | None => (Some serialized, response, [], cuda_copy)
      end
  end.

(* ================================================================= *)
(** ** Requests ([tensorflow.cc], lines 1664-2257) *)

(** A request as the backend reads it through the host server's API: its
    inputs in index order, whether [TRITONBACKEND_ResponseNew] succeeds for
    it, the outcome of [TRITONBACKEND_RequestOutputCount] and, per output
    index, of [TRITONBACKEND_RequestOutputName]. *)
Record TRITONBACKEND_Request := mkRequest {
  rq_inputs : list TRITONBACKEND_Input;
  rq_response_new : bool;
  rq_output_count_err : option TRITONSERVER_Error;
  rq_output_names : list (TRITONSERVER_Error + string)
}.

(** [TRITONBACKEND_RequestInputByIndex] of the host server: an index past
    the inputs is an error (the wording of the host's messages is the
    host's). *)
Definition TRITONBACKEND_RequestInputByIndex (request : TRITONBACKEND_Request)
    (index : nat) : TRITONSERVER_Error + TRITONBACKEND_Input :=
  match nth_error (rq_inputs request) index with
  | Some input => inr input
  | None =>
      inl (TRITONSERVER_ErrorNew TRITONSERVER_ERROR_INVALID_ARG
             ("out of bounds index " +:+ to_string_nat index +:+ ": request has " +:+
              to_string_nat (length (rq_inputs request)) +:+ " inputs"))
  end.

(** [TRITONBACKEND_RequestInput] of the host server: the input of that
    name, or an error. *)
Definition TRITONBACKEND_RequestInput (request : TRITONBACKEND_Request)
    (name : string) : TRITONSERVER_Error + TRITONBACKEND_Input :=
  match List.find (fun input => String.eqb (in_name input) name) (rq_inputs request) with
  | Some input => inr input
  | None =>
      inl (TRITONSERVER_ErrorNew TRITONSERVER_ERROR_INVALID_ARG
             ("unknown request input name " +:+ name))
  end.

(** Where the source goes on with an input handle that a failed
    [TRITONBACKEND_RequestInput] left unset, the model takes an input
    without dimensions whose accessors fail with that error. *)
Definition unset_input (e : TRITONSERVER_Error) : TRITONBACKEND_Input :=
  mkInput "" TRITONSERVER_TYPE_INVALID [] (Some e) (inl e) false.

(** [GetElementCount] of the backend utilities: the product of the
    dimensions, -1 when one of them is the wildcard, 0 for no dimensions. *)
Fixpoint GetElementCount_from (first : bool) (cnt : Z) (dims : list Z) : Z :=
  match dims with
  | [] => cnt
  | d :: rest =>
      if d =? WILDCARD_DIM then -1
      else if first then GetElementCount_from false d rest
      else GetElementCount_from false (cnt * d) rest
  end.

Definition GetElementCount (dims : list Z) : Z := GetElementCount_from true 0 dims.

(** An [int64_t] converted to [size_t]. *)
Definition size_t_of_int64 (z : Z) : nat := Z.to_nat (z mod 2 ^ 64).

(** The state of the loops of [ProcessRequests] that fill one string input
    tensor: the tensor, the [responses] vector, the calls made, the
    [cuda_copy] flag and [tensor_offset]. *)
Record InputLoopState := mkILS {
  ils_tensor : list (list byte);
  ils_responses : list (option Response);
  ils_trace : list Event;
  ils_cuda_copy : bool;
  ils_tensor_offset : nat
}.

(** One iteration of the loop at lines 1887-1908, for request [idx]. *)
Definition string_request_step (TRITON_ENABLE_GPU : bool) (name : string)
    (st : InputLoopState) (idx : nat) (request : TRITONBACKEND_Request)
  : InputLoopState :=
  let '(input, err) :=
    match TRITONBACKEND_RequestInput request name with
    | inr input => (input, None)
    | inl e => (unset_input e, Some e)
    end in
  let '(resp, evs1) :=
    RESPOND_AND_SET_NULL_IF_ERROR (nth idx (ils_responses st) None) err in
  let '(resp, evs2) := RESPOND_AND_SET_NULL_IF_ERROR resp (in_properties_err input) in
  let batch_element_cnt := GetElementCount (in_shape input) in
  let '(sis, cuda) :=
    SetStringInputTensor TRITON_ENABLE_GPU (ils_tensor st) input name
      (size_t_of_int64 batch_element_cnt) (ils_tensor_offset st) resp in
  mkILS (sis_tensor sis)
        (<[idx := sis_response sis]> (ils_responses st))
        (ils_trace st ++ evs1 ++ evs2 ++ sis_trace sis)
        (ils_cuda_copy st || cuda)
        (ils_tensor_offset st + size_t_of_int64 batch_element_cnt).

(** The loop at lines 1887-1908: [for (idx = 0; idx < request_count; idx++)]. *)
Fixpoint string_inputs_loop (TRITON_ENABLE_GPU : bool) (name : string) (idx : nat)
    (requests : list TRITONBACKEND_Request) (st : InputLoopState) : InputLoopState :=
  match requests with
  | [] => st
  | request :: rest =>
      string_inputs_loop TRITON_ENABLE_GPU name (S idx) rest
        (string_request_step TRITON_ENABLE_GPU name st idx request)
  end.

(* ================================================================= *)
(** ** One execution cycle: [ModelInstanceState::ProcessRequests] *)

(** A batched input tensor handed to the engine; [it_strings] holds the
    elements of a string tensor (the bytes of other tensors are moved by
    the backend's input collector). *)
Record InputTensor := mkIT {
  it_name : string;
  it_datatype : TRITONTF_DataType;
  it_shape : list Z;
  it_strings : list (list byte)
}.

(** An output tensor returned by the engine. *)
Record OutputTensor := mkOT {
  ot_datatype : TRITONTF_DataType;
  ot_shape : TRITONTF_Shape;
  ot_strings : list (list byte)
}.

(** A batch-input binding of the model configuration. *)
Record BatchInput := mkBI {
  bi_target_names : list string;
  bi_datatype : TRITONSERVER_DataType
}.

(** The model state the cycle reads and the outcomes of the calls it makes
    into the engine, the host server and the backend utilities.  A
    collector or responder call is given by the error, if any, with which
    it fails the response of each request. *)
Record Env := mkEnv {
  Name : string;
  MaxBatchSize : Z;
  IsInputRagged : string -> bool;
  input_name_map : gmap string string;
  output_name_map : gmap string string;
  BatchInputs : list BatchInput;
  FindBatchOutput : string -> bool;
  (* nullptr, or the elements of the fresh tensor *)
  TRITONTF_TensorNew : string -> TRITONTF_DataType -> list Z -> option (list (list byte));
  (* the engine's error message, or one tensor per requested output *)
  TRITONTF_ModelRun : list InputTensor -> list string -> string + list OutputTensor;
  collector_ProcessTensor : string -> nat -> option TRITONSERVER_Error;
  collector_BatchInputShape : BatchInput -> list Z;
  collector_ProcessBatchInput : BatchInput -> string -> option TRITONSERVER_Error;
  collector_Finalize : nat -> option TRITONSERVER_Error;
  collector_Finalize_cuda : bool;
  responder_ProcessTensor : string -> nat -> option TRITONSERVER_Error;
  responder_ProcessBatchOutput : string -> nat -> option TRITONSERVER_Error;
  responder_Finalize : nat -> option TRITONSERVER_Error;
  responder_Finalize_cuda : bool;
  TRITONBACKEND_ResponseOutput : nat -> string -> option TRITONSERVER_Error;
  TRITONBACKEND_OutputBuffer : nat -> string -> option TRITONSERVER_Error;
  CopyBuffer : nat -> string -> option TRITONSERVER_Error * bool;
  (* whether the backend is built with GPU support *)
  TRITON_ENABLE_GPU : bool
}.

(** [size_t] arithmetic. *)
Definition size_t_wrap (z : Z) : Z := z mod 2 ^ 64.

(** The loop at lines 1682-1717: the total batch size, or the error with
    which the cycle is given up. *)
Fixpoint total_batch_size_loop (env : Env)
    (requests : list (option TRITONBACKEND_Request)) (total_batch_size : Z)
  : TRITONSERVER_Error + Z :=
  match requests with
  | [] => inr total_batch_size
  | None :: _ =>
      inl (TRITONSERVER_ErrorNew TRITONSERVER_ERROR_INTERNAL
             ("null request given to TensorFlow backend for '" +:+ Name env +:+ "'"))
  | Some request :: rest =>
      if MaxBatchSize env >? 0 then
        match TRITONBACKEND_RequestInputByIndex request 0 with
        | inr input =>
            let total_batch_size :=
              size_t_wrap (total_batch_size + nth 0 (in_shape input) 0) in
            match in_properties_err input with
            | Some err => inl err
            | None => total_batch_size_loop env rest total_batch_size
            end
        | inl err => inl err
        end
      else total_batch_size_loop env rest (size_t_wrap (total_batch_size + 1))
  end.

(** The mutable state of a cycle that has committed to running. *)
Record PRState := mkPR {
  pr_responses : list (option Response);
  pr_trace : list Event;
  pr_cuda_copy : bool;
  pr_input_tensors : list InputTensor;
  pr_string_outputs : list (nat * string * list byte)
}.

(** A step of the cycle: it changes the state and either goes on with a
    value or has returned from [ProcessRequests] ([None]). *)
Definition Cycle (A : Type) : Type := PRState -> option A * PRState.

Definition cy_ret {A : Type} (a : A) : Cycle A := fun st => (Some a, st).

Definition cy_bind {A B : Type} (m : Cycle A) (k : A -> Cycle B) : Cycle B :=
  fun st =>
    match m st with
    | (Some a, st') => k a st'
    | (None, st') => (None, st')
    end.

Notation "'let*' x ':=' m 'in' k" := (cy_bind m (fun x => k))
  (at level 10, x pattern, m at level 100, k at level 200).
Notation "m ';;' k" := (cy_bind m (fun _ => k))
  (at level 100, k at level 200, right associativity).

Definition cy_return {A : Type} : Cycle A := fun st => (None, st).

Definition cy_get : Cycle PRState := fun st => (Some st, st).

Definition emit (e : Event) : Cycle unit :=
  fun st => (Some tt, mkPR (pr_responses st) (pr_trace st ++ [e]) (pr_cuda_copy st)
                        (pr_input_tensors st) (pr_string_outputs st)).

Definition or_cuda_copy (b : bool) : Cycle unit :=
  fun st => (Some tt, mkPR (pr_responses st) (pr_trace st) (pr_cuda_copy st || b)
                        (pr_input_tensors st) (pr_string_outputs st)).

(** [RESPOND_AND_SET_NULL_IF_ERROR(&responses[idx], x)] *)
Definition respond (idx : nat) (x : option TRITONSERVER_Error) : Cycle unit :=
  fun st =>
    let '(resp, evs) := RESPOND_AND_SET_NULL_IF_ERROR (nth idx (pr_responses st) None) x in
    (Some tt, mkPR (<[idx := resp]> (pr_responses st)) (pr_trace st ++ evs)
                (pr_cuda_copy st) (pr_input_tensors st) (pr_string_outputs st)).

(** [for (idx = start; ...; idx++)] over the elements of a list. *)
Fixpoint for_each {X : Type} (body : nat -> X -> Cycle unit) (idx : nat) (l : list X)
  : Cycle unit :=
  match l with
  | [] => cy_ret tt
  | x :: rest => body idx x ;; for_each body (S idx) rest
  end.

(** A call into the backend's collector or responder: it fails, with
    [RESPOND_AND_SET_NULL_IF_ERROR], the responses the environment names. *)
Definition utility_call (request_count : nat) (errs : nat -> option TRITONSERVER_Error)
  : Cycle unit :=
  for_each (fun idx _ => respond idx (errs idx)) 0 (seq 0 request_count).

(** [RESPOND_ALL_AND_SET_NULL_IF_ERROR(responses, responses.size(), x)] *)
Definition RESPOND_ALL_AND_SET_NULL_IF_ERROR (request_count : nat)
    (x : option TRITONSERVER_Error) : Cycle unit :=
  for_each (fun idx _ => respond idx x) 0 (seq 0 request_count).

(** "Send remaining responses and returned", lines 1860-1875, 1958-1973
    and 2081-2096: the error goes to every response still there, every
    request is released, and [ProcessRequests] returns. *)
Definition send_remaining_and_return {A : Type} (request_count : nat)
    (err : TRITONSERVER_Error) : Cycle A :=
  for_each
    (fun r _ =>
       let* st := cy_get in
       match nth r (pr_responses st) None with
       | Some resp => emit (EvResponseSend resp (Some err))
       | None => cy_ret tt
       end ;;
       emit (EvRequestRelease r))
    0 (seq 0 request_count) ;;
  cy_return.

(** [std::set<std::string>::insert]: the set is kept as the list of its
    elements in the order of [operator<] on strings. *)
Fixpoint set_insert (x : string) (l : list string) : list string :=
  match l with
  | [] => [x]
  | y :: rest =>
      match String.compare x y with
      | Lt => x :: l
      | Eq => l
      | Gt => y :: set_insert x rest
      end
  end.

(** The name a tensor has inside the model, lines 1837-1842 and 2047-2052. *)
Definition in_model_name (names : gmap string string) (name : string) : string :=
  match names !! name with
  | Some n => n
  | None => name
  end.

(** Lines 1757-1767: a response per request; a slot stays nullptr when the
    host server cannot create the response. *)
Definition create_responses (requests : list TRITONBACKEND_Request) : list (option Response) :=
  imap (fun i request => if rq_response_new request then Some i else None) requests.

(** Lines 1812-1828, the batched shape of a ragged input. *)
Definition ragged_shape_loop (name : string) (requests : list TRITONBACKEND_Request)
  : Cycle Z :=
  let* _ :=
    for_each
      (fun idx request =>
         match TRITONBACKEND_RequestInput request name with
         | inr input => respond idx None ;; respond idx (in_properties_err input)
         | inl e => respond idx (Some e) ;; respond idx (in_properties_err (unset_input e))
         end)
      0 requests in
  cy_ret
    (fold_left
       (fun acc request =>
          match TRITONBACKEND_RequestInput request name with
          | inr input => acc + GetElementCount (in_shape input)
          | inl e => acc + GetElementCount (in_shape (unset_input e))
          end)
       requests 0).

(** Lines 1848-1876 and 1945-1974: a new tensor, or the end of the cycle
    when the engine cannot create it. *)
Definition new_input_tensor (env : Env) (request_count : nat) (name tensor_name : string)
    (datatype : TRITONSERVER_DataType) (shape : list Z) : Cycle (list (list byte)) :=
  match TRITONTF_TensorNew env tensor_name (ConvertDataType_srv datatype) shape with
  | Some tensor => cy_ret tensor
  | None =>
      send_remaining_and_return request_count
        (TRITONSERVER_ErrorNew TRITONSERVER_ERROR_INTERNAL
           ("failed to create input tensor '" +:+ name +:+ "' with shape " +:+
            backend_ShapeToString shape +:+ " and data type " +:+
            TRITONSERVER_DataTypeString datatype +:+
            " for '" +:+ Name env +:+ "'"))
  end.

Definition add_input_tensor (t : InputTensor) : Cycle unit :=
  fun st => (Some tt, mkPR (pr_responses st) (pr_trace st) (pr_cuda_copy st)
                        (t :: pr_input_tensors st) (pr_string_outputs st)).

(** Lines 1884-1909 inside the cycle: the string loop on the cycle's
    responses and trace. *)
Definition fill_string_input (env : Env) (name : string)
    (requests : list TRITONBACKEND_Request) (tensor : list (list byte))
  : Cycle (list (list byte)) :=
  fun st =>
    let st' := string_inputs_loop (TRITON_ENABLE_GPU env) name 0 requests
                 (mkILS tensor (pr_responses st) (pr_trace st) (pr_cuda_copy st) 0) in
    (Some (ils_tensor st'),
     mkPR (ils_responses st') (ils_trace st') (ils_cuda_copy st')
          (pr_input_tensors st) (pr_string_outputs st)).

(** The body of the loop over the inputs of the first request, lines
    1799-1926. *)
Definition process_input (env : Env) (requests : list TRITONBACKEND_Request)
    (total_batch_size : Z) (input : TRITONBACKEND_Input) : Cycle unit :=
  let request_count := length requests in
  let name := in_name input in
  let datatype := in_datatype input in
  let shape := in_shape input in
  let* batchn_shape :=
    (if IsInputRagged env name then
       let* n := ragged_shape_loop name requests in cy_ret [n]
     else
       cy_ret (if MaxBatchSize env =? 0 then shape else <[0%nat := total_batch_size]> shape)) in
  let input_tensor_name := in_model_name (input_name_map env) name in
  let* tensor := new_input_tensor env request_count name input_tensor_name datatype batchn_shape in
  if decide (datatype = TRITONSERVER_TYPE_BYTES) then
    let* tensor := fill_string_input env name requests tensor in
    add_input_tensor (mkIT input_tensor_name (ConvertDataType_srv datatype) batchn_shape tensor)
  else
    add_input_tensor (mkIT input_tensor_name (ConvertDataType_srv datatype) batchn_shape tensor) ;;
    utility_call request_count (collector_ProcessTensor env name).

(** Lines 1928-2007, the batch inputs. *)
Definition process_batch_input (env : Env) (request_count : nat) (batch_input : BatchInput)
  : Cycle unit :=
  let shape := collector_BatchInputShape env batch_input in
  for_each
    (fun _ input_name =>
       let input_tensor_name := in_model_name (input_name_map env) input_name in
       let* tensor := new_input_tensor env request_count input_name input_tensor_name
                        (bi_datatype batch_input) shape in
       add_input_tensor (mkIT input_tensor_name (ConvertDataType_srv (bi_datatype batch_input))
                           shape tensor) ;;
       RESPOND_ALL_AND_SET_NULL_IF_ERROR request_count
         (collector_ProcessBatchInput env batch_input input_name))
    0 (bi_target_names batch_input).

(** Lines 2017-2037 for one request: the outputs it asks for, collected
    while its response is still there. *)
Fixpoint request_output_names_loop (idx : nat)
    (names : list (TRITONSERVER_Error + string)) (acc : list string)
  : Cycle (list string) :=
  match names with
  | [] => cy_ret acc
  | n :: rest =>
      respond idx (match n with inl e => Some e | inr _ => None end) ;;
      let* st := cy_get in
      match nth idx (pr_responses st) None, n with
      | Some _, inr output_name =>
          request_output_names_loop idx rest (set_insert output_name acc)
      | _, _ => request_output_names_loop idx rest acc
      end
  end.

Definition request_required_outputs (idx : nat) (request : TRITONBACKEND_Request)
  : Cycle (list string) :=
  let* st := cy_get in
  match nth idx (pr_responses st) None with
  | Some _ =>
      respond idx (rq_output_count_err request) ;;
      let* st := cy_get in
      match nth idx (pr_responses st) None with
      | Some _ => request_output_names_loop idx (rq_output_names request) []
      | None => cy_ret []
      end
  | None => cy_ret []
  end.

Fixpoint required_outputs_loop (idx : nat) (requests : list TRITONBACKEND_Request)
  : Cycle (list (list string)) :=
  match requests with
  | [] => cy_ret []
  | request :: rest =>
      let* names := request_required_outputs idx request in
      let* others := required_outputs_loop (S idx) rest in
      cy_ret (names :: others)
  end.

(** Lines 2067-2100: the one call into the engine. *)
Definition run_model (env : Env) (request_count : nat) (required_outputs : list string)
  : Cycle (list OutputTensor) :=
  let* st := cy_get in
  let output_names_cstr := map (in_model_name (output_name_map env)) required_outputs in
  emit (EvModelRun output_names_cstr) ;;
  match TRITONTF_ModelRun env (pr_input_tensors st) output_names_cstr with
  | inl msg =>
      send_remaining_and_return request_count
        (TRITONSERVER_ErrorNew TRITONSERVER_ERROR_INTERNAL msg)
  | inr output_tensors => cy_ret output_tensors
  end.

Definition add_string_output (idx : nat) (name : string) (buffer : option (list byte))
  : Cycle unit :=
  fun st =>
    (Some tt,
     mkPR (pr_responses st) (pr_trace st) (pr_cuda_copy st) (pr_input_tensors st)
          (match buffer with
           | Some b => pr_string_outputs st ++ [(idx, name, b)]
           | None => pr_string_outputs st
           end)).

(** [SetStringOutputBuffer] on the response of request [idx]. *)
Definition set_string_output (env : Env) (idx : nat) (name : string)
    (tensor : list (list byte)) (tensor_element_cnt tensor_offset : nat) : Cycle unit :=
  fun st =>
    let '(buffer, resp, evs, cuda) :=
      SetStringOutputBuffer tensor (nth idx (pr_responses st) None)
        (TRITONBACKEND_OutputBuffer env idx name) (CopyBuffer env idx name)
        tensor_element_cnt tensor_offset in
    add_string_output idx name buffer
      (mkPR (<[idx := resp]> (pr_responses st)) (pr_trace st ++ evs)
            (pr_cuda_copy st || cuda) (pr_input_tensors st) (pr_string_outputs st)).

(** Lines 2141-2174: a string output is cut into the requests' parts. *)
Fixpoint string_outputs_loop (env : Env) (name : string) (tensor : list (list byte))
    (request_required_outputs : list (list string))
    (idx : nat) (requests : list TRITONBACKEND_Request)
    (batchn_shape : list Z) (tensor_offset : nat) : Cycle unit :=
  match requests with
  | [] => cy_ret tt
  | request :: rest =>
      let batchn_shape :=
        if MaxBatchSize env =? 0 then batchn_shape
        else
          let input :=
            match TRITONBACKEND_RequestInputByIndex request 0 with
            | inr input => input
            | inl e => unset_input e
            end in
          <[0%nat := nth 0 (in_shape input) 0]> batchn_shape in
      let tensor_element_cnt := size_t_of_int64 (GetElementCount batchn_shape) in
      let* st := cy_get in
      (if bool_decide (nth idx (pr_responses st) None <> None)
          && bool_decide (name ∈ nth idx request_required_outputs [])
       then
         respond idx (TRITONBACKEND_ResponseOutput env idx name) ;;
         set_string_output env idx name tensor tensor_element_cnt tensor_offset
       else cy_ret tt) ;;
      string_outputs_loop env name tensor request_required_outputs (S idx) rest
        batchn_shape (tensor_offset + tensor_element_cnt)
  end.

(** The body of the loop over the output tensors, lines 2117-2202. *)
Definition process_output (env : Env) (requests : list TRITONBACKEND_Request)
    (request_required_outputs : list (list string))
    (name : string) (output_tensor : OutputTensor) : Cycle unit :=
  let request_count := length requests in
  if negb (FindBatchOutput env name) then
    let datatype := ConvertDataType_tf (ot_datatype output_tensor) in
    let batchn_shape :=
      map (dims_at (ot_shape output_tensor)) (seq 0 (rank_ (ot_shape output_tensor))) in
    if decide (datatype = TRITONSERVER_TYPE_BYTES) then
      string_outputs_loop env name (ot_strings output_tensor) request_required_outputs
        0 requests batchn_shape 0
    else utility_call request_count (responder_ProcessTensor env name)
  else utility_call request_count (responder_ProcessBatchOutput env name).

(** Lines 2221-2228: every response still there is sent without an error;
    the pointers stay as they are. *)
Definition send_all_responses (request_count : nat) : Cycle unit :=
  for_each
    (fun r _ =>
       let* st := cy_get in
       match nth r (pr_responses st) None with
       | Some resp => emit (EvResponseSend resp None)
       | None => cy_ret tt
       end)
    0 (seq 0 request_count).

(** Lines 2231-2243: statistics and release, per request. *)
Definition report_and_release (request_count : nat) : Cycle unit :=
  for_each
    (fun r _ =>
       let* st := cy_get in
       emit (EvReportStatistics r (bool_decide (nth r (pr_responses st) None <> None))) ;;
       emit (EvRequestRelease r))
    0 (seq 0 request_count).

(** [ProcessRequests] from line 1743 on: the cycle has committed to
    running all requests. *)
Definition committed_cycle (env : Env) (requests : list TRITONBACKEND_Request)
    (total_batch_size : Z) : Cycle unit :=
  let request_count := length requests in
  for_each (fun _ input => process_input env requests total_batch_size input) 0
    (match requests with
     | request0 :: _ => rq_inputs request0
     | [] => []
     end) ;;
  for_each (fun _ batch_input => process_batch_input env request_count batch_input) 0
    (BatchInputs env) ;;
  utility_call request_count (collector_Finalize env) ;;
  or_cuda_copy (collector_Finalize_cuda env) ;;
  let* request_required_outputs := required_outputs_loop 0 requests in
  let required_outputs :=
    fold_left (fun acc names => fold_left (fun acc n => set_insert n acc) names acc)
      request_required_outputs [] in
  let* output_tensors := run_model env request_count required_outputs in
  for_each (fun _ '(name, output_tensor) =>
              process_output env requests request_required_outputs name output_tensor) 0
    (zip required_outputs output_tensors) ;;
  utility_call request_count (responder_Finalize env) ;;
  or_cuda_copy (responder_Finalize_cuda env) ;;
  send_all_responses request_count ;;
  report_and_release request_count.

(** The requests of a cycle that passed the null check. *)
Definition non_null_requests (requests : list (option TRITONBACKEND_Request))
  : list TRITONBACKEND_Request :=
  omap id requests.

(** [ModelInstanceState::ProcessRequests], lines 1664-2257.  The result is
    the state at the end of the call; [pr_trace] lists the responses sent,
    the requests released and the run of the engine, in order. *)
Definition ProcessRequests (env : Env) (requests : list (option TRITONBACKEND_Request))
  : PRState :=
  let request_count := length requests in
  let st0 := mkPR [] [] false [] [] in
  match total_batch_size_loop env requests 0 with
  | inl err => snd (emit (EvRequestsRespondWithError request_count err) st0)
  | inr total_batch_size =>
      if total_batch_size =? 0 then st0
      else if negb (total_batch_size =? 1)
              && (total_batch_size >? size_t_wrap (MaxBatchSize env)) then
        snd (emit (EvRequestsRespondWithError request_count
                     (TRITONSERVER_ErrorNew TRITONSERVER_ERROR_INTERNAL
                        ("batch size " +:+ to_string_Z total_batch_size +:+ " for '" +:+
                         Name env +:+ "', max allowed is " +:+
                         to_string_Z (MaxBatchSize env)))) st0)
      else
        let requests := non_null_requests requests in
        snd (committed_cycle env requests total_batch_size
               (mkPR (create_responses requests) [] false [] []))
  end.

(** The length-prefixed encoding in the words of the specification: per
    element a 4-byte unsigned length header, then the raw bytes, with no
    terminator. *)
Definition encode_string (s : list byte) : list byte :=
  le_split 4 (Z.of_nat (length s)) ++ s.

Definition encode_strings (strs : list (list byte)) : list byte :=
  flat_map encode_string strs.

(** What a request's payload for a string input looks like next to its
    declared element count [cnt], what the batched tensor must hold for
    that request afterwards, and whether the request is at fault:
    - complete: exactly [cnt] elements (up to three stray bytes after the
      last element do not make an element);
    - truncated: a length header promising more bytes than remain;
    - too many: [cnt] elements and then at least one more header;
    - too few: fewer than [cnt] elements. *)
Inductive payload_outcome (cnt : nat) (content : list byte)
  : list (list byte) -> bool -> Prop :=
| payload_complete (strs : list (list byte)) (tail : list byte) :
    content = encode_strings strs ++ tail ->
    (length tail < 4)%nat ->
    length strs = cnt ->
    Forall (fun s => Z.of_nat (length s) < 2 ^ 32) strs ->
    payload_outcome cnt content strs false
| payload_truncated (strs : list (list byte)) (n : Z) (rest : list byte) :
    content = encode_strings strs ++ le_split 4 n ++ rest ->
    0 <= n < 2 ^ 32 ->
    Z.of_nat (length rest) < n ->
    (length strs < cnt)%nat ->
    Forall (fun s => Z.of_nat (length s) < 2 ^ 32) strs ->
    payload_outcome cnt content (strs ++ repeat [] (cnt - length strs)) true
| payload_too_many (strs : list (list byte)) (rest : list byte) :
    content = encode_strings strs ++ rest ->
    (4 <= length rest)%nat ->
    length strs = cnt ->
    Forall (fun s => Z.of_nat (length s) < 2 ^ 32) strs ->
    payload_outcome cnt content strs true
| payload_too_few (strs : list (list byte)) (tail : list byte) :
    content = encode_strings strs ++ tail ->
    (length tail < 4)%nat ->
    (length strs < cnt)%nat ->
    Forall (fun s => Z.of_nat (length s) < 2 ^ 32) strs ->
    payload_outcome cnt content (strs ++ repeat [] (cnt - length strs)) true.

(** What the span of one request in the batched string tensor holds after
    [SetStringInputTensor] has dealt with the request, and whether the
    request is at fault, given the declared element count [cnt], the
    content of its input (the error of the content call or the payload),
    the request's response slot and what the span held before:
    - unreadable: the content call fails; the span is filled with empty
      strings;
    - complete: exactly [cnt] elements (up to three stray bytes after the
      last element do not make an element); they are stored;
    - truncated: a length header promising more bytes than remain; the
      elements before it are stored, the rest of the span is filled with
      empty strings;
    - too many: [cnt] elements and then at least one more header; the
      [cnt] elements are stored;
    - too few: fewer than [cnt] elements; they are stored, and the rest of
      the span is filled with empty strings if the response is still
      there and left as it was if the response is nullptr. *)
Inductive span_outcome (cnt : nat) (content : TRITONSERVER_Error + list byte)
    (response : option Response) (old : list (list byte))
  : list (list byte) -> bool -> Prop :=
| span_unreadable (err : TRITONSERVER_Error) :
    content = inl err ->
    span_outcome cnt content response old (repeat [] cnt) true
| span_complete (strs : list (list byte)) (tail : list byte) :
    content = inr (encode_strings strs ++ tail) ->
    (length tail < 4)%nat ->
    length strs = cnt ->
    Forall (fun s => Z.of_nat (length s) < 2 ^ 32) strs ->
    span_outcome cnt content response old strs false
| span_truncated (strs : list (list byte)) (n : Z) (rest : list byte) :
    content = inr (encode_strings strs ++ le_split 4 n ++ rest) ->
    0 <= n < 2 ^ 32 ->
    Z.of_nat (length rest) < n ->
    (length strs < cnt)%nat ->
    Forall (fun s => Z.of_nat (length s) < 2 ^ 32) strs ->
    span_outcome cnt content response old (strs ++ repeat [] (cnt - length strs)) true
| span_too_many (strs : list (list byte)) (rest : list byte) :
    content = inr (encode_strings strs ++ rest) ->
    (4 <= length rest)%nat ->
    length strs = cnt ->
    Forall (fun s => Z.of_nat (length s) < 2 ^ 32) strs ->
    span_outcome cnt content response old strs true
| span_too_few (strs : list (list byte)) (tail : list byte) :
    content = inr (encode_strings strs ++ tail) ->
    (length tail < 4)%nat ->
    (length strs < cnt)%nat ->
    Forall (fun s => Z.of_nat (length s) < 2 ^ 32) strs ->
    response <> None ->
    span_outcome cnt content response old (strs ++ repeat [] (cnt - length strs)) true
| span_too_few_unanswered (strs : list (list byte)) (tail : list byte) :
    content = inr (encode_strings strs ++ tail) ->
    (length tail < 4)%nat ->
    (length strs < cnt)%nat ->
    Forall (fun s => Z.of_nat (length s) < 2 ^ 32) strs ->
    response = None ->
    span_outcome cnt content response old (strs ++ skipn (length strs) old) true.







(** How often a trace finalises the response of request [r]: a
    [TRITONBACKEND_ResponseSend] on its response counts once, and so does
    a call of [RequestsRespondWithError] on a request array that holds it
    (the helper sends the error to every request it is given). *)
Fixpoint finalisations (r : nat) (tr : list Event) : nat :=
  match tr with
  | [] => 0
  | EvResponseSend r' _ :: rest =>
      ((if Nat.eqb r' r then 1 else 0) + finalisations r rest)%nat
  | EvRequestsRespondWithError n _ :: rest =>
      ((if Nat.ltb r n then 1 else 0) + finalisations r rest)%nat
  | _ :: rest => finalisations r rest
  end.

(** Whether a trace runs the engine. *)
Definition runs_engine (tr : list Event) : bool :=
  existsb (fun e => match e with EvModelRun _ => true | _ => false end) tr.

(** An environment in which no call fails: no ragged inputs, no renaming,
    no batch bindings, fresh string tensors hold empty strings and the
    engine returns one FP32 tensor per requested output; the backend is
    built with GPU support, as the build does by default. *)
Definition plain_env (max_batch_size : Z) : Env :=
  mkEnv "m" max_batch_size (fun _ => false) ∅ ∅ [] (fun _ => false)
    (fun _ _ shape => Some (repeat [] (size_t_of_int64 (GetElementCount shape))))
    (fun _ names => inr (map (fun _ => mkOT TRITONTF_TYPE_FP32 (mkShape 2 [4; 3]) []) names))
    (fun _ _ => None) (fun _ => []) (fun _ _ => None) (fun _ => None) false
    (fun _ _ => None) (fun _ _ => None) (fun _ => None) false
    (fun _ _ => None) (fun _ _ => None) (fun _ _ => (None, false)) true.

(** A request with one FP32 input "IN" of shape [k, 3] that asks for the
    output "OUT"; [response_new] says whether its response can be
    created. *)
Definition plain_request (k : Z) (response_new : bool) : TRITONBACKEND_Request :=
  mkRequest [mkInput "IN" TRITONSERVER_TYPE_FP32 [k; 3] None (inr []) false]
    response_new None [inr "OUT"%string].




(** A signature tensor whose shape the model leaves unknown (rank 0). *)
Definition unknown_rank_io : TRITONTF_IO :=
  mkIO "x" "x" TRITONTF_TYPE_FP32 (mkShape 0 []).

(** The invariant of a committed cycle over the [responses] vector and the
    trace: a slot that still holds its response has not been finalised,
    and a slot that is nullptr has been finalised once if its response
    was ever created and never otherwise. *)
Definition slots_inv (created : nat -> bool) (n : nat)
    (responses : list (option Response)) (tr : list Event) : Prop :=
  length responses = n
  /\ forall r : nat,
       ((r < n)%nat ->
        (nth r responses None = Some r /\ created r = true /\ finalisations r tr = 0%nat)
        \/ (nth r responses None = None
            /\ finalisations r tr = if created r then 1%nat else 0%nat))
       /\ ((n <= r)%nat -> finalisations r tr = 0%nat).

(** The same while the responses still there are being sent in index
    order without clearing the slots: the requests before [k] are settled. *)
Definition slots_mid (created : nat -> bool) (n k : nat)
    (responses : list (option Response)) (tr : list Event) : Prop :=
  length responses = n
  /\ forall r : nat,
       ((r < k)%nat -> (r < n)%nat ->
        finalisations r tr = if created r then 1%nat else 0%nat)
       /\ ((k <= r)%nat -> (r < n)%nat ->
           (nth r responses None = Some r /\ created r = true
            /\ finalisations r tr = 0%nat)
           \/ (nth r responses None = None
               /\ finalisations r tr = if created r then 1%nat else 0%nat))
       /\ ((n <= r)%nat -> finalisations r tr = 0%nat).

(** What holds when [ProcessRequests] is left: every created response has
    been finalised once, nothing else has been. *)
Definition slots_final (created : nat -> bool) (n : nat) (tr : list Event) : Prop :=
  forall r : nat,
    finalisations r tr = if (r <? n)%nat && created r then 1%nat else 0%nat.

(** A step keeps the invariant, and establishes the final condition if it
    returns from [ProcessRequests]. *)
Definition cycle_ok (created : nat -> bool) (n : nat) {A : Type} (m : Cycle A) : Prop :=
  forall st : PRState,
    slots_inv created n (pr_responses st) (pr_trace st) ->
    match m st with
    | (Some _, st') => slots_inv created n (pr_responses st') (pr_trace st')
    | (None, st') => slots_final created n (pr_trace st')
    end.

(** A step after which the final condition holds however it ends. *)
Definition cycle_ends (created : nat -> bool) (n : nat) {A : Type} (m : Cycle A) : Prop :=
  forall st : PRState,
    slots_inv created n (pr_responses st) (pr_trace st) ->
    slots_final created n (pr_trace (snd (m st))).

(** Whether the response of request [r] could be created. *)
Definition response_created (requests : list TRITONBACKEND_Request) (r : nat) : bool :=
  match requests !! r with
  | Some request => rq_response_new request
  | None => false
  end.

(** An event that finalises no response. *)
Definition neutral_event (e : Event) : Prop :=
  match e with
  | EvResponseSend _ _ | EvRequestsRespondWithError _ _ => False
  | _ => True
  end.

(* ================================================================= *)
(** ** The model configuration and the signature validators
       ([tensorflow.cc], lines 74-464) *)

(** An entry of the configuration's "input" or "output" array, as the
    validators read it: name, data type name, dims, the shape of an
    optional reshape and the optional "allow_ragged_batch" flag. *)
Record ConfigIO := mkConfigIO {
  cio_name : string;
  cio_data_type : string;
  cio_dims : list Z;
  cio_reshape : option (list Z);
  cio_allow_ragged_batch : option bool
}.

(** What [GetBooleanSequenceControlProperties] or
    [GetTypedSequenceControlProperties] of the backend utilities returns
    for one control kind: an error, or the tensor name (empty when the
    control is not configured) and its data type name. *)
Definition SequenceControl : Type := TRITONSERVER_Error + (string * string).

Record SequenceBatching := mkSequenceBatching {
  CONTROL_SEQUENCE_START : SequenceControl;
  CONTROL_SEQUENCE_END : SequenceControl;
  CONTROL_SEQUENCE_READY : SequenceControl;
  CONTROL_SEQUENCE_CORRID : SequenceControl
}.

(** The parts of the model configuration the validators read;
    [cfg_batch_input] is the size of the "batch_input" array. *)
Record ModelConfig := mkModelConfig {
  cfg_input : list ConfigIO;
  cfg_batch_input : nat;
  cfg_output : list ConfigIO;
  cfg_sequence_batching : option SequenceBatching
}.

(** [BackendModel]: what the validators ask the model state. *)
Record BackendModel := mkBackendModel {
  bm_Name : string;
  bm_ModelConfig : ModelConfig;
  bm_MaxBatchSize : Z;
  bm_FindBatchOutput : string -> bool
}.

(** [CheckAllowedModelInput] and [CheckAllowedModelOutput] of the backend
    utilities: the configured name must be one of the allowed names (the
    message of the utilities goes on to list them). *)
Definition CheckAllowedModelInput (io : ConfigIO) (allowed : gset string)
  : option TRITONSERVER_Error :=
  if decide (cio_name io ∈ allowed) then None
  else Some (TRITONSERVER_ErrorNew TRITONSERVER_ERROR_INVALID_ARG
               ("unexpected inference input '" +:+ cio_name io +:+ "'")).

Definition CheckAllowedModelOutput (io : ConfigIO) (allowed : gset string)
  : option TRITONSERVER_Error :=
  if decide (cio_name io ∈ allowed) then None
  else Some (TRITONSERVER_ErrorNew TRITONSERVER_ERROR_INVALID_ARG
               ("unexpected inference output '" +:+ cio_name io +:+ "'")).

(** The names of a signature list as a [std::set<std::string>]. *)
Definition io_names (ios : TRITONTF_IOList) : gset string :=
  list_to_set (map name_ ios).

(** The writes through the pointer that [FindIOByName] returned: the shape
    of the first tensor of that name is replaced. *)
Fixpoint set_shape (ios : TRITONTF_IOList) (name : string) (shape : TRITONTF_Shape)
  : TRITONTF_IOList :=
  match ios with
  | [] => []
  | io :: rest =>
      if String.eqb (name_ io) name
      then mkIO (name_ io) (inmodel_name_ io) (data_type_ io) shape :: rest
      else io :: set_shape rest name shape
  end.

(** Lines 376-387 and 435-446: the shape taken from the configuration when
    the model reports rank 0.  [malloc] returns a block whose content is
    not determined; [fresh i] is what the block holds at index [i] before
    the loop writes [dims_[i + (supports_batching ? 1 : 0)] = dims[i]]. *)
Definition backfill_shape (fresh : nat -> Z) (dims : list Z) (supports_batching : bool)
  : TRITONTF_Shape :=
  let offset := if supports_batching then 1%nat else 0%nat in
  let rank := (length dims + offset)%nat in
  let block := map fresh (seq 0 rank) in
  mkShape rank
    (fold_left (fun block '(i, d) => <[(i + offset)%nat := d]> block)
               (imap pair dims) block).

(** The dims a configuration entry is validated with: those of the
    reshape when there is one. *)
Definition config_dims (io : ConfigIO) : list Z :=
  match cio_reshape io with
  | Some shape => shape
  | None => cio_dims io
  end.

Module graphdef.

(** [graphdef::ValidateSequenceControl], lines 76-109. *)
Definition ValidateSequenceControl (control : SequenceControl)
    (inputs : TRITONTF_IOList) : option TRITONSERVER_Error :=
  match control with
  | inl err => Some err
  | inr (tensor_name, _) =>
      if negb (String.eqb tensor_name "") then
        match FindIOByName inputs tensor_name with
        | None =>
            Some (TRITONSERVER_ErrorNew TRITONSERVER_ERROR_INTERNAL
                    ("configuration specified sequence control '" +:+ tensor_name +:+
                     "', but model does not provide that input"))
        | Some _ => None
        end
      else None
  end.

(** The first error of a list of checks, in order. *)
Fixpoint first_error (checks : list (option TRITONSERVER_Error))
  : option TRITONSERVER_Error :=
  match checks with
  | [] => None
  | Some err :: _ => Some err
  | None :: rest => first_error rest
  end.

(** [graphdef::ValidateTRITONTFModel], lines 111-178. *)
Definition ValidateTRITONTFModel (model_state : BackendModel)
    (inputs outputs : TRITONTF_IOList) : option TRITONSERVER_Error :=
  let model_name := bm_Name model_state in
  let model_config := bm_ModelConfig model_state in
  let potential_inputs := io_names inputs in
  let potential_outputs := io_names outputs in
  let config_inputs := cfg_input model_config in
  if (size potential_inputs <? length config_inputs)%nat then
    Some (TRITONSERVER_ErrorNew TRITONSERVER_ERROR_INVALID_ARG
            ("unable to load model '" +:+ model_name +:+
             "', configuration expects " +:+ to_string_nat (length config_inputs) +:+
             " inputs, model provides at most " +:+
             to_string_nat (size potential_inputs)))
  else
    match
      match cfg_sequence_batching model_config with
      | Some sb =>
          first_error
            [ ValidateSequenceControl (CONTROL_SEQUENCE_START sb) inputs;
              ValidateSequenceControl (CONTROL_SEQUENCE_END sb) inputs;
              ValidateSequenceControl (CONTROL_SEQUENCE_READY sb) inputs;
              ValidateSequenceControl (CONTROL_SEQUENCE_CORRID sb) inputs ]
      | None => None
      end
    with
    | Some err => Some err
    | None =>
        match first_error
                (map (fun io => CheckAllowedModelInput io potential_inputs) config_inputs)
        with
        | Some err => Some err
        | None =>
            first_error
              (map (fun io => CheckAllowedModelOutput io potential_outputs)
                   (cfg_output model_config))
        end
    end.

End graphdef.

Module savedmodel.

(** [savedmodel::ValidateSequenceControl], lines 184-250: the error, if
    any, and [*have_control]. *)
Definition ValidateSequenceControl (model_name : string) (max_batch_size : Z)
    (control : SequenceControl) (inputs : TRITONTF_IOList)
  : option TRITONSERVER_Error * bool :=
  match control with
  | inl err => (Some err, false)
  | inr (tensor_name, tensor_datatype) =>
      let have_control := negb (String.eqb tensor_name "") in
      if have_control then
        match FindIOByName inputs tensor_name with
        | None =>
            (Some (TRITONSERVER_ErrorNew TRITONSERVER_ERROR_INTERNAL
                     ("configuration specified sequence control '" +:+ tensor_name +:+
                      "', but model does not provide that input")),
             have_control)
        | Some input =>
            (* Control tensors must have shape [1]. *)
            let dims := [1] in
            match CompareDims model_name tensor_name (shape_ input) dims
                    (max_batch_size >? 0) true with
            | Some err =>
                (Some (TRITONSERVER_ErrorNew TRITONSERVER_ERROR_INVALID_ARG
                         ("unable to load model '" +:+ model_name +:+
                          "', sequence control '" +:+ tensor_name +:+ "': " +:+
                          err_msg err)),
                 have_control)
            | None =>
                if negb (CompareDataType (data_type_ input) tensor_datatype) then
                  (Some (TRITONSERVER_ErrorNew TRITONSERVER_ERROR_INVALID_ARG
                           ("unable to load model '" +:+ model_name +:+
                            "', sequence control '" +:+ tensor_name +:+
                            "': the model expects TYPE_" +:+
                            TRITONSERVER_DataTypeString
                              (ConvertDataType_tf (data_type_ input)) +:+
                            " but the model configuration specifies data-type " +:+
                            tensor_datatype)),
                   have_control)
                else (None, have_control)
            end
        end
      else (None, have_control)
  end.

(** Lines 289-316: the four controls in order; the result is the first
    error or the number of controls that resolve to a tensor name. *)
Definition validate_sequence_controls (model_name : string) (max_batch_size : Z)
    (sb : SequenceBatching) (inputs : TRITONTF_IOList) : TRITONSERVER_Error + nat :=
  match ValidateSequenceControl model_name max_batch_size (CONTROL_SEQUENCE_START sb) inputs with
  | (Some err, _) => inl err
  | (None, have_start) =>
  match ValidateSequenceControl model_name max_batch_size (CONTROL_SEQUENCE_END sb) inputs with
  | (Some err, _) => inl err
  | (None, have_end) =>
  match ValidateSequenceControl model_name max_batch_size (CONTROL_SEQUENCE_READY sb) inputs with
  | (Some err, _) => inl err
  | (None, have_ready) =>
  match ValidateSequenceControl model_name max_batch_size (CONTROL_SEQUENCE_CORRID sb) inputs with
  | (Some err, _) => inl err
  | (None, have_corrid) =>
      inr ((if have_start then 1 else 0) + (if have_end then 1 else 0)
           + (if have_ready then 1 else 0) + (if have_corrid then 1 else 0))%nat
  end end end end.

(** Lines 289-316 as a whole: nothing to validate and no control counted
    when the configuration has no "sequence_batching". *)
Definition sequence_controls (model_state : BackendModel) (inputs : TRITONTF_IOList)
  : TRITONSERVER_Error + nat :=
  match cfg_sequence_batching (bm_ModelConfig model_state) with
  | Some sb =>
      validate_sequence_controls (bm_Name model_state) (bm_MaxBatchSize model_state)
        sb inputs
  | None => inr 0%nat
  end.

(** The body of the loop over the configured inputs, lines 330-400, on
    the model's input list as earlier iterations left it. *)
Definition validate_input (fresh : nat -> Z) (model_state : BackendModel)
    (expected_inputs : gset string) (inputs : TRITONTF_IOList) (io : ConfigIO)
  : option TRITONSERVER_Error * TRITONTF_IOList :=
  let model_name := bm_Name model_state in
  let max_batch_size := bm_MaxBatchSize model_state in
  match CheckAllowedModelInput io expected_inputs with
  | Some err => (Some err, inputs)
  | None =>
      let io_name := cio_name io in
      match FindIOByName inputs io_name with
      | None =>
          (Some (TRITONSERVER_ErrorNew TRITONSERVER_ERROR_INTERNAL
                   ("unexpected inference input '" +:+ io_name +:+ "'")),
           inputs)
      | Some input =>
          let dims := config_dims io in
          let '(err, inputs) :=
            if negb (Nat.eqb (rank_ (shape_ input)) 0) then
              let allow_ragged_batch :=
                match cio_allow_ragged_batch io with
                | Some b => b
                | None => false
                end in
              if allow_ragged_batch then
                if negb (Nat.eqb (rank_ (shape_ input)) 1)
                   || negb (dims_at (shape_ input) 0 =? WILDCARD_DIM) then
                  (Some (TRITONSERVER_ErrorNew TRITONSERVER_ERROR_INVALID_ARG
                           ("unable to load model '" +:+ model_name +:+
                            "', configuration expects model provides input with shape [-1]  " +:+
                            "for ragged input '" +:+ io_name +:+ "', model provides " +:+
                            ShapeToString (shape_ input) 0)),
                   inputs)
                else (None, inputs)
              else
                (CompareDims model_name io_name (shape_ input) dims
                   (max_batch_size >? 0) false,
                 inputs)
            else
              (* The savedmodel doesn't specify a shape for the input so use
                 the shape from the model configuration *)
              let supports_batching := max_batch_size >? 0 in
              (None, set_shape inputs io_name (backfill_shape fresh dims supports_batching)) in
          match err with
          | Some err => (Some err, inputs)
          | None =>
              let io_data_type := cio_data_type io in
              if negb (CompareDataType (data_type_ input) io_data_type) then
                (Some (TRITONSERVER_ErrorNew TRITONSERVER_ERROR_INVALID_ARG
                         ("unable to load model '" +:+ model_name +:+
                          "', configuration expects datatype " +:+ io_data_type +:+
                          " for input '" +:+ io_name +:+ "', model provides TYPE_" +:+
                          TRITONSERVER_DataTypeString
                            (ConvertDataType_tf (data_type_ input)))),
                 inputs)
              else (None, inputs)
          end
      end
  end.

(** The body of the loop over the configured outputs, lines 404-459. *)
Definition validate_output (fresh : nat -> Z) (model_state : BackendModel)
    (allowed_outputs : gset string) (outputs : TRITONTF_IOList) (io : ConfigIO)
  : option TRITONSERVER_Error * TRITONTF_IOList :=
  let model_name := bm_Name model_state in
  let max_batch_size := bm_MaxBatchSize model_state in
  match CheckAllowedModelOutput io allowed_outputs with
  | Some err => (Some err, outputs)
  | None =>
      let io_name := cio_name io in
      match FindIOByName outputs io_name with
      | None =>
          (Some (TRITONSERVER_ErrorNew TRITONSERVER_ERROR_INTERNAL
                   ("unexpected inference output '" +:+ io_name +:+ "'")),
           outputs)
      | Some output =>
          let dims := config_dims io in
          let '(err, outputs) :=
            if negb (Nat.eqb (rank_ (shape_ output)) 0) then
              (* The batch output shape doesn't necessarily match the model *)
              if negb (bm_FindBatchOutput model_state io_name) then
                (CompareDims model_name io_name (shape_ output) dims
                   (max_batch_size >? 0) true,
                 outputs)
              else (None, outputs)
            else
              let supports_batching := max_batch_size >? 0 in
              (None, set_shape outputs io_name (backfill_shape fresh dims supports_batching)) in
          match err with
          | Some err => (Some err, outputs)
          | None =>
              let io_data_type := cio_data_type io in
              if negb (CompareDataType (data_type_ output) io_data_type) then
                (Some (TRITONSERVER_ErrorNew TRITONSERVER_ERROR_INVALID_ARG
                         ("unable to load model '" +:+ model_name +:+
                          "', configuration expects datatype " +:+ io_data_type +:+
                          " for output '" +:+ io_name +:+ "', model provides TYPE_" +:+
                          TRITONSERVER_DataTypeString
                            (ConvertDataType_tf (data_type_ output)))),
                 outputs)
              else (None, outputs)
          end
      end
  end.

(** A loop over configuration entries that stops at the first error. *)
Fixpoint validate_all
    (step : TRITONTF_IOList -> ConfigIO -> option TRITONSERVER_Error * TRITONTF_IOList)
    (ios : TRITONTF_IOList) (config_ios : list ConfigIO)
  : option TRITONSERVER_Error * TRITONTF_IOList :=
  match config_ios with
  | [] => (None, ios)
  | io :: rest =>
      match step ios io with
      | (Some err, ios) => (Some err, ios)
      | (None, ios) => validate_all step ios rest
      end
  end.

(** The count of line 278-316 that the model's inputs are held against. *)
Definition expected_input_cnt (model_config : ModelConfig) (controls : nat) : nat :=
  (length (cfg_input model_config) + cfg_batch_input model_config + controls)%nat.

(** The error of lines 320-328. *)
Definition input_count_error (model_name : string) (expected provided : nat)
  : TRITONSERVER_Error :=
  TRITONSERVER_ErrorNew TRITONSERVER_ERROR_INVALID_ARG
    ("unable to load model '" +:+ model_name +:+ "', configuration expects " +:+
     to_string_nat expected +:+ " inputs, model provides " +:+ to_string_nat provided).

(** [savedmodel::ValidateTRITONTFModel], lines 252-462.  The result is the
    error (nullptr on success) and the model's input and output lists as
    the call leaves them. *)
Definition ValidateTRITONTFModel (fresh : nat -> Z) (model_state : BackendModel)
    (inputs outputs : TRITONTF_IOList)
  : option TRITONSERVER_Error * (TRITONTF_IOList * TRITONTF_IOList) :=
  let model_name := bm_Name model_state in
  let model_config := bm_ModelConfig model_state in
  let max_batch_size := bm_MaxBatchSize model_state in
  let expected_inputs := io_names inputs in
  let allowed_outputs := io_names outputs in
  match sequence_controls model_state inputs with
  | inl err => (Some err, (inputs, outputs))
  | inr controls =>
      let cnt := expected_input_cnt model_config controls in
      if negb (Nat.eqb (size expected_inputs) cnt) then
        (Some (input_count_error model_name cnt (size expected_inputs)),
         (inputs, outputs))
      else
        match validate_all (validate_input fresh model_state expected_inputs)
                inputs (cfg_input model_config) with
        | (Some err, inputs) => (Some err, (inputs, outputs))
        | (None, inputs) =>
            match validate_all (validate_output fresh model_state allowed_outputs)
                    outputs (cfg_output model_config) with
            | (Some err, outputs) => (Some err, (inputs, outputs))
            | (None, outputs) => (None, (inputs, outputs))
            end
        end
  end.

(** The name maps filled at lines 266-274: [unordered_map::insert] keeps
    the first in-model name given for a name. *)
Definition name_map (ios : TRITONTF_IOList) : gmap string string :=
  fold_left
    (fun m io =>
       match m !! name_ io with
       | Some _ => m
       | None => <[name_ io := inmodel_name_ io]> m
       end)
    ios ∅.

End savedmodel.

(** The sequence controls of a configuration in the order the validators
    take them: the four of its "sequence_batching", or none. *)
Definition configured_controls (model_config : ModelConfig) : list SequenceControl :=
  match cfg_sequence_batching model_config with
  | Some sb =>
      [ CONTROL_SEQUENCE_START sb; CONTROL_SEQUENCE_END sb;
        CONTROL_SEQUENCE_READY sb; CONTROL_SEQUENCE_CORRID sb ]
  | None => []
  end.

(** A sequence control resolves to a tensor name when the configuration
    gives it one. *)
Definition resolves (control : SequenceControl) : bool :=
  match control with
  | inr (tensor_name, _) => negb (String.eqb tensor_name "")
  | inl _ => false
  end.

(** A batching model named "m" with one FP32 input "x" of dims [3], one
    batch input and a sequence batcher whose start control is the INT32
    tensor "START"; the other controls are not configured. *)
Definition sequence_model : BackendModel :=
  mkBackendModel "m"
    (mkModelConfig [mkConfigIO "x" "TYPE_FP32" [3] None None] 1 []
       (Some (mkSequenceBatching (inr ("START", "TYPE_INT32")) (inr ("", ""))
                (inr ("", "")) (inr ("", "")))))
    1 (fun _ => false).

(** A signature with the tensors that configuration accounts for, "x",
    "START" and "B", and one more, "y". *)
Definition sequence_model_inputs : TRITONTF_IOList :=
  [ mkIO "x" "x:0" TRITONTF_TYPE_FP32 (mkShape 2 [-1; 3]);
    mkIO "START" "start:0" TRITONTF_TYPE_INT32 (mkShape 2 [-1; 1]);
    mkIO "B" "b:0" TRITONTF_TYPE_FP32 (mkShape 2 [-1; 1]);
    mkIO "y" "y:0" TRITONTF_TYPE_FP32 (mkShape 2 [-1; 3]) ].

(** A configuration with one FP32 input "x" of dims [3] and no outputs,
    for a model named "m". *)
Definition one_input_model (max_batch_size : Z) : BackendModel :=
  mkBackendModel "m"
    (mkModelConfig [mkConfigIO "x" "TYPE_FP32" [3] None None] 0 [] None)
    max_batch_size (fun _ => false).

(* ================================================================= *)
(** ** Further utilities of [tensorflow_utils.cc] *)

(** [DataTypeIsInvalid], [tensorflow_utils.cc] lines 175-180. *)
Definition DataTypeIsInvalid (dtype : string) : bool :=
  let cdtype := ConvertDataType_str dtype in
  bool_decide (cdtype = TRITONTF_TYPE_INVALID).

(** A SavedModel signature with one FP32 tensor "x" of shape [-1, 3]. *)
Definition batched_x_io : TRITONTF_IO :=
  mkIO "x" "serving_default_x:0" TRITONTF_TYPE_FP32 (mkShape 2 [-1; 3]).

(** What the SavedModel validator may do to a signature tensor: nothing,
    unless the tensor reports rank 0, in which case its shape (and only
    its shape) may have been replaced. *)
Definition backfilled_from (io io' : TRITONTF_IO) : Prop :=
  name_ io' = name_ io
  /\ inmodel_name_ io' = inmodel_name_ io
  /\ data_type_ io' = data_type_ io
  /\ (rank_ (shape_ io) <> 0%nat -> io' = io).
(* ================================================================= *)
(** ** Contiguous input content ([tensorflow.cc], lines 473-540) *)

(** [TRITONSERVER_MemoryType] of the host server. *)
Inductive TRITONSERVER_MemoryType :=
| TRITONSERVER_MEMORY_CPU
| TRITONSERVER_MEMORY_CPU_PINNED
| TRITONSERVER_MEMORY_GPU.

#[global] Instance TRITONSERVER_MemoryType_eq_dec : EqDecision TRITONSERVER_MemoryType.
Proof. solve_decision. Defined.

(** One buffer of a request input as
    [TRITONBACKEND_InputBufferForHostPolicy] reports it: the pointer
    ([None] is nullptr, otherwise the memory it points to), the byte size
    and the memory type. *)
Record InputBuffer := mkBuffer {
  src_ptr : option (list byte);
  src_byte_size : nat;
  src_memory_type : TRITONSERVER_MemoryType
}.

(** The [src_byte_size] bytes at [src_ptr]; nothing is read through a
    null pointer. *)
Definition buffer_bytes (b : InputBuffer) : list byte :=
  match src_ptr b with
  | Some mem => firstn (src_byte_size b) mem
  | None => []
  end.

(** [TRITONBACKEND_InputBufferForHostPolicy(rinput, host_policy_name, idx,
    ...)] of the host server on an input whose buffers have the given
    outcomes; an index past them is an error of the host. *)
Definition TRITONBACKEND_InputBufferForHostPolicy
    (rinput : list (TRITONSERVER_Error + InputBuffer)) (idx : nat)
  : TRITONSERVER_Error + InputBuffer :=
  match nth_error rinput idx with
  | Some outcome => outcome
  | None =>
      inl (TRITONSERVER_ErrorNew TRITONSERVER_ERROR_INVALID_ARG
             ("out of bounds index " +:+ to_string_nat idx +:+ ": input has " +:+
              to_string_nat (length rinput) +:+ " buffers"))
  end.

(** What [GetContiguousInputContent] leaves in its out parameters. *)
Record ContiguousContent := mkContent {
  content : option (list byte);
  content_byte_size : nat;
  contiguous_buffer : option (list byte);
  cuda_copy : bool
}.

(** The first loop, lines 487-502: the number of buffers with a non-null
    pointer, whether one of them is in GPU memory, and their total size;
    the first error of the host's accessor ends the call. *)
Fixpoint scan_buffers (rinput : list (TRITONSERVER_Error + InputBuffer))
    (idx todo : nat) (chunk_count : nat) (type_mismatch : bool) (total_byte_size : nat)
  : TRITONSERVER_Error + (nat * bool * nat) :=
  match todo with
  | O => inr (chunk_count, type_mismatch, total_byte_size)
  | S todo' =>
      match TRITONBACKEND_InputBufferForHostPolicy rinput idx with
      | inl err => inl err
      | inr b =>
          match src_ptr b with
          | Some _ =>
              scan_buffers rinput (S idx) todo' (S chunk_count)
                (type_mismatch
                 || bool_decide (src_memory_type b = TRITONSERVER_MEMORY_GPU))
                (total_byte_size + src_byte_size b)
          | None =>
              scan_buffers rinput (S idx) todo' chunk_count type_mismatch total_byte_size
          end
      end
  end.

(** The second loop, lines 517-533: the buffers with the indices 0 to
    [chunk_count - 1] are copied one behind the other into the block.
    [CopyBuffer] of the backend utilities is given by its error and its
    [cuda_used] flag for a buffer; when it succeeds the bytes of the
    buffer are at [contiguous_buffer + offset] (writes are kept inside
    the block). *)
Fixpoint copy_chunks (CopyBuffer : InputBuffer -> option TRITONSERVER_Error * bool)
    (rinput : list (TRITONSERVER_Error + InputBuffer)) (i todo : nat)
    (block : list byte) (offset : nat) (cuda_copy : bool)
  : option TRITONSERVER_Error * list byte * bool :=
  match todo with
  | O => (None, block, cuda_copy)
  | S todo' =>
      match TRITONBACKEND_InputBufferForHostPolicy rinput i with
      | inl err => (Some err, block, cuda_copy)
      | inr b =>
          match CopyBuffer b with
          | (Some err, _) => (Some err, block, cuda_copy)
          | (None, cuda_used) =>
              copy_chunks CopyBuffer rinput (S i) todo'
                (list_inserts offset (buffer_bytes b) block)
                (offset + src_byte_size b) (cuda_copy || cuda_used)
          end
      end
  end.

(** [GetContiguousInputContent], lines 473-540.  [fresh i] is what the
    block returned by [malloc] holds at index [i].  The result is the
    returned error and the out parameters ([content] and
    [content_byte_size] are the caller's nullptr and 0 when the call
    fails). *)
Definition GetContiguousInputContent
    (CopyBuffer : InputBuffer -> option TRITONSERVER_Error * bool)
    (fresh : nat -> byte)
    (rinput : list (TRITONSERVER_Error + InputBuffer)) (buffer_count : nat)
  : option TRITONSERVER_Error * ContiguousContent :=
  match scan_buffers rinput 0 buffer_count 0 false 0 with
  | inl err => (Some err, mkContent None 0 None false)
  | inr (chunk_count, type_mismatch, total_byte_size) =>
      if Nat.eqb chunk_count 0 then (None, mkContent None 0 None false)
      else if Nat.eqb chunk_count 1 && negb type_mismatch then
        match TRITONBACKEND_InputBufferForHostPolicy rinput 0 with
        | inl err => (Some err, mkContent None 0 None false)
        | inr b => (None, mkContent (src_ptr b) (src_byte_size b) None false)
        end
      else
        let block := map fresh (seq 0 total_byte_size) in
        match copy_chunks CopyBuffer rinput 0 chunk_count block 0 false with
        | (Some err, block, cuda_copy) =>
            (Some err, mkContent None 0 (Some block) cuda_copy)
        | (None, block, cuda_copy) =>
            (None, mkContent (Some block) total_byte_size (Some block) cuda_copy)
        end
  end.

(** The [content_byte_size] bytes at [content]. *)
Definition content_bytes (c : ContiguousContent) : list byte :=
  match content c with
  | Some mem => firstn (content_byte_size c) mem
  | None => []
  end.

(** What [SetStringInputTensor] sees of an input whose buffers are
    [rinput]: the error of [GetContiguousInputContent] or the content. *)
Definition input_content (r : option TRITONSERVER_Error * ContiguousContent)
  : TRITONSERVER_Error + list byte :=
  match r with
  | (Some err, _) => inl err
  | (None, c) => inr (content_bytes c)
  end.

(** The buffers of an input all of which are there and hold their bytes. *)
Definition buffer_present (b : InputBuffer) : Prop :=
  exists mem : list byte, src_ptr b = Some mem /\ (src_byte_size b <= length mem)%nat.

(** A string input whose payload arrives in the given buffers. *)
Definition buffered_string_input (name : string) (shape : list Z)
    (CopyBuffer : InputBuffer -> option TRITONSERVER_Error * bool) (fresh : nat -> byte)
    (buffers : list InputBuffer) : TRITONBACKEND_Input :=
  let r := GetContiguousInputContent CopyBuffer fresh (map inr buffers) (length buffers) in
  mkInput name TRITONSERVER_TYPE_BYTES shape None (input_content r) (cuda_copy (snd r)).
(* ================================================================= *)
(** ** The calls of a committed cycle, in order *)

(** How often a trace releases request [r]. *)
Fixpoint releases (r : nat) (tr : list Event) : nat :=
  match tr with
  | [] => 0
  | EvRequestRelease i :: rest => ((if Nat.eqb i r then 1 else 0) + releases r rest)%nat
  | _ :: rest => releases r rest
  end.

(** How often a trace runs the engine. *)
Fixpoint engine_runs (tr : list Event) : nat :=
  match tr with
  | [] => 0
  | EvModelRun _ :: rest => S (engine_runs rest)
  | _ :: rest => engine_runs rest
  end.

(** An error sent as the final response of some request. *)
Definition is_error_send (e : Event) : Prop :=
  match e with
  | EvResponseSend _ (Some _) => True
  | _ => False
  end.

(** A response sent without an error. *)
Definition is_success_send (e : Event) : Prop :=
  match e with
  | EvResponseSend _ None => True
  | _ => False
  end.

(** The calls of "send remaining responses and return" over [n] requests:
    per request, in index order, at most one error response and then the
    release of the request. *)
Definition abort_tail (n : nat) (tail : list Event) : Prop :=
  exists sends : nat -> list Event,
    (forall r, Forall is_error_send (sends r) /\ (length (sends r) <= 1)%nat)
    /\ tail = flat_map (fun r => sends r ++ [EvRequestRelease r]) (seq 0 n).

(** The calls that end a cycle that ran to completion: the responses
    still there are sent without an error, then statistics are reported
    for each request, in index order, and the request is released. *)
Definition normal_tail (n : nat) (tail : list Event) : Prop :=
  exists (oks : list Event) (success : nat -> bool),
    Forall is_success_send oks
    /\ tail = oks ++ flat_map (fun r => [EvReportStatistics r (success r);
                                        EvRequestRelease r]) (seq 0 n).

(** The calls of a committed cycle over [n] requests: errors sent while
    the inputs are gathered; then either the cycle is given up (a tensor
    could not be created), or the engine is run once and the cycle is
    given up (the run failed) or errors are sent while the outputs are
    handed out and the cycle ends normally. *)
Definition committed_trace (n : nat) (tr : list Event) : Prop :=
  exists errs1 : list Event,
    Forall is_error_send errs1
    /\ ((exists tail, abort_tail n tail /\ tr = errs1 ++ tail)
        \/ (exists names tail,
              abort_tail n tail /\ tr = errs1 ++ EvModelRun names :: tail)
        \/ (exists names errs2 tail,
              Forall is_error_send errs2 /\ normal_tail n tail
              /\ tr = errs1 ++ EvModelRun names :: errs2 ++ tail)).

(** A step of the cycle as far as the trace goes: from a trace that
    satisfies [P] it goes on with one that satisfies [Q], or returns from
    [ProcessRequests] with one that satisfies [F]. *)
Definition trace_ok (P Q F : list Event -> Prop) {A : Type} (m : Cycle A) : Prop :=
  forall st : PRState,
    P (pr_trace st) ->
    match m st with
    | (Some _, st') => Q (pr_trace st')
    | (None, st') => F (pr_trace st')
    end.

(** A step after which [F] holds of the trace however it ends. *)
Definition trace_ends (P F : list Event -> Prop) {A : Type} (m : Cycle A) : Prop :=
  forall st : PRState, P (pr_trace st) -> F (pr_trace (snd (m st))).

(** The trace once the engine has been run. *)
Definition after_run (tr : list Event) : Prop :=
  exists (errs1 : list Event) (names : list string) (errs2 : list Event),
    tr = errs1 ++ EvModelRun names :: errs2
    /\ Forall is_error_send errs1 /\ Forall is_error_send errs2.

(** Whether every response sent without an error comes after a run of
    the engine ([ran] says whether the engine has run before the trace). *)
Fixpoint success_after_run (ran : bool) (tr : list Event) : bool :=
  match tr with
  | [] => true
  | EvModelRun _ :: rest => success_after_run true rest
  | EvResponseSend _ None :: rest => ran && success_after_run ran rest
  | _ :: rest => success_after_run ran rest
  end.
(* ================================================================= *)
(** ** The model state: parameters, shared models and the checks of the
       configuration ([tensorflow_utils.cc], lines 330-361;
       [tensorflow.cc], lines 775-790 and 1063-1148, 1524-1567) *)

(** The backend utilities behind [ParseParameter], on the "parameters"
    object of one model configuration: [GetParameterValue] gives the
    string value of a key or an error (of code NOT_FOUND for a key that is
    not there); [ParseBoolValue] and [ParseIntValue] read such a string
    and leave their out parameter alone when they fail. *)
Record ParameterUtils := mkParameterUtils {
  GetParameterValue : string -> TRITONSERVER_Error + string;
  ParseBoolValue : string -> TRITONSERVER_Error + bool;
  ParseIntValue : string -> TRITONSERVER_Error + Z
}.

(** [ParseParameter(params, mkey, bool* value)], lines 330-340. *)
Definition ParseParameter_bool (params : ParameterUtils) (mkey : string)
  : TRITONSERVER_Error + bool :=
  match GetParameterValue params mkey with
  | inl err => inl err
  | inr value_str => ParseBoolValue params value_str
  end.

(** [ParseParameter(params, mkey, int* value)], lines 342-352. *)
Definition ParseParameter_int (params : ParameterUtils) (mkey : string)
  : TRITONSERVER_Error + Z :=
  match GetParameterValue params mkey with
  | inl err => inl err
  | inr value_str => ParseIntValue params value_str
  end.

(** [ParseParameter(params, mkey, std::string* value)], lines 354-361. *)
Definition ParseParameter_str (params : ParameterUtils) (mkey : string)
  : TRITONSERVER_Error + string :=
  GetParameterValue params mkey.

(** The members of [ModelState] that [ParseParameters] writes. *)
Record ModelStateParameters := mkModelStateParameters {
  max_session_share_count_ : Z;
  num_intra_threads_ : Z;
  num_inter_threads_ : Z;
  use_per_session_threads_ : bool;
  graph_tag_ : string;
  signature_def_ : string
}.

(** Their values after the constructor, lines 1033-1036. *)
Definition constructed_parameters : ModelStateParameters :=
  mkModelStateParameters 1 0 0 false "" "".

(** One block of [ParseParameters]: [parsed] is what [ParseParameter]
    returned.  An error other than NOT_FOUND ends the call, NOT_FOUND is
    dropped; a parsed value is in its member by then, and [check] is the
    test of the [else if]. *)
Definition optional_parameter {V : Type} (parsed : TRITONSERVER_Error + V)
    (st : ModelStateParameters) (store : V -> ModelStateParameters)
    (check : V -> option TRITONSERVER_Error)
  : option TRITONSERVER_Error * ModelStateParameters :=
  match parsed with
  | inl err =>
      if decide (err_code err <> TRITONSERVER_ERROR_NOT_FOUND) then (Some err, st)
      else (None, st)
  | inr v => (check v, store v)
  end.

(** Sequencing of blocks: the first error returns. *)
Definition and_then (r : option TRITONSERVER_Error * ModelStateParameters)
    (k : ModelStateParameters -> option TRITONSERVER_Error * ModelStateParameters)
  : option TRITONSERVER_Error * ModelStateParameters :=
  match r with
  | (Some err, st) => (Some err, st)
  | (None, st) => k st
  end.

(** [ModelState::ParseParameters], lines 1063-1148.  [parameters] is the
    "parameters" object of the configuration if it has one; the result is
    the returned error and the members as the call leaves them. *)
Definition ParseParameters (Name : string) (parameters : option ParameterUtils)
    (st : ModelStateParameters)
  : option TRITONSERVER_Error * ModelStateParameters :=
  match parameters with
  | None => (None, st)
  | Some params =>
    and_then
      (optional_parameter (ParseParameter_int params "MAX_SESSION_SHARE_COUNT") st
         (fun v => mkModelStateParameters v (num_intra_threads_ st) (num_inter_threads_ st)
                     (use_per_session_threads_ st) (graph_tag_ st) (signature_def_ st))
         (fun v =>
            if v <=? 0 then
              Some (TRITONSERVER_ErrorNew TRITONSERVER_ERROR_INVALID_ARG
                      ("parameter 'MAX_SESSION_SHARE_COUNT' must be positive " +:+
                       "number for TensorFlow model '" +:+ Name +:+ "'"))
            else None))
    (fun st =>
    and_then
      (optional_parameter (ParseParameter_int params "TF_NUM_INTRA_THREADS") st
         (fun v => mkModelStateParameters (max_session_share_count_ st) v
                     (num_inter_threads_ st) (use_per_session_threads_ st)
                     (graph_tag_ st) (signature_def_ st))
         (fun v =>
            if v <? 0 then
              Some (TRITONSERVER_ErrorNew TRITONSERVER_ERROR_INVALID_ARG
                      ("parameter 'TF_NUM_INTRA_THREADS' must be non-negative " +:+
                       "number for TensorFlow model '" +:+ Name +:+ "'"))
            else None))
    (fun st =>
    and_then
      (optional_parameter (ParseParameter_int params "TF_NUM_INTER_THREADS") st
         (fun v => mkModelStateParameters (max_session_share_count_ st)
                     (num_intra_threads_ st) v (use_per_session_threads_ st)
                     (graph_tag_ st) (signature_def_ st))
         (fun v =>
            if v <? 0 then
              Some (TRITONSERVER_ErrorNew TRITONSERVER_ERROR_INVALID_ARG
                      ("parameter 'TF_NUM_INTER_THREADS' must be non-negative " +:+
                       "number for TensorFlow model '" +:+ Name +:+ "'"))
            else None))
    (fun st =>
    and_then
      (optional_parameter (ParseParameter_bool params "TF_USE_PER_SESSION_THREADS") st
         (fun v => mkModelStateParameters (max_session_share_count_ st)
                     (num_intra_threads_ st) (num_inter_threads_ st) v
                     (graph_tag_ st) (signature_def_ st))
         (fun _ => None))
    (fun st =>
    and_then
      (optional_parameter (ParseParameter_str params "TF_GRAPH_TAG") st
         (fun v => mkModelStateParameters (max_session_share_count_ st)
                     (num_intra_threads_ st) (num_inter_threads_ st)
                     (use_per_session_threads_ st) v (signature_def_ st))
         (fun _ => None))
    (fun st =>
      optional_parameter (ParseParameter_str params "TF_SIGNATURE_DEF") st
         (fun v => mkModelStateParameters (max_session_share_count_ st)
                     (num_intra_threads_ st) (num_inter_threads_ st)
                     (use_per_session_threads_ st) (graph_tag_ st) v)
         (fun _ => None))))))
  end.

(** A parameter is acceptable when it is not set (the error of
    [ParseParameter] has the code NOT_FOUND) or when it is parsed to a
    value with the given property. *)
Definition acceptable {V : Type} (parsed : TRITONSERVER_Error + V) (P : V -> Prop) : Prop :=
  match parsed with
  | inl err => err_code err = TRITONSERVER_ERROR_NOT_FOUND
  | inr v => P v
  end.

(** The parsed value of a parameter, or [old] when there is none. *)
Definition parsed_or {V : Type} (parsed : TRITONSERVER_Error + V) (old : V) : V :=
  match parsed with
  | inl _ => old
  | inr v => v
  end.

(** A "parameters" object that sets MAX_SESSION_SHARE_COUNT to "4" and
    nothing else. *)
Definition share_count_4 : ParameterUtils :=
  mkParameterUtils
    (fun mkey =>
       if String.eqb mkey "MAX_SESSION_SHARE_COUNT" then inr "4"%string
       else inl (TRITONSERVER_ErrorNew TRITONSERVER_ERROR_NOT_FOUND
                   ("model configuration is missing the parameter " +:+ mkey)))
    (fun value =>
       inl (TRITONSERVER_ErrorNew TRITONSERVER_ERROR_INVALID_ARG
              ("failed to convert '" +:+ value +:+ "' to boolean value")))
    (fun value =>
       if String.eqb value "4" then inr 4
       else inl (TRITONSERVER_ErrorNew TRITONSERVER_ERROR_INVALID_ARG
                   ("failed to convert '" +:+ value +:+ "' to integral number"))).

(** [ModelState::Model], lines 719-734; the engine's model behind the
    shared handle is told apart by a number. *)
Record Model := mkModel {
  input_name_map_ : gmap string string;
  output_name_map_ : gmap string string;
  tritontf_model_ : nat;
  input_device_id_ : Z
}.

(** What a call of [GetModel] leaves: the returned error or [*model], the
    map [models_], and the calls of [CreateModel] it made. *)
Record GetModelResult := mkGetModelResult {
  gm_model : TRITONSERVER_Error + Model;
  gm_models_ : gmap Z (nat * Model);
  gm_created : list (Z * string)
}.

(** [ModelState::GetModel], lines 775-790.  [CreateModel] is given by its
    outcome for a device and a path; the share count is compared as a
    [size_t]. *)
Definition GetModel (CreateModel : Z -> string -> TRITONSERVER_Error + Model)
    (max_session_share_count_ : Z) (models_ : gmap Z (nat * Model))
    (device_id : Z) (model_path : string) : GetModelResult :=
  let create :=
    match CreateModel device_id model_path with
    | inl err => mkGetModelResult (inl err) models_ [(device_id, model_path)]
    | inr model =>
        mkGetModelResult (inr model) (<[device_id := (1%nat, model)]> models_)
          [(device_id, model_path)]
    end in
  match models_ !! device_id with
  | Some (count, shared) =>
      if Z.of_nat count <? max_session_share_count_ mod 2 ^ 64 then
        mkGetModelResult (inr shared) (<[device_id := (S count, shared)]> models_) []
      else create
  | None => create
  end.

(** The instances of a model are created one after the other, each with
    one call of [GetModel] for its device and path; the result is
    [models_] after the last of them and all calls of [CreateModel]. *)
Fixpoint GetModel_each (CreateModel : Z -> string -> TRITONSERVER_Error + Model)
    (max_session_share_count_ : Z) (models_ : gmap Z (nat * Model))
    (instances : list (Z * string)) : gmap Z (nat * Model) * list (Z * string) :=
  match instances with
  | [] => (models_, [])
  | (device_id, model_path) :: rest =>
      let r := GetModel CreateModel max_session_share_count_ models_ device_id model_path in
      let '(models_, created) :=
        GetModel_each CreateModel max_session_share_count_ (gm_models_ r) rest in
      (models_, gm_created r ++ created)
  end.

(** Every model registered in [models_] is shared by at least one and at
    most [max] instances. *)
Definition share_bounded (max : Z) (models_ : gmap Z (nat * Model)) : Prop :=
  forall (device_id : Z) (count : nat) (model : Model),
    models_ !! device_id = Some (count, model) ->
    (1 <= count)%nat /\ Z.of_nat count <= max.

(** One of the two loops of [ModelState::ValidateModelConfig], lines
    1536-1549 and 1551-1564. *)
Fixpoint validate_data_types (Name : string) (ios : list ConfigIO)
  : option TRITONSERVER_Error :=
  match ios with
  | [] => None
  | io :: rest =>
      let io_name := cio_name io in
      let io_dtype := cio_data_type io in
      if bool_decide (ConvertDataType_str io_dtype = TRITONTF_TYPE_INVALID) then
        Some (TRITONSERVER_ErrorNew TRITONSERVER_ERROR_INVALID_ARG
                ("unsupported datatype '" +:+ io_dtype +:+ "' for tensor '" +:+
                 io_name +:+ "' for model '" +:+ Name +:+ "'"))
      else validate_data_types Name rest
  end.

(** [ModelState::ValidateModelConfig], lines 1524-1567, on a configuration
    that can be written to the log (line 1529). *)
Definition ValidateModelConfig (model_state : BackendModel) : option TRITONSERVER_Error :=
  let model_config := bm_ModelConfig model_state in
  match validate_data_types (bm_Name model_state) (cfg_input model_config) with
  | Some err => Some err
  | None => validate_data_types (bm_Name model_state) (cfg_output model_config)
  end.

(* ================================================================= *)
(** ** Auto-completion of the configuration ([tensorflow.cc], lines
       1191-1335 and 1392-1414) *)

(** The loop of lines 1260-1282 over the model's tensors for one
    configured entry with [size] dims: every tensor of the entry's name
    gives a hint.  The state is [config_batch_hint] and
    [model_support_batching_]. *)
Fixpoint hints_of_tensors (Name config_name : string) (size : nat)
    (ios : TRITONTF_IOList) (config_batch_hint model_support_batching_ : bool)
  : TRITONSERVER_Error + (bool * bool) :=
  match ios with
  | [] => inr (config_batch_hint, model_support_batching_)
  | io :: rest =>
      if String.eqb config_name (name_ io) then
        let should_batch := Nat.eqb (rank_ (shape_ io)) (size + 1) in
        if config_batch_hint && negb (Bool.eqb model_support_batching_ should_batch) then
          inl (TRITONSERVER_ErrorNew TRITONSERVER_ERROR_INTERNAL
                 ("unable to autofill for '" +:+ Name +:+
                  "', model tensor configurations are contradicting " +:+
                  "each other in terms of whether batching is supported"))
        else hints_of_tensors Name config_name size rest true should_batch
      else hints_of_tensors Name config_name size rest config_batch_hint
             model_support_batching_
  end.

(** The loop of lines 1245-1285 over the entries of one configuration
    array.  Every entry carries its name, as [ConfigIO] has it, so the
    test of line 1248 holds; the dims of an entry are those of its
    reshape if it has one, and an entry without dims gives no hint. *)
Fixpoint hints_of_config (Name : string) (config_ios : list ConfigIO)
    (ios : TRITONTF_IOList) (config_batch_hint model_support_batching_ : bool)
  : TRITONSERVER_Error + (bool * bool) :=
  match config_ios with
  | [] => inr (config_batch_hint, model_support_batching_)
  | config_io :: rest =>
      let size := length (config_dims config_io) in
      if negb (Nat.eqb size 0) then
        match hints_of_tensors Name (cio_name config_io) size ios
                config_batch_hint model_support_batching_ with
        | inl err => inl err
        | inr (config_batch_hint, model_support_batching_) =>
            hints_of_config Name rest ios config_batch_hint model_support_batching_
        end
      else hints_of_config Name rest ios config_batch_hint model_support_batching_
  end.

(** What [FixBatchingSupport] leaves when it succeeds: the member
    [model_support_batching_] of the helper, the model state's
    [MaxBatchSize()], and whether a "dynamic_batching" object was added to
    the configuration. *)
Record BatchingSupport := mkBatchingSupport {
  model_support_batching_ : bool;
  new_MaxBatchSize : Z;
  dynamic_batching_added : bool
}.

(** [AutoCompleteHelper::FixBatchingSupport], lines 1191-1335, for a model
    with the signature [inputs], [outputs].  [found_dynamic_batching]
    tells whether the configuration has a "dynamic_batching" member. *)
Definition FixBatchingSupport (model_state : BackendModel) (default_max_batch_size_ : Z)
    (found_dynamic_batching : bool) (inputs outputs : TRITONTF_IOList)
  : TRITONSERVER_Error + BatchingSupport :=
  let Name := bm_Name model_state in
  let model_config := bm_ModelConfig model_state in
  let supports := sig_supports_batch [inputs; outputs] in
  let max_batch_size := bm_MaxBatchSize model_state in
  if negb supports && (max_batch_size >? 0) then
    inl (TRITONSERVER_ErrorNew TRITONSERVER_ERROR_INTERNAL
           ("unable to autofill for '" +:+ Name +:+
            "', configuration specified max-batch " +:+ to_string_Z max_batch_size +:+
            " but model signature does not support batching"))
  else
    let hinted :=
      if supports && (max_batch_size =? 0) then
        let config_inputs := cfg_input model_config in
        let config_outputs := cfg_output model_config in
        if negb (Nat.eqb (length config_inputs) 0)
           || negb (Nat.eqb (length config_outputs) 0) then
          match hints_of_config Name config_inputs inputs false supports with
          | inl err => inl err
          | inr (config_batch_hint, model_support_batching_) =>
              hints_of_config Name config_outputs outputs config_batch_hint
                model_support_batching_
          end
        else inr (false, supports)
      else inr (false, supports) in
    match hinted with
    | inl err => inl err
    | inr (_, model_support_batching_) =>
        let max_batch_size :=
          if max_batch_size =? 0 then
            if model_support_batching_ then Z.max default_max_batch_size_ 0 else 0
          else max_batch_size in
        let found_sequence_batching :=
          match cfg_sequence_batching model_config with
          | Some _ => true
          | None => false
          end in
        inr (mkBatchingSupport model_support_batching_ max_batch_size
               ((max_batch_size >? 1)
                && (negb found_sequence_batching && negb found_dynamic_batching)))
    end.

(** The hints the configuration gives on batching, in the order the loops
    of lines 1244-1286 meet them: one for every pair of a configured
    entry with dims and a tensor of its name, telling whether the tensor
    has one dimension more than the entry. *)
Definition batch_hints (config_ios : list ConfigIO) (ios : TRITONTF_IOList) : list bool :=
  flat_map
    (fun config_io =>
       let size := length (config_dims config_io) in
       if Nat.eqb size 0 then []
       else
         map (fun io => Nat.eqb (rank_ (shape_ io)) (size + 1))
             (List.filter (fun io => String.eqb (cio_name config_io) (name_ io)) ios))
    config_ios.

(** The error of lines 1269-1277. *)
Definition contradicting_hints_error (Name : string) : TRITONSERVER_Error :=
  TRITONSERVER_ErrorNew TRITONSERVER_ERROR_INTERNAL
    ("unable to autofill for '" +:+ Name +:+
     "', model tensor configurations are contradicting " +:+
     "each other in terms of whether batching is supported").

(** What lines 1264-1280 do with the hints they meet, one after the
    other. *)
Fixpoint take_hints (Name : string) (hints : list bool)
    (config_batch_hint model_support_batching_ : bool)
  : TRITONSERVER_Error + (bool * bool) :=
  match hints with
  | [] => inr (config_batch_hint, model_support_batching_)
  | should_batch :: rest =>
      if config_batch_hint && negb (Bool.eqb model_support_batching_ should_batch) then
        inl (contradicting_hints_error Name)
      else take_hints Name rest true should_batch
  end.

(** Lines 1396-1413 of [AutoCompleteHelper::FixIOConfig]: the "dims" and
    the shape of the "reshape", if any, of the entry built for a tensor
    of known rank when the configuration has no entries of its kind. *)
Definition auto_complete_dims (model_support_batching_ : bool) (shape : TRITONTF_Shape)
  : list Z * option (list Z) :=
  let start := if model_support_batching_ then 1%nat else 0%nat in
  let dims := map (dims_at shape) (seq start (rank_ shape - start)) in
  if Nat.eqb (length dims) 0 then ([1], Some []) else (dims, None).

(** The entry itself, lines 1352-1414: name, data type, dims and reshape. *)
Definition auto_complete_io (model_support_batching_ : bool) (io : TRITONTF_IO)
  : ConfigIO :=
  let '(dims, reshape) := auto_complete_dims model_support_batching_ (shape_ io) in
  mkConfigIO (name_ io) (ConvertToModelConfigString (data_type_ io)) dims reshape None.

(** The "dims" array of an entry of the configuration, given by the
    member if there is one: what [Find("dims", &current_dims)] leaves in
    an array that was empty. *)
Definition found_dims (entry : option (list Z)) : list Z :=
  match entry with
  | Some dims => dims
  | None => []
  end.

(** The body of the loop of [AutoCompleteHelper::FixIOConfig] for the
    tensor [io], which is the [idx]-th of the list, lines 1350-1465: the
    error it returns with, if any.  [ios] is the array of the
    configuration under [key], if there is one, each entry given by its
    "dims" member, if it has one.  [writes idx] is the first error, if
    any, of the calls of lines 1396-1417 that write the entry built for
    the tensor into the configuration; the two [AddString] calls of lines
    1355-1357 are made on an object created just before them and
    succeed. *)
Definition fix_io (Name key : string) (model_support_batching_ : bool)
    (ios : option (list (option (list Z)))) (writes : nat -> option TRITONSERVER_Error)
    (idx : nat) (io : TRITONTF_IO) : option TRITONSERVER_Error :=
  let rank := rank_ (shape_ io) in
  let undefined_dims :=
    TRITONSERVER_ErrorNew TRITONSERVER_ERROR_INVALID_ARG
      ("Unable to autofill for '" +:+ Name +:+ "': the rank of model tensor '" +:+
       name_ io +:+ "' is 0 and dimensions are not defined for all " +:+ key) in
  match ios with
  | Some ios =>
      if Nat.eqb rank 0 then
        if Nat.eqb (length ios) 0 then Some undefined_dims
        else if forallb (fun entry => match entry with Some _ => true | None => false end) ios
             then None
             else Some undefined_dims
      else if model_support_batching_ then
        if forallb (fun entry => Nat.eqb (length (found_dims entry)) (rank - 1)) ios
        then None
        else
          Some (TRITONSERVER_ErrorNew TRITONSERVER_ERROR_INVALID_ARG
                  ("Number of dimensions (" +:+ to_string_nat 0 +:+ ") given for '" +:+
                   Name +:+ "' in configuration does not match the rank (" +:+
                   to_string_nat (rank - 1) +:+ ")of the loaded model."))
      else
        if forallb (fun entry => Nat.eqb (length (found_dims entry)) rank) ios
        then None
        else
          Some (TRITONSERVER_ErrorNew TRITONSERVER_ERROR_INVALID_ARG
                  ("Number of dimensions (" +:+ to_string_nat 0 +:+ ") given for '" +:+
                   Name +:+ "' in configuration does not match the rank (" +:+
                   to_string_nat rank +:+ ") of the loaded model."))
  | None =>
      if Nat.eqb rank 0 then
        Some (TRITONSERVER_ErrorNew TRITONSERVER_ERROR_INVALID_ARG
                ("Unable to autofill for '" +:+ Name +:+ "': the rank of model tensor '" +:+
                 name_ io +:+ "' is 0 which is not supported"))
      else writes idx
  end.

(** [AutoCompleteHelper::FixIOConfig], lines 1337-1469, from the [idx]-th
    tensor of the list on: the returned error. *)
Fixpoint FixIOConfig (Name key : string) (model_support_batching_ : bool)
    (ios : option (list (option (list Z)))) (writes : nat -> option TRITONSERVER_Error)
    (idx : nat) (reference_list : TRITONTF_IOList) : option TRITONSERVER_Error :=
  match reference_list with
  | [] => None
  | io :: rest =>
      match fix_io Name key model_support_batching_ ios writes idx io with
      | Some err => Some err
      | None => FixIOConfig Name key model_support_batching_ ios writes (S idx) rest
      end
  end.

(** A model named "m" whose configuration names no input and no output. *)
Definition empty_config_model (max_batch_size : Z) : BackendModel :=
  mkBackendModel "m" (mkModelConfig [] 0 [] None) max_batch_size (fun _ => false).

(* ================================================================= *)
(** * Theorems *)

(* ----------------------------------------------------------------- *)
(** ** Datatype conversions *)

Lemma ConvertDataType_str_unlisted (name : string) :
  ~ In name model_config_type_names ->
  ConvertDataType_str name = TRITONTF_TYPE_INVALID.
Proof.
  intros Hnot. unfold ConvertDataType_str.
  repeat
    match goal with
    | |- context [String.eqb name ?s] =>
        destruct (String.eqb_spec name s) as [->|_];
        [ try reflexivity; exfalso; apply Hnot; cbn; tauto | ]
    end.
  reflexivity.
Qed.

(** C10.  The name/enum conversions are mutually inverse on the supported
    domain: every recognised type name (among them every one other than
    "TYPE_INVALID") survives [ConvertDataType] followed by
    [ConvertToModelConfigString]; every named TRITONTF datatype survives
    the trip to the TRITONSERVER datatype and back, STRING going to BYTES
    and back; and every unrecognised name and every unlisted enum value
    maps to the invalid datatype. *)
Theorem datatype_conversions_inverse :
  Forall (fun name =>
            ConvertToModelConfigString (ConvertDataType_str name) = name)
         model_config_type_names
  /\ (forall d : TRITONTF_DataType,
        d <> TRITONTF_TYPE_unlisted ->
        ConvertDataType_srv (ConvertDataType_tf d) = d)
  /\ ConvertDataType_tf TRITONTF_TYPE_STRING = TRITONSERVER_TYPE_BYTES
  /\ ConvertDataType_srv TRITONSERVER_TYPE_BYTES = TRITONTF_TYPE_STRING
  /\ (forall name : string,
        ~ In name model_config_type_names ->
        ConvertDataType_str name = TRITONTF_TYPE_INVALID)
  /\ ConvertDataType_tf TRITONTF_TYPE_unlisted = TRITONSERVER_TYPE_INVALID
  /\ ConvertDataType_srv TRITONSERVER_TYPE_unlisted = TRITONTF_TYPE_INVALID.
Proof.
  split; [ repeat constructor | ].
  split; [ intros d Hd; destruct d; try reflexivity; congruence | ].
  split; [ reflexivity | ].
  split; [ reflexivity | ].
  split; [ exact ConvertDataType_str_unlisted | ].
  split; reflexivity.
Qed.

Lemma datatype_conversions_inverse_witness :
  ConvertToModelConfigString (ConvertDataType_str "TYPE_FP32") = "TYPE_FP32"%string
  /\ ConvertDataType_srv (ConvertDataType_tf TRITONTF_TYPE_INT64) = TRITONTF_TYPE_INT64
  /\ ConvertDataType_str "TYPE_BF16" = TRITONTF_TYPE_INVALID.
Proof.
  destruct datatype_conversions_inverse as (Hn & Hd & _ & _ & Hu & _).
  split; [ reflexivity | ].
  split; [ apply Hd; discriminate | ].
  apply Hu. cbn. intros H. repeat (destruct H as [H|H]; [ discriminate H | ]). exact H.
Defined.

(* ----------------------------------------------------------------- *)
(** ** Batching support *)

Lemma ModelSupportsBatch_spec (model_ios : list TRITONTF_IOList) :
  ModelSupportsBatch model_ios = true <->
  Forall (Forall (fun io => rank_ (shape_ io) <> 0%nat ->
                            dims_at (shape_ io) 0 = -1)) model_ios.
Proof.
  unfold ModelSupportsBatch.
  rewrite forallb_forall, List.Forall_forall.
  split; intros H ios Hin; specialize (H ios Hin).
  - rewrite forallb_forall in H. rewrite List.Forall_forall.
    intros io Hio Hr. specialize (H io Hio).
    destruct (Nat.eqb_spec (rank_ (shape_ io)) 0) as [He|_]; [ congruence | ].
    destruct (Z.eqb_spec (dims_at (shape_ io) 0) (-1)) as [Hd|_]; [ exact Hd | discriminate H ].
  - rewrite List.Forall_forall in H. rewrite forallb_forall.
    intros io Hio. specialize (H io Hio).
    destruct (Nat.eqb_spec (rank_ (shape_ io)) 0) as [He|Hne]; [ reflexivity | ].
    rewrite (H Hne). reflexivity.
Qed.

(** C6 (as the code has it).  [ModelSupportsBatch] returns true exactly
    when every tensor of non-zero rank has a wildcard leading dimension:
    tensors of rank 0 are skipped, and one tensor of non-zero rank whose
    leading dimension is not the wildcard makes the result false. *)
Theorem ModelSupportsBatch_skips_unknown_rank :
  forall model_ios : list TRITONTF_IOList,
    (ModelSupportsBatch model_ios = true <->
     Forall (Forall (fun io => rank_ (shape_ io) = 0%nat \/ batchable io)) model_ios)
    /\ (forall pre post ios_pre ios_post io,
          model_ios = pre ++ (ios_pre ++ io :: ios_post) :: post ->
          rank_ (shape_ io) <> 0%nat ->
          dims_at (shape_ io) 0 <> WILDCARD_DIM ->
          ModelSupportsBatch model_ios = false).
Proof.
  intros model_ios.
  assert (Hiff : ModelSupportsBatch model_ios = true <->
     Forall (Forall (fun io => rank_ (shape_ io) = 0%nat \/ batchable io)) model_ios).
  { rewrite ModelSupportsBatch_spec. unfold batchable, WILDCARD_DIM.
    split; intros H; (eapply List.Forall_impl; [ | exact H ]);
      intros ios Hios; (eapply List.Forall_impl; [ | exact Hios ]); cbv beta; intros io Hio.
    - destruct (Nat.eq_dec (rank_ (shape_ io)) 0%nat) as [He|Hne]; [ left; exact He | ].
      right. split; [ lia | exact (Hio Hne) ].
    - intros Hne. destruct Hio as [He|[_ Hd]]; [ contradiction | exact Hd ]. }
  split; [ exact Hiff | ].
  intros pre post ios_pre ios_post io -> Hr Hd.
  apply not_true_is_false. intros E. apply Hiff in E.
  apply List.Forall_app in E as [_ E]. apply List.Forall_cons_iff in E as [E _].
  apply List.Forall_app in E as [_ E]. apply List.Forall_cons_iff in E as [E _].
  destruct E as [E|[_ E]]; contradiction.
Qed.

Lemma ModelSupportsBatch_skips_unknown_rank_witness :
  ModelSupportsBatch
    [ [ mkIO "a" "a" TRITONTF_TYPE_FP32 (mkShape 2 [-1; 4]) ];
      [ mkIO "b" "b" TRITONTF_TYPE_FP32 (mkShape 2 [-1; 4]);
        mkIO "c" "c" TRITONTF_TYPE_FP32 (mkShape 1 [4]) ] ] = false.
Proof.
  refine (proj2 (ModelSupportsBatch_skips_unknown_rank _)
            [ [ mkIO "a" "a" TRITONTF_TYPE_FP32 (mkShape 2 [-1; 4]) ] ] []
            [ mkIO "b" "b" TRITONTF_TYPE_FP32 (mkShape 2 [-1; 4]) ] []
            (mkIO "c" "c" TRITONTF_TYPE_FP32 (mkShape 1 [4])) eq_refl _ _).
  - cbn. discriminate.
  - cbn. discriminate.
Defined.

(** C6, the claim as stated fails: a signature whose only tensor has rank 0
    is reported as supporting batching. *)
Lemma ModelSupportsBatch_rank0_counterexample :
  ~ (forall model_ios : list TRITONTF_IOList,
       ModelSupportsBatch model_ios = true ->
       Forall (Forall batchable) model_ios).
Proof.
  intros H. specialize (H [[unknown_rank_io]] eq_refl).
  apply List.Forall_cons_iff in H as [H _]. apply List.Forall_cons_iff in H as [[H _] _].
  cbn in H. lia.
Qed.

Lemma forallb_andb {A : Type} (f g : A -> bool) (l : list A) :
  forallb f l && forallb g l = forallb (fun x => f x && g x) l.
Proof.
  induction l as [|x l IH]; [ reflexivity | ].
  cbn. rewrite <- IH. destruct (f x), (g x), (forallb f l); reflexivity.
Qed.

Lemma forallb_pointwise {A : Type} (f g : A -> bool) (l : list A) :
  (forall x, f x = g x) -> forallb f l = forallb g l.
Proof.
  intros H. induction l as [|x l IH]; [ reflexivity | ].
  cbn. now rewrite H, IH.
Qed.

Lemma sig_supports_batch_inner (ios : TRITONTF_IOList) (acc : bool) :
  fold_left
    (fun acc io =>
       if Nat.eqb (rank_ (shape_ io)) 0 || negb (dims_at (shape_ io) 0 =? -1)
       then false else acc) ios acc
  = acc && forallb (fun io => negb (Nat.eqb (rank_ (shape_ io)) 0)
                              && (dims_at (shape_ io) 0 =? -1)) ios.
Proof.
  revert acc. induction ios as [|io ios IH]; intros acc; cbn.
  - now rewrite andb_true_r.
  - rewrite IH. destruct (Nat.eqb (rank_ (shape_ io)) 0), (dims_at (shape_ io) 0 =? -1);
      cbn; try reflexivity; now rewrite ?andb_false_r.
Qed.

Lemma sig_supports_batch_forallb (model_ios : list TRITONTF_IOList) :
  sig_supports_batch model_ios
  = forallb (forallb (fun io => negb (Nat.eqb (rank_ (shape_ io)) 0)
                                && (dims_at (shape_ io) 0 =? -1))) model_ios.
Proof.
  unfold sig_supports_batch.
  enough (forall acc,
    fold_left
      (fun acc ios =>
         fold_left
           (fun acc io =>
              if Nat.eqb (rank_ (shape_ io)) 0 || negb (dims_at (shape_ io) 0 =? -1)
              then false else acc) ios acc) model_ios acc
    = acc && forallb (forallb (fun io => negb (Nat.eqb (rank_ (shape_ io)) 0)
                                && (dims_at (shape_ io) 0 =? -1))) model_ios)
    as H by (rewrite H; reflexivity).
  induction model_ios as [|ios rest IH]; intros acc; cbn.
  - now rewrite andb_true_r.
  - rewrite IH, sig_supports_batch_inner. now rewrite andb_assoc.
Qed.

(** C7 (as the code has it).  The predicate computed inline by
    [FixBatchingSupport] is [ModelSupportsBatch] conjoined with "no tensor
    has rank 0": it is true exactly when every tensor has rank at least 1
    and a wildcard leading dimension, and the two functions return the
    same boolean on every signature without a tensor of rank 0. *)
Theorem sig_supports_batch_vs_ModelSupportsBatch :
  forall model_ios : list TRITONTF_IOList,
    sig_supports_batch model_ios
    = ModelSupportsBatch model_ios
      && forallb (forallb (fun io => negb (Nat.eqb (rank_ (shape_ io)) 0))) model_ios
    /\ (sig_supports_batch model_ios = true <-> Forall (Forall batchable) model_ios)
    /\ (Forall (Forall (fun io => rank_ (shape_ io) <> 0%nat)) model_ios ->
        sig_supports_batch model_ios = ModelSupportsBatch model_ios).
Proof.
  intros model_ios.
  assert (Heq : sig_supports_batch model_ios
    = ModelSupportsBatch model_ios
      && forallb (forallb (fun io => negb (Nat.eqb (rank_ (shape_ io)) 0))) model_ios).
  { rewrite sig_supports_batch_forallb. unfold ModelSupportsBatch.
    rewrite forallb_andb. apply forallb_pointwise. intros ios.
    rewrite forallb_andb. apply forallb_pointwise. intros io.
    destruct (Nat.eqb (rank_ (shape_ io)) 0), (dims_at (shape_ io) 0 =? -1); reflexivity. }
  split; [ exact Heq | ].
  split.
  - rewrite sig_supports_batch_forallb, forallb_forall, List.Forall_forall.
    unfold batchable, WILDCARD_DIM.
    split; intros H ios Hin; specialize (H ios Hin).
    + rewrite forallb_forall in H. rewrite List.Forall_forall. intros io Hio.
      specialize (H io Hio). apply andb_true_iff in H as [Hr Hd].
      apply negb_true_iff, Nat.eqb_neq in Hr. apply Z.eqb_eq in Hd. split; [ lia | exact Hd ].
    + rewrite List.Forall_forall in H. rewrite forallb_forall. intros io Hio.
      destruct (H io Hio) as [Hr Hd]. apply andb_true_iff. split.
      * apply negb_true_iff, Nat.eqb_neq. lia.
      * now apply Z.eqb_eq.
  - intros Hr. rewrite Heq.
    enough (forallb (forallb (fun io => negb (Nat.eqb (rank_ (shape_ io)) 0))) model_ios = true)
      as -> by now rewrite andb_true_r.
    rewrite forallb_forall. rewrite List.Forall_forall in Hr. intros ios Hin.
    specialize (Hr ios Hin). rewrite forallb_forall. rewrite List.Forall_forall in Hr.
    intros io Hio. apply negb_true_iff, Nat.eqb_neq. exact (Hr io Hio).
Qed.

Lemma sig_supports_batch_vs_ModelSupportsBatch_witness :
  sig_supports_batch
    [ [ mkIO "a" "a" TRITONTF_TYPE_FP32 (mkShape 2 [-1; 4]) ];
      [ mkIO "b" "b" TRITONTF_TYPE_FP32 (mkShape 1 [4]) ] ]
  = ModelSupportsBatch
    [ [ mkIO "a" "a" TRITONTF_TYPE_FP32 (mkShape 2 [-1; 4]) ];
      [ mkIO "b" "b" TRITONTF_TYPE_FP32 (mkShape 1 [4]) ] ].
Proof.
  apply (proj2 (proj2 (sig_supports_batch_vs_ModelSupportsBatch _))).
  repeat constructor; cbn; discriminate.
Defined.

(** C7, the claim as stated fails: on a signature with a tensor of rank 0
    the inline predicate is false and [ModelSupportsBatch] is true. *)
Lemma sig_supports_batch_rank0_counterexample :
  ~ (forall model_ios : list TRITONTF_IOList,
       sig_supports_batch model_ios = ModelSupportsBatch model_ios).
Proof.
  intros H. specialize (H [[unknown_rank_io]]). cbv in H. discriminate H.
Qed.

(* ----------------------------------------------------------------- *)
(** ** Shape comparison *)

Example CompareDims_batching_lenient :
  CompareDims "m" "t" (mkShape 3 [-1; -1; 3]) [7; 3] true false = None.
Proof. reflexivity. Qed.

Example CompareDims_batching_exact :
  CompareDims "m" "t" (mkShape 3 [-1; -1; 3]) [7; 3] true true
  = Some (TRITONSERVER_ErrorNew TRITONSERVER_ERROR_INVALID_ARG
       "model 'm', tensor 't': the model expects 3 dimensions (shape [-1,-1,3]) but the model configuration specifies 3 dimensions (an initial batch dimension because max_batch_size > 0 followed by the explicit tensor shape, making complete shape [-1,7,3])").
Proof. reflexivity. Qed.

Lemma skipn_nth_cons (l : list Z) (i : nat) :
  (i < length l)%nat -> skipn i l = nth i l 0 :: skipn (S i) l.
Proof.
  revert i. induction l as [|x l IH]; intros i Hi; cbn in Hi; [ lia | ].
  destruct i as [|i]; [ reflexivity | ].
  cbn [skipn nth]. rewrite (IH i) by lia. reflexivity.
Qed.

Lemma compare_dims_loop_false (ce : bool) (s : TRITONTF_Shape) (dims : list Z) (i : nat) :
  compare_dims_loop ce s i dims false = false.
Proof.
  revert i. induction dims as [|d dims IH]; intros i; cbn; [ reflexivity | ].
  destruct (ce || negb (dims_at s i =? WILDCARD_DIM)); apply IH.
Qed.

Lemma dim_compatible_decide (ce : bool) (m c : Z) :
  dim_compatible ce m c <->
  (if ce || negb (m =? WILDCARD_DIM) then (m =? c) else true) = true.
Proof.
  unfold dim_compatible. destruct ce; cbn.
  - symmetry. apply Z.eqb_eq.
  - destruct (Z.eqb_spec m WILDCARD_DIM) as [->|Hne]; cbn.
    + split; [ reflexivity | left; reflexivity ].
    + rewrite Z.eqb_eq. split; [ intros [H|H]; [ contradiction | exact H ] | right; assumption ].
Qed.

Lemma shape_dims_length (s : TRITONTF_Shape) : length (shape_dims s) = rank_ s.
Proof. unfold shape_dims. now rewrite length_map, length_seq. Qed.

Lemma shape_dims_nth (s : TRITONTF_Shape) (i : nat) :
  (i < rank_ s)%nat -> nth i (shape_dims s) 0 = dims_at s i.
Proof.
  intros Hi. unfold shape_dims.
  rewrite (nth_indep _ 0 (dims_at s 0)) by (rewrite length_map, length_seq; exact Hi).
  rewrite map_nth. now rewrite seq_nth.
Qed.

Lemma shape_dims_wf (s : TRITONTF_Shape) : shape_wf s -> shape_dims s = dims_ s.
Proof.
  unfold shape_wf. intros Hwf. apply (nth_ext _ _ 0 0).
  - now rewrite shape_dims_length.
  - intros i Hi. rewrite shape_dims_length in Hi. now rewrite shape_dims_nth.
Qed.

Lemma compare_dims_loop_spec (ce : bool) (s : TRITONTF_Shape) (dims : list Z) (i : nat) :
  (i + length dims = rank_ s)%nat ->
  compare_dims_loop ce s i dims true = true <->
  Forall2 (dim_compatible ce) (skipn i (shape_dims s)) dims.
Proof.
  revert i. induction dims as [|d dims IH]; intros i Hlen; cbn [compare_dims_loop].
  - cbn in Hlen. rewrite skipn_all2 by (rewrite shape_dims_length; lia).
    split; [ constructor | reflexivity ].
  - cbn in Hlen. rewrite skipn_nth_cons by (rewrite shape_dims_length; lia).
    rewrite shape_dims_nth by lia.
    rewrite List.Forall2_cons_iff, dim_compatible_decide.
    destruct (ce || negb (dims_at s i =? WILDCARD_DIM)).
    + cbn [andb]. destruct (dims_at s i =? d).
      * rewrite IH by lia. tauto.
      * rewrite compare_dims_loop_false. split; [ discriminate | intros [H _]; discriminate H ].
    + rewrite IH by lia. tauto.
Qed.

(** C5.  [CompareDims] succeeds (returns nullptr) with batching exactly
    when the model shape has rank at least 1, a wildcard first dimension,
    the rank of the configured dims with a wildcard prepended, and every
    dimension compatible with it (equal under an exact comparison; under
    a lenient one a model wildcard accepts any configured size and a fixed
    model dimension must be equal); without batching exactly when the
    ranks are equal and every dimension is compatible.  Every failure is
    an INVALID_ARG error whose message names the model and the tensor. *)
Theorem CompareDims_correct :
  forall (model_name tensor_name : string) (model_shape : TRITONTF_Shape)
         (dims : list Z) (compare_exact : bool),
    (CompareDims model_name tensor_name model_shape dims true compare_exact = None <->
       (1 <= rank_ model_shape)%nat
       /\ dims_at model_shape 0 = WILDCARD_DIM
       /\ rank_ model_shape = length (WILDCARD_DIM :: dims)
       /\ Forall2 (dim_compatible compare_exact) (shape_dims model_shape)
                  (WILDCARD_DIM :: dims))
    /\ (CompareDims model_name tensor_name model_shape dims false compare_exact = None <->
       rank_ model_shape = length dims
       /\ Forall2 (dim_compatible compare_exact) (shape_dims model_shape) dims)
    /\ (forall (supports_batching : bool) (e : TRITONSERVER_Error),
          CompareDims model_name tensor_name model_shape dims supports_batching
            compare_exact = Some e ->
          err_code e = TRITONSERVER_ERROR_INVALID_ARG
          /\ exists detail : string,
               err_msg e = "model '" +:+ model_name +:+ "', tensor '" +:+
                           tensor_name +:+ "': " +:+ detail).
Proof.
  intros mn tn s dims ce.
  split; [ | split ].
  - unfold CompareDims.
    destruct (Nat.eqb_spec (rank_ s) 0) as [Hr0|Hr0]; cbn [orb].
    { split; [ discriminate | intros (H & _); lia ]. }
    destruct (Z.eqb_spec (dims_at s 0) WILDCARD_DIM) as [Hd|Hd]; cbn [negb].
    2:{ split; [ discriminate | intros (_ & H & _); contradiction ]. }
    cbv zeta.
    destruct (Nat.eqb_spec (rank_ s) (length (WILDCARD_DIM :: dims))) as [Hr|Hr].
    + pose proof (compare_dims_loop_spec ce s (WILDCARD_DIM :: dims) 0) as Hl.
      cbn [skipn] in Hl. rewrite <- Hr in Hl. specialize (Hl eq_refl).
      destruct (compare_dims_loop ce s 0 (WILDCARD_DIM :: dims) true) eqn:E; cbn [negb].
      * split; [ intros _ | reflexivity ].
        repeat split; [ lia | exact Hd | exact Hr | apply Hl; reflexivity ].
      * split; [ discriminate | ]. intros (_ & _ & _ & HF). apply Hl in HF. discriminate HF.
    + cbn [negb]. split; [ discriminate | intros (_ & _ & H & _); contradiction ].
  - unfold CompareDims. cbv zeta.
    destruct (Nat.eqb_spec (rank_ s) (length dims)) as [Hr|Hr].
    + pose proof (compare_dims_loop_spec ce s dims 0) as Hl.
      cbn [skipn] in Hl. rewrite <- Hr in Hl. specialize (Hl eq_refl).
      destruct (compare_dims_loop ce s 0 dims true) eqn:E; cbn [negb].
      * split; [ intros _ | reflexivity ]. split; [ exact Hr | apply Hl; reflexivity ].
      * split; [ discriminate | ]. intros (_ & HF). apply Hl in HF. discriminate HF.
    + cbn [negb]. split; [ discriminate | intros (H & _); contradiction ].
  - intros sb e. unfold CompareDims.
    destruct sb.
    + destruct (Nat.eqb (rank_ s) 0 || negb (dims_at s 0 =? WILDCARD_DIM)).
      * intros [= <-]. split; [ reflexivity | ]. cbn [err_msg]. eexists. reflexivity.
      * cbv zeta. match goal with |- (if negb ?b then _ else _) = _ -> _ => destruct b end;
          cbn [negb]; [ discriminate | ].
        intros [= <-]. split; [ reflexivity | ]. cbn [err_msg]. eexists. reflexivity.
    + cbv zeta. match goal with |- (if negb ?b then _ else _) = _ -> _ => destruct b end;
        cbn [negb]; [ discriminate | ].
      intros [= <-]. split; [ reflexivity | ]. cbn [err_msg]. eexists. reflexivity.
Qed.

Lemma CompareDims_correct_witness :
  CompareDims "m" "t" (mkShape 3 [-1; -1; 3]) [7; 3] true false = None <->
    (1 <= 3)%nat
    /\ dims_at (mkShape 3 [-1; -1; 3]) 0 = WILDCARD_DIM
    /\ 3%nat = length (WILDCARD_DIM :: [7; 3])
    /\ Forall2 (dim_compatible false) [-1; -1; 3] (WILDCARD_DIM :: [7; 3]).
Proof.
  exact (proj1 (CompareDims_correct "m" "t" (mkShape 3 [-1; -1; 3]) [7; 3] false)).
Defined.

(* ----------------------------------------------------------------- *)
(** ** The string codec *)

Example string_roundtrip_example :
  let strs := [ ["a"; "b"]%byte; []; ["c"]%byte ] in
  sis_tensor (fst (SetStringInputTensor true [[]; []; []]
    (mkInput "IN" TRITONSERVER_TYPE_BYTES [3] None
       (inr (serialize_strings strs 3 0)) false) "IN" 3 0 (Some 0%nat)))
  = strs.
Proof. reflexivity. Qed.

Lemma fold_left_app_flat_map {A B : Type} (g : A -> list B) (l : list A) (acc : list B) :
  fold_left (fun acc e => acc ++ g e) l acc = acc ++ flat_map g l.
Proof.
  revert acc. induction l as [|x l IH]; intros acc; cbn.
  - now rewrite app_nil_r.
  - rewrite IH. now rewrite <- app_assoc.
Qed.

Lemma fold_left_pointwise {A B : Type} (f g : A -> B -> A) (l : list B) (acc : A) :
  (forall a b, f a b = g a b) -> fold_left f l acc = fold_left g l acc.
Proof.
  intros H. revert acc. induction l as [|x l IH]; intros acc; cbn; [ reflexivity | ].
  now rewrite H, IH.
Qed.

Lemma map_nth_seq_middle {A : Type} (d : A) (pre mid post : list A) :
  map (fun e => nth (length pre + e) (pre ++ mid ++ post) d) (seq 0 (length mid)) = mid.
Proof.
  revert pre. induction mid as [|x mid IH]; intros pre; [ reflexivity | ].
  cbn [length seq map]. f_equal.
  - rewrite Nat.add_0_r. rewrite app_nth2 by lia. now rewrite Nat.sub_diag.
  - rewrite <- seq_shift, map_map.
    specialize (IH (pre ++ [x])). rewrite <- app_assoc in IH. cbn [app] in IH.
    rewrite <- IH at 2. apply map_ext. intros e.
    rewrite length_app. cbn [length]. f_equal. lia.
Qed.

(** The serialisation loop produces the length-prefixed encoding of the
    elements it is asked for. *)
Lemma serialize_strings_encode (pre strs post : TRITONTF_Tensor) :
  serialize_strings (pre ++ strs ++ post) (length strs) (length pre)
  = encode_strings strs.
Proof.
  unfold serialize_strings, encode_strings.
  rewrite (fold_left_pointwise _
    (fun acc e => acc ++ encode_string
       (TRITONTF_TensorString (pre ++ strs ++ post) (length pre + e)))).
  - rewrite fold_left_app_flat_map. cbn [app].
    rewrite flat_map_concat_map, <- (map_map _ encode_string), <- flat_map_concat_map.
    unfold TRITONTF_TensorString. now rewrite map_nth_seq_middle.
  - intros acc e. unfold encode_string. cbv zeta.
    rewrite firstn_all. rewrite <- app_assoc.
    destruct (TRITONTF_TensorString (pre ++ strs ++ post) (length pre + e)) as [|b cstr];
      cbn [length Nat.ltb Nat.leb]; [ now rewrite !app_nil_r | reflexivity ].
Qed.

Lemma read_uint32_encode (s rest : list byte) :
  Z.of_nat (length s) < 2 ^ 32 ->
  read_uint32 (encode_string s ++ rest) = length s.
Proof.
  intros Hlt. unfold read_uint32, encode_string.
  rewrite <- app_assoc, firstn_app.
  rewrite length_le_split, Nat.sub_diag, firstn_O, app_nil_r.
  rewrite firstn_all2 by (rewrite length_le_split; lia).
  rewrite le_combine_split. change (Z.of_nat 4 * 8) with 32.
  rewrite Z.mod_small by lia. apply Nat2Z.id.
Qed.

Lemma skipn_4_encode (s rest : list byte) :
  skipn 4 (encode_string s ++ rest) = s ++ rest.
Proof.
  unfold encode_string. rewrite <- app_assoc.
  rewrite skipn_app, length_le_split, Nat.sub_diag. cbn [skipn].
  rewrite skipn_all2 by (rewrite length_le_split; lia). reflexivity.
Qed.

Lemma skipn_4_header (n : Z) (rest : list byte) :
  skipn 4 (le_split 4 n ++ rest) = rest.
Proof.
  rewrite skipn_app, length_le_split, Nat.sub_diag. cbn [skipn].
  rewrite skipn_all2 by (rewrite length_le_split; lia). reflexivity.
Qed.

Lemma length_encode_string (s : list byte) :
  length (encode_string s) = (4 + length s)%nat.
Proof. unfold encode_string. now rewrite length_app, length_le_split. Qed.

(** The loop never runs out of fuel: with at least [length content] units
    the result exists, and it does not depend on the amount. *)
Lemma string_input_loop_fuel (fuel fuel' : nat) (name : string) (cnt off : nat) :
  forall (content : list byte) (idx : nat) (st : StringInputState),
    (fuel' <= fuel)%nat ->
    (length content < 4 \/ length content <= fuel' + 3)%nat ->
    string_input_loop fuel name cnt off content idx st
    = string_input_loop fuel' name cnt off content idx st.
Proof.
  revert fuel'. induction fuel as [|fuel IH]; intros fuel' content idx st Hle Hlen.
  - assert (fuel' = 0%nat) as -> by lia. reflexivity.
  - destruct fuel' as [|fuel'].
    + cbn [string_input_loop].
      destruct (Nat.ltb_spec (length content) 4) as [_|Hc]; [ reflexivity | lia ].
    + cbn [string_input_loop].
      destruct (length content <? 4)%nat eqn:E4; [ reflexivity | ].
      apply Nat.ltb_ge in E4.
      destruct (cnt <=? idx)%nat; [ reflexivity | ].
      destruct (length (skipn 4 content) <? read_uint32 content)%nat; [ reflexivity | ].
      apply IH; [ lia | ].
      rewrite !length_skipn. lia.
Qed.

Lemma string_input_loop_terminates (name : string) (cnt off : nat)
    (content : list byte) (idx : nat) (st : StringInputState) :
  string_input_loop (length content) name cnt off content idx st <> None.
Proof.
  remember (length content) as fuel eqn:Hf.
  assert (Hle : (length content <= fuel)%nat) by lia. clear Hf.
  revert content idx st Hle. induction fuel as [|fuel IH]; intros content idx st Hle.
  - cbn [string_input_loop].
    destruct (Nat.ltb_spec (length content) 4) as [_|Hc]; [ discriminate | lia ].
  - cbn [string_input_loop].
    destruct (length content <? 4)%nat eqn:E4; [ discriminate | ].
    apply Nat.ltb_ge in E4.
    destruct (cnt <=? idx)%nat; [ discriminate | ].
    destruct (length (skipn 4 content) <? read_uint32 content)%nat; [ discriminate | ].
    apply IH. rewrite !length_skipn. lia.
Qed.

Lemma read_uint32_header (n : Z) (rest : list byte) :
  read_uint32 (le_split 4 n ++ rest) = Z.to_nat (n mod 2 ^ 32).
Proof.
  unfold read_uint32.
  rewrite firstn_app, length_le_split, Nat.sub_diag, firstn_O, app_nil_r.
  rewrite firstn_all2 by (rewrite length_le_split; lia).
  now rewrite le_combine_split.
Qed.

(** Decoding a payload that starts with the encoding of [strs]: as long as
    the declared count is not exceeded every element lands in its slot and
    the loop goes on with the rest of the payload; the response slot and
    the trace are not touched. *)
Lemma string_input_loop_prefix (name : string) (cnt off : nat) :
  forall (strs : list (list byte)) (rest : list byte) (fuel idx : nat)
         (A mid B : list (list byte)) (resp : option Response) (tr : list Event),
    Forall (fun s => Z.of_nat (length s) < 2 ^ 32) strs ->
    (idx + length strs <= cnt)%nat ->
    length mid = length strs ->
    length A = (off + idx)%nat ->
    string_input_loop (fuel + length strs) name cnt off
      (encode_strings strs ++ rest) idx (mkSIS (A ++ mid ++ B) resp tr)
    = string_input_loop fuel name cnt off rest (idx + length strs)
        (mkSIS (A ++ strs ++ B) resp tr).
Proof.
  induction strs as [|s strs IH]; intros rest fuel idx A mid B resp tr Hlt Hcnt Hmid HA.
  - destruct mid; [ | discriminate Hmid ]. cbn [encode_strings flat_map app length].
    now rewrite !Nat.add_0_r.
  - destruct mid as [|d mid]; [ discriminate Hmid | ].
    apply List.Forall_cons_iff in Hlt as [Hs Hlt].
    cbn [encode_strings flat_map] in *. fold (encode_strings strs) in *.
    rewrite <- app_assoc.
    replace (fuel + length (s :: strs))%nat with (S (fuel + length strs))%nat
      by (cbn [length]; lia).
    cbn [string_input_loop length] in *.
    destruct (Nat.ltb_spec (length (encode_string s ++ encode_strings strs ++ rest)) 4) as [Hc|_].
    { rewrite length_app, length_encode_string in Hc. lia. }
    destruct (Nat.leb_spec cnt idx); [ lia | ].
    rewrite read_uint32_encode by exact Hs.
    rewrite skipn_4_encode.
    destruct (Nat.ltb_spec (length (s ++ encode_strings strs ++ rest)) (length s)) as [Hc|_].
    { rewrite length_app in Hc. lia. }
    cbn [sis_tensor sis_response sis_trace].
    rewrite skipn_app, skipn_all, Nat.sub_diag. cbn [skipn app].
    unfold TRITONTF_TensorSetString.
    rewrite firstn_app, firstn_all, Nat.sub_diag, firstn_O, app_nil_r.
    replace (off + idx)%nat with (length A + 0)%nat by lia.
    rewrite insert_app_r. cbn [app]. cbn [insert list_insert].
    rewrite ?skipn_O.
    specialize (IH rest fuel (S idx) (A ++ [s]) mid B resp tr Hlt).
    rewrite <- !app_assoc in IH. cbn [app] in IH.
    replace (idx + S (length strs))%nat with (S idx + length strs)%nat by lia.
    rewrite IH.
    + reflexivity.
    + lia.
    + now injection Hmid.
    + rewrite length_app. cbn [length]. lia.
Qed.

Lemma string_input_loop_mono (name : string) (cnt off : nat) :
  forall (fuel' fuel : nat) (content : list byte) (idx : nat)
         (st : StringInputState) (r : StringInputState * nat * bool),
    (fuel' <= fuel)%nat ->
    string_input_loop fuel' name cnt off content idx st = Some r ->
    string_input_loop fuel name cnt off content idx st = Some r.
Proof.
  induction fuel' as [|fuel' IH]; intros fuel content idx st r Hle.
  - cbn [string_input_loop].
    destruct (length content <? 4)%nat eqn:E4; [ | discriminate ].
    intros <-. destruct fuel; cbn [string_input_loop]; now rewrite E4.
  - destruct fuel as [|fuel]; [ lia | ].
    cbn [string_input_loop].
    destruct (length content <? 4)%nat; [ trivial | ].
    destruct (cnt <=? idx)%nat; [ trivial | ].
    destruct (length (skipn 4 content) <? read_uint32 content)%nat; [ trivial | ].
    apply IH. lia.
Qed.

Lemma length_encode_strings_ge (strs : list (list byte)) :
  (length strs <= length (encode_strings strs))%nat.
Proof.
  induction strs as [|s strs IH]; cbn [encode_strings flat_map length]; [ lia | ].
  fold (encode_strings strs). rewrite length_app, length_encode_string. lia.
Qed.

(** The prefix lemma with the fuel the function really uses. *)
Lemma string_input_loop_prefix_full (name : string) (cnt off : nat)
    (strs : list (list byte)) (rest : list byte) (idx : nat)
    (A mid B : list (list byte)) (resp : option Response) (tr : list Event) :
  Forall (fun s => Z.of_nat (length s) < 2 ^ 32) strs ->
  (idx + length strs <= cnt)%nat ->
  length mid = length strs ->
  length A = (off + idx)%nat ->
  string_input_loop (length (encode_strings strs ++ rest)) name cnt off
    (encode_strings strs ++ rest) idx (mkSIS (A ++ mid ++ B) resp tr)
  = string_input_loop (length rest) name cnt off rest (idx + length strs)
      (mkSIS (A ++ strs ++ B) resp tr).
Proof.
  intros Hlt Hcnt Hmid HA.
  destruct (string_input_loop (length rest) name cnt off rest (idx + length strs)
              (mkSIS (A ++ strs ++ B) resp tr)) as [r|] eqn:E.
  - apply (string_input_loop_mono name cnt off (length rest + length strs)).
    + rewrite length_app. pose proof (length_encode_strings_ge strs). lia.
    + rewrite (string_input_loop_prefix name cnt off strs rest (length rest) idx A mid B)
        by assumption.
      exact E.
  - exfalso. exact (string_input_loop_terminates _ _ _ _ _ _ E).
Qed.

Lemma FillStringTensor_middle (A mid B : list (list byte)) :
  FillStringTensor (A ++ mid ++ B) (length A) (length mid)
  = A ++ repeat [] (length mid) ++ B.
Proof.
  unfold FillStringTensor.
  enough (forall (done mid : list (list byte)) (k : nat),
    k = length done ->
    fold_left (fun t c => TRITONTF_TensorSetString t (length A + c) [] 0)
      (seq k (length mid)) (A ++ done ++ mid ++ B)
    = A ++ done ++ repeat [] (length mid) ++ B) as H
    by exact (H [] mid 0%nat eq_refl).
  clear mid. intros done mid. revert done.
  induction mid as [|d mid IH]; intros done k Hk; [ reflexivity | ].
  cbn [length seq fold_left repeat].
  unfold TRITONTF_TensorSetString at 2. cbn [firstn].
  rewrite insert_app_r. subst k.
  replace (length done) with (length done + 0)%nat by lia.
  rewrite insert_app_r. cbn [app insert list_insert].
  specialize (IH (done ++ [[]]) (S (length done))).
  rewrite <- !app_assoc in IH. cbn [app] in IH.
  rewrite Nat.add_0_r.
  rewrite IH; [ reflexivity | rewrite length_app; cbn [length]; lia ].
Qed.

Lemma string_input_loop_short (fuel : nat) (name : string) (cnt off : nat)
    (tail : list byte) (idx : nat) (st : StringInputState) :
  (length tail < 4)%nat ->
  string_input_loop fuel name cnt off tail idx st = Some (st, idx, false).
Proof.
  intros H. destruct fuel; cbn [string_input_loop];
    (destruct (Nat.ltb_spec (length tail) 4); [ reflexivity | lia ]).
Qed.

Lemma split_span {A : Type} (mid : list A) (k : nat) :
  (k <= length mid)%nat ->
  exists mid1 mid2, mid = mid1 ++ mid2 /\ length mid1 = k
                    /\ length mid2 = (length mid - k)%nat.
Proof.
  intros H. exists (firstn k mid), (skipn k mid).
  rewrite firstn_skipn, length_firstn, length_skipn. repeat split; lia.
Qed.

(** What one call of [SetStringInputTensor] does with a payload of each
    kind, when the response is still there in the cases at fault. *)
Lemma SetStringInputTensor_outcome (gpu : bool) (name : string) (cnt : nat)
    (content : list byte) (stored : list (list byte)) (failed : bool)
    (input : TRITONBACKEND_Input) (A mid B : list (list byte))
    (resp : option Response) :
  payload_outcome cnt content stored failed ->
  in_content input = inr content ->
  length mid = cnt ->
  (failed = true -> resp <> None) ->
  exists evs,
    SetStringInputTensor gpu (A ++ mid ++ B) input name cnt (length A) resp
    = (mkSIS (A ++ stored ++ B) (if failed then None else resp) evs,
       if gpu then false else in_cuda_copy input)
    /\ (if failed
        then exists r e, resp = Some r /\ evs = [EvResponseSend r (Some e)]
        else evs = []).
Proof.
  intros Hout Hcontent Hmid Hlive.
  unfold SetStringInputTensor. rewrite Hcontent.
  destruct Hout as [strs tail -> Htail Hn Hlt | strs n rest -> Hn Hrest Hlen Hlt
                   | strs rest -> Hrest Hn Hlt | strs tail -> Htail Hlen Hlt].
  - (* complete *)
    rewrite (string_input_loop_prefix_full name cnt (length A) strs tail 0 A mid B)
      by (try assumption; lia).
    rewrite string_input_loop_short by assumption.
    cbn [sis_response Nat.add]. rewrite Hn, Nat.eqb_refl, andb_false_r.
    exists []. split; reflexivity.
  - (* truncated *)
    destruct resp as [r|]; [ | exfalso; now apply Hlive ].
    destruct (split_span mid (length strs)) as (mid1 & mid2 & -> & H1 & H2); [ lia | ].
    rewrite <- (app_assoc mid1 mid2 B).
    rewrite (string_input_loop_prefix_full name cnt (length A) strs
               (le_split 4 n ++ rest) 0 A mid1 (mid2 ++ B))
      by (try assumption; lia).
    rewrite (length_app (le_split 4 n)), length_le_split.
    cbn [Nat.add string_input_loop].
    destruct (Nat.ltb_spec (length (le_split 4 n ++ rest)) 4) as [Hc|_];
      [ rewrite length_app, length_le_split in Hc; lia | ].
    destruct (Nat.leb_spec cnt (length strs)); [ lia | ].
    rewrite read_uint32_header, Z.mod_small by lia.
    rewrite skipn_4_header.
    destruct (Nat.ltb_spec (length rest) (Z.to_nat n)); [ | lia ].
    unfold sis_respond, sis_fill.
    cbn [RESPOND_AND_SET_NULL_IF_ERROR sis_response sis_tensor sis_trace app].
    eexists. split; [ | exists r; eexists; split; reflexivity ].
    f_equal. f_equal.
    replace (length A + length strs)%nat with (length (A ++ strs))
      by (rewrite length_app; reflexivity).
    rewrite (app_assoc A strs (mid2 ++ B)).
    replace (cnt - length strs)%nat with (length mid2)
      by (rewrite length_app in *; lia).
    rewrite FillStringTensor_middle. now rewrite <- !app_assoc.
  - (* too many *)
    destruct resp as [r|]; [ | exfalso; now apply Hlive ].
    rewrite (string_input_loop_prefix_full name cnt (length A) strs rest 0 A mid B)
      by (try assumption; lia).
    destruct (length rest) as [|fuel] eqn:El; [ lia | ].
    cbn [Nat.add string_input_loop]. rewrite El.
    destruct (Nat.ltb_spec (S fuel) 4); [ lia | ].
    destruct (Nat.leb_spec cnt (length strs)); [ | lia ].
    unfold sis_respond, sis_fill.
    cbn [RESPOND_AND_SET_NULL_IF_ERROR sis_response sis_tensor sis_trace app].
    eexists. split; [ | exists r; eexists; split; reflexivity ].
    f_equal. f_equal. rewrite Hn, Nat.sub_diag. reflexivity.
  - (* too few *)
    destruct resp as [r|]; [ | exfalso; now apply Hlive ].
    destruct (split_span mid (length strs)) as (mid1 & mid2 & -> & H1 & H2); [ lia | ].
    rewrite <- (app_assoc mid1 mid2 B).
    rewrite (string_input_loop_prefix_full name cnt (length A) strs tail 0 A mid1 (mid2 ++ B))
      by (try assumption; lia).
    rewrite string_input_loop_short by assumption.
    cbn [sis_response Nat.add].
    rewrite bool_decide_eq_true_2 by discriminate.
    destruct (Nat.eqb_spec (length strs) cnt); [ lia | ]. cbn [negb andb].
    unfold sis_respond, sis_fill.
    cbn [RESPOND_AND_SET_NULL_IF_ERROR sis_response sis_tensor sis_trace app].
    eexists. split; [ | exists r; eexists; split; reflexivity ].
    f_equal. f_equal.
    replace (length A + length strs)%nat with (length (A ++ strs))
      by (rewrite length_app; reflexivity).
    rewrite (app_assoc A strs (mid2 ++ B)).
    replace (cnt - length strs)%nat with (length mid2)
      by (rewrite length_app in *; lia).
    rewrite FillStringTensor_middle. now rewrite <- !app_assoc.
Qed.

Lemma SetStringOutputBuffer_buffer (tensor : list (list byte))
    (response : option Response) (ob : option TRITONSERVER_Error)
    (cb : option TRITONSERVER_Error * bool) (cnt off : nat) (buffer : list byte) :
  fst (fst (fst (SetStringOutputBuffer tensor response ob cb cnt off))) = Some buffer ->
  buffer = serialize_strings tensor cnt off.
Proof.
  unfold SetStringOutputBuffer.
  destruct ob as [e|]; [ destruct response; discriminate | ].
  destruct cb as [[e|] cu]; [ destruct response; discriminate | ].
  cbn. now intros [= <-].
Qed.

(** C2 (as the code has it).  Strings shorter than 2^32 bytes, zero-length
    ones included, survive the round trip: what [SetStringOutputBuffer]
    writes for them, parsed by [SetStringInputTensor] with their number as
    the declared element count, puts exactly the original strings into the
    destination span, touches nothing else and fails no response. *)
Theorem string_roundtrip :
  forall (gpu : bool) (pre strs post dpre dmid dpost : list (list byte))
         (input : TRITONBACKEND_Input) (name : string)
         (response out_response : option Response)
         (ob : option TRITONSERVER_Error) (cb : option TRITONSERVER_Error * bool)
         (buffer : list byte),
    Forall (fun s => Z.of_nat (length s) < 2 ^ 32) strs ->
    length dmid = length strs ->
    fst (fst (fst (SetStringOutputBuffer (pre ++ strs ++ post) out_response ob cb
                     (length strs) (length pre)))) = Some buffer ->
    in_content input = inr buffer ->
    SetStringInputTensor gpu (dpre ++ dmid ++ dpost) input name (length strs)
      (length dpre) response
    = (mkSIS (dpre ++ strs ++ dpost) response [],
       if gpu then false else in_cuda_copy input).
Proof.
  intros gpu pre strs post dpre dmid dpost input name response out_response ob cb buffer
    Hlt Hmid Hbuf Hin.
  apply SetStringOutputBuffer_buffer in Hbuf.
  rewrite serialize_strings_encode in Hbuf. subst buffer.
  destruct (SetStringInputTensor_outcome gpu name (length strs) (encode_strings strs)
              strs false input dpre dmid dpost response) as (evs & Heq & Hevs).
  - apply (payload_complete _ _ strs []); [ now rewrite app_nil_r | cbn; lia | reflexivity | exact Hlt ].
  - exact Hin.
  - exact Hmid.
  - discriminate.
  - rewrite Heq, Hevs. reflexivity.
Qed.

Lemma string_roundtrip_witness :
  SetStringInputTensor true ([] ++ [[]; []; []] ++ [])
    (mkInput "IN" TRITONSERVER_TYPE_BYTES [3] None
       (inr (serialize_strings [ ["a"; "b"]%byte; []; ["c"]%byte ] 3 0)) false)
    "IN" 3 0 (Some 0%nat)
  = (mkSIS ([] ++ [ ["a"; "b"]%byte; []; ["c"]%byte ] ++ []) (Some 0%nat) [], false).
Proof.
  refine (string_roundtrip true [] [ ["a"; "b"]%byte; []; ["c"]%byte ] [] [] [[]; []; []] []
            (mkInput "IN" TRITONSERVER_TYPE_BYTES [3] None
               (inr (serialize_strings [ ["a"; "b"]%byte; []; ["c"]%byte ] 3 0)) false)
            "IN" (Some 0%nat) (Some 0%nat) None (None, false)
            (serialize_strings [ ["a"; "b"]%byte; []; ["c"]%byte ] 3 0) _ _ _ _).
  - repeat constructor; cbn; lia.
  - reflexivity.
  - reflexivity.
  - reflexivity.
Defined.

(** A string whose length is a multiple of 2^32 is written with a zero
    header: the parser stores an empty string and then takes the bytes of
    the string for further elements. *)
Lemma overlong_string_decoded_empty (gpu : bool) (n : nat) (name : string)
    (response : option Response) :
  (4 <= n)%nat ->
  Z.of_nat n mod 2 ^ 32 = 0 ->
  sis_tensor (fst (SetStringInputTensor gpu [[]]
    (mkInput name TRITONSERVER_TYPE_BYTES [1] None
       (inr (encode_strings [repeat "000"%byte n])) false) name 1 0 response))
  = [[]].
Proof.
  intros Hn Hmod. unfold SetStringInputTensor. cbn [in_content in_cuda_copy].
  cbn [encode_strings flat_map]. rewrite app_nil_r. unfold encode_string.
  rewrite repeat_length.
  set (s := repeat "000"%byte n).
  assert (Hs : length s = n) by apply repeat_length.
  rewrite length_app, length_le_split.
  assert (H4 : forall l : list byte, (4 <= length l)%nat -> (length l <? 4)%nat = false)
    by (intros l Hl; apply Nat.ltb_ge; exact Hl).
  destruct n as [|n']; [ lia | ].
  replace (4 + length s)%nat with (S (S (3 + n'))) by lia.
  cbn [string_input_loop].
  rewrite H4 by (rewrite length_app, length_le_split; lia).
  cbn [Nat.leb].
  rewrite read_uint32_header, Hmod, skipn_4_header.
  change (Z.to_nat 0) with 0%nat.
  rewrite (proj2 (Nat.ltb_ge (length s) 0)) by lia.
  rewrite skipn_O, H4 by lia.
  cbn [Nat.leb firstn sis_tensor sis_response sis_trace].
  unfold sis_respond, sis_fill. destruct response; reflexivity.
Qed.

(** C2, the claim as stated fails, with or without GPU support: a string
    of 2^32 bytes does not survive the round trip. *)
Lemma string_roundtrip_counterexample :
  ~ (exists gpu : bool,
       forall (strs dst : list (list byte)) (input : TRITONBACKEND_Input)
              (name : string) (response : option Response) (buffer : list byte),
         length dst = length strs ->
         fst (fst (fst (SetStringOutputBuffer strs (Some 0%nat) None (None, false)
                          (length strs) 0))) = Some buffer ->
         in_content input = inr buffer ->
         sis_tensor (fst (SetStringInputTensor gpu dst input name (length strs) 0
                            response))
         = strs).
Proof.
  intros (gpu & H).
  set (n := Z.to_nat (2 ^ 32)).
  assert (Hn : Z.of_nat n = 2 ^ 32) by (unfold n; rewrite Z2Nat.id; lia).
  clearbody n.
  specialize (H [repeat "000"%byte n] [[]]
                (mkInput "IN" TRITONSERVER_TYPE_BYTES [1] None
                   (inr (encode_strings [repeat "000"%byte n])) false)
                "IN"%string (Some 0%nat) (encode_strings [repeat "000"%byte n]) eq_refl).
  cbn [length in_content] in H.
  rewrite overlong_string_decoded_empty in H.
  - assert (Hlen : length (@nil byte) = length (repeat "000"%byte n)).
    { enough ([@nil byte] = [repeat "000"%byte n]) as E by (now injection E as ->).
      apply H; [ | reflexivity ].
      pose proof (serialize_strings_encode [] [repeat "000"%byte n] []) as E.
      cbn [app length] in E. unfold SetStringOutputBuffer. cbn [fst].
      now rewrite E. }
    rewrite repeat_length in Hlen. cbn in Hlen. lia.
  - lia.
  - rewrite Hn. apply Z.mod_same. lia.
Qed.

Lemma insert_at_length {A : Type} (l1 l2 : list A) (x y : A) :
  <[length l1 := x]> (l1 ++ y :: l2) = l1 ++ x :: l2.
Proof.
  replace (length l1) with (length l1 + 0)%nat by lia.
  now rewrite insert_app_r.
Qed.





Lemma payload_parse (cnt : nat) :
  forall content : list byte,
  exists (strs : list (list byte)) (rest : list byte),
    content = encode_strings strs ++ rest
    /\ Forall (fun s => Z.of_nat (length s) < 2 ^ 32) strs
    /\ (length strs <= cnt)%nat
    /\ ((length rest < 4)%nat
        \/ ((4 <= length rest)%nat /\ length strs = cnt)
        \/ ((length strs < cnt)%nat
            /\ exists (n : Z) (rest' : list byte),
                 rest = le_split 4 n ++ rest' /\ 0 <= n < 2 ^ 32
                 /\ Z.of_nat (length rest') < n)).
Proof.
  induction cnt as [|cnt IH]; intros content.
  - exists [], content. cbn. repeat split; [ constructor | lia | ].
    destruct (Nat.lt_ge_cases (length content) 4); [ now left | right; left; now split ].
  - destruct (Nat.lt_ge_cases (length content) 4) as [Hshort|Hlong].
    { exists [], content. cbn. repeat split; [ constructor | lia | now left ]. }
    set (n := le_combine (firstn 4 content)).
    assert (Hhead : content = le_split 4 n ++ skipn 4 content).
    { rewrite <- (firstn_skipn 4 content) at 1. f_equal. unfold n.
      rewrite <- (split_le_combine (firstn 4 content)) at 1.
      now rewrite length_firstn, Nat.min_l by lia. }
    assert (Hn : 0 <= n < 2 ^ 32).
    { pose proof (le_combine_bound (firstn 4 content)) as Hb.
      rewrite length_firstn, Nat.min_l in Hb by lia. exact Hb. }
    destruct (Z.lt_ge_cases (Z.of_nat (length (skipn 4 content))) n) as [Hcut|Hfits].
    { exists [], content. cbn [encode_strings flat_map app length].
      repeat split; [ constructor | lia | ].
      right; right. split; [ lia | ]. exists n, (skipn 4 content). now repeat split. }
    destruct (IH (skipn (Z.to_nat n) (skipn 4 content)))
      as (strs & rest & Hc & Hlt & Hlen & Hkind).
    set (s := firstn (Z.to_nat n) (skipn 4 content)).
    assert (Hs : Z.of_nat (length s) = n).
    { unfold s. rewrite length_firstn, Nat.min_l by lia. lia. }
    exists (s :: strs), rest. repeat split.
    + change (encode_strings (s :: strs)) with (encode_string s ++ encode_strings strs).
      unfold encode_string. rewrite Hs, <- !app_assoc, <- Hc.
      unfold s. rewrite firstn_skipn. exact Hhead.
    + constructor; [ lia | exact Hlt ].
    + cbn [length]. lia.
    + cbn [length].
      destruct Hkind as [H|[(H1 & H2)|(H1 & H2)]];
        [ now left | right; left; split; [ exact H1 | now f_equal ]
        | right; right; split; [ lia | exact H2 ] ].
Qed.

(** Every content is of one of the kinds of [span_outcome], whatever the
    response slot and the span hold. *)
Lemma span_outcome_total (cnt : nat) (content : TRITONSERVER_Error + list byte)
    (resp : option Response) (old : list (list byte)) :
  exists (stored : list (list byte)) (failed : bool),
    span_outcome cnt content resp old stored failed.
Proof.
  destruct content as [err|content].
  { eexists _, true. now apply (span_unreadable _ _ _ _ err). }
  destruct (payload_parse cnt content) as (strs & rest & Hc & Hlt & Hlen & Hkind).
  destruct Hkind as [Hshort|[(Hlong & Hn)|(Hfew & n & rest' & -> & Hn & Hcut)]].
  - destruct (Nat.eq_dec (length strs) cnt) as [Heq|Hne].
    + exists strs, false. apply (span_complete _ _ _ _ strs rest); now subst.
    + destruct resp as [r|].
      * eexists _, true. apply (span_too_few _ _ _ _ strs rest); try assumption;
          [ now subst | lia | discriminate ].
      * eexists _, true. apply (span_too_few_unanswered _ _ _ _ strs rest);
          try assumption; [ now subst | lia | reflexivity ].
  - exists strs, true. apply (span_too_many _ _ _ _ strs rest); now subst.
  - eexists _, true. apply (span_truncated _ _ _ _ strs n rest'); now subst.
Qed.




(* ----------------------------------------------------------------- *)
(** ** The total batch size and its limit *)

Example scenario_C_trace :
  pr_trace (ProcessRequests (plain_env 8)
              [Some (plain_request 2 true); Some (plain_request 2 true)])
  = [ EvModelRun ["OUT"%string];
      EvResponseSend 0%nat None; EvResponseSend 1%nat None;
      EvReportStatistics 0 true; EvRequestRelease 0;
      EvReportStatistics 1 true; EvRequestRelease 1 ].
Proof. vm_compute. reflexivity. Qed.






(* ----------------------------------------------------------------- *)
(** ** Responses are finalised at most once *)

Lemma finalisations_app (r : nat) (a b : list Event) :
  finalisations r (a ++ b) = (finalisations r a + finalisations r b)%nat.
Proof.
  induction a as [|e a IH]; [ reflexivity | ].
  destruct e; cbn [app finalisations]; rewrite IH; lia.
Qed.

Lemma nth_insert_same {A : Type} (l : list A) (i : nat) (x d : A) :
  (i < length l)%nat -> nth i (<[i := x]> l) d = x.
Proof.
  revert i. induction l as [|y l IH]; intros i Hi; cbn in Hi; [ lia | ].
  destruct i; [ reflexivity | ]. cbn. apply IH. lia.
Qed.

Lemma nth_insert_other {A : Type} (l : list A) (i j : nat) (x d : A) :
  i <> j -> nth j (<[i := x]> l) d = nth j l d.
Proof.
  revert i j. induction l as [|y l IH]; intros i j Hij; [ reflexivity | ].
  destruct i, j; try reflexivity; try congruence. cbn. apply IH. congruence.
Qed.

Lemma insert_nth_same {A : Type} (l : list A) (i : nat) (d : A) :
  <[i := nth i l d]> l = l.
Proof.
  revert i. induction l as [|y l IH]; intros i; [ reflexivity | ].
  destruct i; [ reflexivity | ]. cbn. f_equal. apply IH.
Qed.

(** One [RESPOND_AND_SET_NULL_IF_ERROR] on a slot keeps the invariant. *)
Lemma slots_inv_respond (created : nat -> bool) (n : nat)
    (responses : list (option Response)) (tr : list Event)
    (idx : nat) (x : option TRITONSERVER_Error) :
  slots_inv created n responses tr ->
  slots_inv created n
    (<[idx := fst (RESPOND_AND_SET_NULL_IF_ERROR (nth idx responses None) x)]> responses)
    (tr ++ snd (RESPOND_AND_SET_NULL_IF_ERROR (nth idx responses None) x)).
Proof.
  intros [Hlen Hinv].
  destruct x as [e|]; cbn [RESPOND_AND_SET_NULL_IF_ERROR fst snd].
  2:{ rewrite insert_nth_same, app_nil_r. split; assumption. }
  destruct (nth idx responses None) as [r0|] eqn:Hnth; cbn [fst snd].
  2:{ rewrite <- Hnth, insert_nth_same, app_nil_r. split; assumption. }
  assert (Hidx : (idx < n)%nat).
  { destruct (Nat.lt_ge_cases idx n) as [H|H]; [ exact H | ].
    rewrite nth_overflow in Hnth by lia. discriminate. }
  destruct (proj1 (Hinv idx) Hidx) as [(Hr & Hc & Hf)|(Hr & _)]; [ | congruence ].
  assert (r0 = idx) by congruence. subst r0.
  split; [ now rewrite length_insert | ].
  intros r. rewrite finalisations_app. cbn [finalisations].
  destruct (Nat.eqb_spec idx r) as [<-|Hne].
  - split; [ intros _ | lia ]. right.
    rewrite nth_insert_same by lia. rewrite Hf, Hc. split; [ reflexivity | lia ].
  - rewrite nth_insert_other by exact Hne. rewrite !Nat.add_0_r. apply Hinv.
Qed.

(** Two [RESPOND_AND_SET_NULL_IF_ERROR] in a row on one slot amount to one. *)
Lemma RESPOND_compose (resp : option Response) (x1 x2 : option TRITONSERVER_Error) :
  exists x,
    RESPOND_AND_SET_NULL_IF_ERROR resp x
    = (fst (RESPOND_AND_SET_NULL_IF_ERROR
              (fst (RESPOND_AND_SET_NULL_IF_ERROR resp x1)) x2),
       snd (RESPOND_AND_SET_NULL_IF_ERROR resp x1)
       ++ snd (RESPOND_AND_SET_NULL_IF_ERROR
                 (fst (RESPOND_AND_SET_NULL_IF_ERROR resp x1)) x2)).
Proof.
  destruct x1 as [e1|].
  - exists (Some e1). destruct resp, x2; reflexivity.
  - exists x2. destruct resp, x2; reflexivity.
Qed.

Lemma string_input_loop_respond (name : string) (cnt off : nat) :
  forall (fuel : nat) (content : list byte) (idx : nat) (st st' : StringInputState)
         (idx' : nat) (early : bool),
    string_input_loop fuel name cnt off content idx st = Some (st', idx', early) ->
    if early
    then exists e,
           (sis_response st', sis_trace st')
           = (fst (RESPOND_AND_SET_NULL_IF_ERROR (sis_response st) (Some e)),
              sis_trace st ++ snd (RESPOND_AND_SET_NULL_IF_ERROR (sis_response st) (Some e)))
    else sis_response st' = sis_response st /\ sis_trace st' = sis_trace st.
Proof.
  induction fuel as [|fuel IH]; intros content idx st st' idx' early;
    cbn [string_input_loop].
  - destruct (length content <? 4)%nat; [ | discriminate ].
    intros [= <- <- <-]. split; reflexivity.
  - destruct (length content <? 4)%nat.
    { intros [= <- <- <-]. split; reflexivity. }
    destruct (cnt <=? idx)%nat.
    { intros [= <- <- <-]. eexists. unfold sis_fill, sis_respond.
      destruct (sis_response st); reflexivity. }
    destruct (length (skipn 4 content) <? read_uint32 content)%nat.
    { intros [= <- <- <-]. eexists. unfold sis_fill, sis_respond.
      destruct (sis_response st); reflexivity. }
    intros H. apply IH in H. exact H.
Qed.

(** As far as the response slot and the trace go, a call of
    [SetStringInputTensor] is one [RESPOND_AND_SET_NULL_IF_ERROR]. *)
Lemma SetStringInputTensor_respond (gpu : bool) (tensor : list (list byte))
    (input : TRITONBACKEND_Input) (name : string) (cnt off : nat)
    (resp : option Response) :
  exists x,
    (sis_response (fst (SetStringInputTensor gpu tensor input name cnt off resp)),
     sis_trace (fst (SetStringInputTensor gpu tensor input name cnt off resp)))
    = RESPOND_AND_SET_NULL_IF_ERROR resp x.
Proof.
  unfold SetStringInputTensor.
  destruct (in_content input) as [err|content].
  - exists (Some err). destruct resp; reflexivity.
  - destruct (string_input_loop (length content) name cnt off content 0
                (mkSIS tensor resp [])) as [[[st' idx'] early]|] eqn:E.
    + apply string_input_loop_respond in E. destruct early.
      * destruct E as (e & E). exists (Some e). cbn [fst]. rewrite E.
        cbn [sis_response sis_trace app]. destruct resp; reflexivity.
      * destruct E as (Hr & Ht). cbn [sis_response sis_trace] in Hr, Ht.
        destruct (bool_decide (sis_response st' <> None)
                  && negb (Nat.eqb idx' cnt)).
        -- eexists (Some _). unfold sis_fill, sis_respond. cbn [fst].
           rewrite Hr, Ht. destruct resp; reflexivity.
        -- exists None. cbn [fst]. rewrite Hr, Ht. destruct resp; reflexivity.
    + exists None. destruct resp; reflexivity.
Qed.

Section CycleInvariant.

Variable created : nat -> bool.
Variable n : nat.

Lemma cycle_ok_ret {A : Type} (a : A) : cycle_ok created n (cy_ret a).
Proof. intros st H. exact H. Qed.

Lemma cycle_ok_get : cycle_ok created n cy_get.
Proof. intros st H. exact H. Qed.

Lemma cycle_ok_bind {A B : Type} (m : Cycle A) (k : A -> Cycle B) :
  cycle_ok created n m -> (forall a, cycle_ok created n (k a)) ->
  cycle_ok created n (cy_bind m k).
Proof.
  intros Hm Hk st H. unfold cy_bind. specialize (Hm st H).
  destruct (m st) as [[a|] st']; [ exact (Hk a st' Hm) | exact Hm ].
Qed.

Lemma cycle_ok_for_each {X : Type} (body : nat -> X -> Cycle unit) :
  (forall idx x, cycle_ok created n (body idx x)) ->
  forall (l : list X) (idx : nat), cycle_ok created n (for_each body idx l).
Proof.
  intros Hbody l. induction l as [|x l IH]; intros idx; cbn [for_each].
  - apply cycle_ok_ret.
  - apply cycle_ok_bind; [ apply Hbody | intros _; apply IH ].
Qed.

(** A step that only touches the other fields of the state. *)
Lemma cycle_ok_frame {A : Type} (m : Cycle A) :
  (forall st, exists a st',
      m st = (Some a, st') /\ pr_responses st' = pr_responses st
      /\ pr_trace st' = pr_trace st) ->
  cycle_ok created n m.
Proof.
  intros Hm st H. destruct (Hm st) as (a & st' & -> & -> & ->). exact H.
Qed.

Lemma finalisations_neutral (r : nat) (tr : list Event) (e : Event) :
  neutral_event e -> finalisations r (tr ++ [e]) = finalisations r tr.
Proof.
  intros He. rewrite finalisations_app.
  destruct e; cbn in He |- *; try contradiction; lia.
Qed.

Lemma cycle_ok_emit (e : Event) : neutral_event e -> cycle_ok created n (emit e).
Proof.
  intros He st [Hlen Hinv]. cbn. split; [ exact Hlen | ].
  intros r. rewrite finalisations_neutral by exact He. apply Hinv.
Qed.

Lemma cycle_ok_respond (idx : nat) (x : option TRITONSERVER_Error) :
  cycle_ok created n (respond idx x).
Proof.
  intros st H. unfold respond.
  pose proof (slots_inv_respond created n _ _ idx x H) as H'.
  destruct (RESPOND_AND_SET_NULL_IF_ERROR (nth idx (pr_responses st) None) x)
    as [resp evs]. exact H'.
Qed.

Lemma cycle_ok_utility_call (request_count : nat)
    (errs : nat -> option TRITONSERVER_Error) :
  cycle_ok created n (utility_call request_count errs).
Proof. apply cycle_ok_for_each. intros idx _. apply cycle_ok_respond. Qed.

Lemma cycle_ok_RESPOND_ALL (request_count : nat) (x : option TRITONSERVER_Error) :
  cycle_ok created n (RESPOND_ALL_AND_SET_NULL_IF_ERROR request_count x).
Proof. apply cycle_ok_for_each. intros idx _. apply cycle_ok_respond. Qed.

Lemma cycle_ok_or_cuda_copy (b : bool) : cycle_ok created n (or_cuda_copy b).
Proof. apply cycle_ok_frame. intros st. eexists _, _. repeat split. Qed.

Lemma cycle_ok_add_input_tensor (t : InputTensor) :
  cycle_ok created n (add_input_tensor t).
Proof. apply cycle_ok_frame. intros st. eexists _, _. repeat split. Qed.

(** The string loop of a cycle. *)
Lemma string_request_step_inv (gpu : bool) (name : string) (st : InputLoopState) (idx : nat)
    (request : TRITONBACKEND_Request) :
  slots_inv created n (ils_responses st) (ils_trace st) ->
  slots_inv created n
    (ils_responses (string_request_step gpu name st idx request))
    (ils_trace (string_request_step gpu name st idx request)).
Proof.
  intros H. unfold string_request_step.
  set (ie := match TRITONBACKEND_RequestInput request name with
             | inr input => (input, None)
             | inl e => (unset_input e, Some e)
             end).
  destruct ie as [input err].
  set (r0 := nth idx (ils_responses st) None).
  destruct (RESPOND_compose r0 err (in_properties_err input)) as (x12 & H12).
  destruct (RESPOND_AND_SET_NULL_IF_ERROR r0 err) as [r1 evs1] eqn:E1.
  cbn [fst snd] in H12.
  destruct (RESPOND_AND_SET_NULL_IF_ERROR r1 (in_properties_err input))
    as [r2 evs2] eqn:E2.
  cbn [fst snd] in H12.
  destruct (SetStringInputTensor_respond gpu (ils_tensor st) input name
              (size_t_of_int64 (GetElementCount (in_shape input)))
              (ils_tensor_offset st) r2) as (x3 & H3).
  destruct (SetStringInputTensor gpu (ils_tensor st) input name
              (size_t_of_int64 (GetElementCount (in_shape input)))
              (ils_tensor_offset st) r2) as [sis cuda].
  cbn [fst] in H3. cbn [ils_responses ils_trace].
  destruct (RESPOND_compose r0 x12 x3) as (x & Hx).
  rewrite H12 in Hx. cbn [fst snd] in Hx. rewrite <- H3 in Hx. cbn [fst snd] in Hx.
  pose proof (slots_inv_respond created n _ _ idx x H) as H'.
  fold r0 in H'. rewrite Hx in H'. cbn [fst snd] in H'.
  now rewrite <- app_assoc in H'.
Qed.

Lemma string_inputs_loop_inv (gpu : bool) (name : string)
    (requests : list TRITONBACKEND_Request) :
  forall (idx : nat) (st : InputLoopState),
    slots_inv created n (ils_responses st) (ils_trace st) ->
    slots_inv created n
      (ils_responses (string_inputs_loop gpu name idx requests st))
      (ils_trace (string_inputs_loop gpu name idx requests st)).
Proof.
  induction requests as [|rq requests IH]; intros idx st H; [ exact H | ].
  cbn [string_inputs_loop]. apply IH. now apply string_request_step_inv.
Qed.

Lemma cycle_ok_fill_string_input (env : Env) (name : string)
    (requests : list TRITONBACKEND_Request) (tensor : list (list byte)) :
  cycle_ok created n (fill_string_input env name requests tensor).
Proof.
  intros st H. unfold fill_string_input. cbn [pr_responses pr_trace].
  apply (string_inputs_loop_inv (TRITON_ENABLE_GPU env) name requests 0
           (mkILS tensor (pr_responses st) (pr_trace st) (pr_cuda_copy st) 0)).
  exact H.
Qed.

End CycleInvariant.

Lemma cy_bind_eq {A B : Type} (m : Cycle A) (k : A -> Cycle B)
    (st st' : PRState) (a : A) :
  m st = (Some a, st') -> cy_bind m k st = k a st'.
Proof. intros H. unfold cy_bind. now rewrite H. Qed.

Ltac cycle_auto :=
  cbv zeta;
  repeat first
    [ apply cycle_ok_ret
    | apply cycle_ok_get
    | apply cycle_ok_respond
    | apply cycle_ok_utility_call
    | apply cycle_ok_RESPOND_ALL
    | apply cycle_ok_or_cuda_copy
    | apply cycle_ok_add_input_tensor
    | apply cycle_ok_fill_string_input
    | apply cycle_ok_emit; exact I
    | apply cycle_ok_bind; [ | intros ? ]
    | apply cycle_ok_for_each; intros ? ?
    | match goal with
      | |- cycle_ok _ _ (match ?x with _ => _ end) => destruct x
      end ].

Section CycleEnds.

Variable created : nat -> bool.
Variable n : nat.

Lemma slots_mid_of_inv (responses : list (option Response)) (tr : list Event) :
  slots_inv created n responses tr -> slots_mid created n 0 responses tr.
Proof.
  intros [Hlen Hinv]. split; [ exact Hlen | ]. intros r.
  split; [ lia | ]. split; [ intros _; apply Hinv | apply Hinv ].
Qed.

Lemma slots_final_of_mid (responses : list (option Response)) (tr : list Event) :
  slots_mid created n n responses tr -> slots_final created n tr.
Proof.
  intros [Hlen Hmid] r. destruct (Nat.ltb_spec r n) as [Hr|Hr]; cbn [andb].
  - now apply Hmid.
  - now apply Hmid.
Qed.

Lemma slots_mid_neutral (k : nat) (responses : list (option Response))
    (tr : list Event) (e : Event) :
  neutral_event e ->
  slots_mid created n k responses tr -> slots_mid created n k responses (tr ++ [e]).
Proof.
  intros He [Hlen Hmid]. split; [ exact Hlen | ]. intros r.
  rewrite finalisations_neutral by exact He. apply Hmid.
Qed.

(** Sending to slot [k], if its response is still there, settles it. *)
Lemma slots_mid_send (k : nat) (responses : list (option Response))
    (tr : list Event) (err : option TRITONSERVER_Error) :
  (k < n)%nat ->
  slots_mid created n k responses tr ->
  slots_mid created n (S k) responses
    (tr ++ match nth k responses None with
           | Some resp => [EvResponseSend resp err]
           | None => []
           end).
Proof.
  intros Hk [Hlen Hmid]. split; [ exact Hlen | ]. intros r.
  rewrite finalisations_app.
  destruct (proj1 (proj2 (Hmid k)) (Nat.le_refl k) Hk) as [(Hr & Hc & Hf)|(Hr & Hf)];
    rewrite Hr; cbn [finalisations].
  - destruct (Nat.eqb_spec k r) as [<-|Hne].
    + split; [ intros _ _; rewrite Hf, Hc; reflexivity | ].
      split; [ lia | lia ].
    + rewrite !Nat.add_0_r. split; [ | split ].
      * intros H1 H2. apply Hmid; lia.
      * intros H1 H2. apply Hmid; lia.
      * apply Hmid.
  - rewrite Nat.add_0_r. split; [ | split ].
    + intros H1 H2. destruct (Nat.eq_dec r k) as [->|Hne]; [ exact Hf | apply Hmid; lia ].
    + intros H1 H2. apply Hmid; lia.
    + apply Hmid.
Qed.

Lemma send_remaining_loop (err : TRITONSERVER_Error) {X : Type} :
  forall (l : list X) (k : nat) (st : PRState),
    (k + length l = n)%nat ->
    slots_mid created n k (pr_responses st) (pr_trace st) ->
    exists st',
      for_each
        (fun r _ =>
           let* st := cy_get in
           match nth r (pr_responses st) None with
           | Some resp => emit (EvResponseSend resp (Some err))
           | None => cy_ret tt
           end ;;
           emit (EvRequestRelease r)) k l st = (Some tt, st')
      /\ slots_mid created n n (pr_responses st') (pr_trace st').
Proof.
  induction l as [|x l IH]; intros k st Hlen Hmid; cbn [for_each length] in *.
  - exists st. split; [ reflexivity | ].
    assert (Hk : k = n) by lia. rewrite <- Hk at 2. exact Hmid.
  - unfold cy_bind at 1. unfold cy_bind at 1. unfold cy_bind at 1. cbn [cy_get].
    pose proof (slots_mid_send k _ _ (Some err) ltac:(lia) Hmid) as Hs.
    destruct (nth k (pr_responses st) None) as [resp|]; cbn [emit cy_ret].
    + apply IH; cbn [pr_responses pr_trace]; [ lia | ].
      apply slots_mid_neutral; [ exact I | exact Hs ].
    + apply IH; cbn [pr_responses pr_trace]; [ lia | ].
      rewrite app_nil_r in Hs. apply slots_mid_neutral; [ exact I | exact Hs ].
Qed.

Lemma cycle_ok_send_remaining_and_return {A : Type} (err : TRITONSERVER_Error) :
  cycle_ok created n (@send_remaining_and_return A n err).
Proof.
  intros st H. unfold send_remaining_and_return.
  destruct (send_remaining_loop err (seq 0 n) 0 st) as (st' & Heq & Hmid).
  - now rewrite length_seq.
  - now apply slots_mid_of_inv.
  - rewrite (cy_bind_eq _ _ _ _ _ Heq). cbn [cy_return].
    eapply slots_final_of_mid, Hmid.
Qed.

Lemma send_all_loop {X : Type} :
  forall (l : list X) (k : nat) (st : PRState),
    (k + length l = n)%nat ->
    slots_mid created n k (pr_responses st) (pr_trace st) ->
    exists st',
      for_each
        (fun r _ =>
           let* st := cy_get in
           match nth r (pr_responses st) None with
           | Some resp => emit (EvResponseSend resp None)
           | None => cy_ret tt
           end) k l st = (Some tt, st')
      /\ slots_mid created n n (pr_responses st') (pr_trace st').
Proof.
  induction l as [|x l IH]; intros k st Hlen Hmid; cbn [for_each length] in *.
  - exists st. split; [ reflexivity | ].
    assert (Hk : k = n) by lia. rewrite <- Hk at 2. exact Hmid.
  - unfold cy_bind at 1. unfold cy_bind at 1. cbn [cy_get].
    pose proof (slots_mid_send k _ _ None ltac:(lia) Hmid) as Hs.
    destruct (nth k (pr_responses st) None) as [resp|]; cbn [emit cy_ret].
    + apply IH; cbn [pr_responses pr_trace]; [ lia | exact Hs ].
    + apply IH; [ lia | ]. now rewrite app_nil_r in Hs.
Qed.

Lemma report_and_release_loop {X : Type} :
  forall (l : list X) (k : nat) (st : PRState),
    exists st',
      for_each
        (fun r _ =>
           let* st := cy_get in
           emit (EvReportStatistics r
                   (bool_decide (nth r (pr_responses st) None <> None))) ;;
           emit (EvRequestRelease r)) k l st = (Some tt, st')
      /\ forall r, finalisations r (pr_trace st') = finalisations r (pr_trace st).
Proof.
  induction l as [|x l IH]; intros k st; cbn [for_each].
  - exists st. split; reflexivity.
  - unfold cy_bind at 1. unfold cy_bind at 1. unfold cy_bind at 1.
    cbn [cy_get emit].
    match goal with
    | |- exists st', for_each _ _ _ ?s = _ /\ _ =>
        destruct (IH (S k) s) as (st' & Heq & Hf)
    end.
    exists st'. split; [ exact Heq | ].
    intros r. rewrite Hf. cbn [pr_trace].
    now rewrite !finalisations_neutral by exact I.
Qed.

Lemma cycle_ends_bind {A B : Type} (m : Cycle A) (k : A -> Cycle B) :
  cycle_ok created n m -> (forall a, cycle_ends created n (k a)) ->
  cycle_ends created n (cy_bind m k).
Proof.
  intros Hm Hk st H. unfold cy_bind. specialize (Hm st H).
  destruct (m st) as [[a|] st']; [ exact (Hk a st' Hm) | exact Hm ].
Qed.

Lemma cycle_ends_send_all_report :
  cycle_ends created n (send_all_responses n ;; report_and_release n).
Proof.
  intros st H. unfold send_all_responses, report_and_release.
  destruct (send_all_loop (seq 0 n) 0 st) as (st1 & Heq1 & Hmid).
  - now rewrite length_seq.
  - now apply slots_mid_of_inv.
  - destruct (report_and_release_loop (seq 0 n) 0 st1) as (st2 & Heq2 & Hf).
    rewrite (cy_bind_eq _ _ _ _ _ Heq1), Heq2.
    cbn [snd]. intros r. rewrite Hf.
    exact (slots_final_of_mid _ _ Hmid r).
Qed.

Lemma SetStringOutputBuffer_respond (tensor : list (list byte))
    (response : option Response) (ob : option TRITONSERVER_Error)
    (cb : option TRITONSERVER_Error * bool) (cnt off : nat) :
  exists x,
    (snd (fst (fst (SetStringOutputBuffer tensor response ob cb cnt off))),
     snd (fst (SetStringOutputBuffer tensor response ob cb cnt off)))
    = RESPOND_AND_SET_NULL_IF_ERROR response x.
Proof.
  unfold SetStringOutputBuffer.
  destruct ob as [e|]; [ exists (Some e); destruct response; reflexivity | ].
  destruct cb as [[e|] cu]; [ exists (Some e); destruct response; reflexivity | ].
  exists None. reflexivity.
Qed.

Lemma cycle_ok_set_string_output (env : Env) (idx : nat) (name : string)
    (tensor : list (list byte)) (cnt off : nat) :
  cycle_ok created n (set_string_output env idx name tensor cnt off).
Proof.
  intros st H. unfold set_string_output.
  destruct (SetStringOutputBuffer_respond tensor (nth idx (pr_responses st) None)
              (TRITONBACKEND_OutputBuffer env idx name) (CopyBuffer env idx name)
              cnt off) as (x & Hx).
  destruct (SetStringOutputBuffer tensor (nth idx (pr_responses st) None)
              (TRITONBACKEND_OutputBuffer env idx name) (CopyBuffer env idx name)
              cnt off) as [[[buffer resp] evs] cuda].
  cbn [fst snd] in Hx. cbn [add_string_output pr_responses pr_trace].
  pose proof (slots_inv_respond created n _ _ idx x H) as H'.
  rewrite <- Hx in H'. exact H'.
Qed.

Lemma cycle_ok_new_input_tensor (env : Env) (name tensor_name : string)
    (datatype : TRITONSERVER_DataType) (shape : list Z) :
  cycle_ok created n (new_input_tensor env n name tensor_name datatype shape).
Proof.
  unfold new_input_tensor.
  destruct (TRITONTF_TensorNew env tensor_name (ConvertDataType_srv datatype) shape).
  - apply cycle_ok_ret.
  - apply cycle_ok_send_remaining_and_return.
Qed.

Lemma cycle_ok_ragged_shape_loop (name : string) (requests : list TRITONBACKEND_Request) :
  cycle_ok created n (ragged_shape_loop name requests).
Proof. unfold ragged_shape_loop. cycle_auto. Qed.

Lemma cycle_ok_process_input (env : Env) (requests : list TRITONBACKEND_Request)
    (total_batch_size : Z) (input : TRITONBACKEND_Input) :
  length requests = n ->
  cycle_ok created n (process_input env requests total_batch_size input).
Proof.
  intros Hn. unfold process_input. rewrite Hn. cbv zeta.
  apply cycle_ok_bind.
  - destruct (IsInputRagged env (in_name input)).
    + apply cycle_ok_bind; [ apply cycle_ok_ragged_shape_loop | intros ?; apply cycle_ok_ret ].
    + apply cycle_ok_ret.
  - intros batchn_shape.
    apply cycle_ok_bind; [ apply cycle_ok_new_input_tensor | intros tensor ].
    cycle_auto.
Qed.

Lemma cycle_ok_process_batch_input (env : Env) (batch_input : BatchInput) :
  cycle_ok created n (process_batch_input env n batch_input).
Proof.
  unfold process_batch_input. cbv zeta.
  apply cycle_ok_for_each. intros idx input_name.
  apply cycle_ok_bind; [ apply cycle_ok_new_input_tensor | intros tensor ].
  cycle_auto.
Qed.

Lemma cycle_ok_request_output_names_loop (idx : nat)
    (names : list (TRITONSERVER_Error + string)) :
  forall acc, cycle_ok created n (request_output_names_loop idx names acc).
Proof.
  induction names as [|nm names IH]; intros acc; cbn [request_output_names_loop].
  - apply cycle_ok_ret.
  - apply cycle_ok_bind; [ apply cycle_ok_respond | intros _ ].
    apply cycle_ok_bind; [ apply cycle_ok_get | intros st ].
    destruct (nth idx (pr_responses st) None), nm; apply IH.
Qed.

Lemma cycle_ok_request_required_outputs (idx : nat) (request : TRITONBACKEND_Request) :
  cycle_ok created n (request_required_outputs idx request).
Proof.
  unfold request_required_outputs.
  apply cycle_ok_bind; [ apply cycle_ok_get | intros st ].
  destruct (nth idx (pr_responses st) None); [ | apply cycle_ok_ret ].
  apply cycle_ok_bind; [ apply cycle_ok_respond | intros _ ].
  apply cycle_ok_bind; [ apply cycle_ok_get | intros st' ].
  destruct (nth idx (pr_responses st') None); [ | apply cycle_ok_ret ].
  apply cycle_ok_request_output_names_loop.
Qed.

Lemma cycle_ok_required_outputs_loop (requests : list TRITONBACKEND_Request) :
  forall idx, cycle_ok created n (required_outputs_loop idx requests).
Proof.
  induction requests as [|rq requests IH]; intros idx; cbn [required_outputs_loop].
  - apply cycle_ok_ret.
  - apply cycle_ok_bind; [ apply cycle_ok_request_required_outputs | intros names ].
    apply cycle_ok_bind; [ apply IH | intros others ]. apply cycle_ok_ret.
Qed.

Lemma cycle_ok_run_model (env : Env) (required_outputs : list string) :
  cycle_ok created n (run_model env n required_outputs).
Proof.
  unfold run_model. cbv zeta.
  apply cycle_ok_bind; [ apply cycle_ok_get | intros st ].
  apply cycle_ok_bind; [ apply cycle_ok_emit; exact I | intros _ ].
  destruct (TRITONTF_ModelRun env _ _).
  - apply cycle_ok_send_remaining_and_return.
  - apply cycle_ok_ret.
Qed.

Lemma cycle_ok_string_outputs_loop (env : Env) (name : string)
    (tensor : list (list byte)) (rro : list (list string))
    (requests : list TRITONBACKEND_Request) :
  forall (idx : nat) (batchn_shape : list Z) (tensor_offset : nat),
    cycle_ok created n
      (string_outputs_loop env name tensor rro idx requests batchn_shape tensor_offset).
Proof.
  induction requests as [|rq requests IH]; intros idx batchn_shape tensor_offset;
    cbn [string_outputs_loop].
  - apply cycle_ok_ret.
  - cbv zeta.
    apply cycle_ok_bind; [ apply cycle_ok_get | intros st ].
    apply cycle_ok_bind; [ | intros _; apply IH ].
    destruct (bool_decide _ && bool_decide _).
    + apply cycle_ok_bind; [ apply cycle_ok_respond | intros _ ].
      apply cycle_ok_set_string_output.
    + apply cycle_ok_ret.
Qed.

Lemma cycle_ok_process_output (env : Env) (requests : list TRITONBACKEND_Request)
    (rro : list (list string)) (name : string) (output_tensor : OutputTensor) :
  cycle_ok created n (process_output env requests rro name output_tensor).
Proof.
  unfold process_output. cbv zeta.
  destruct (negb (FindBatchOutput env name)); [ | apply cycle_ok_utility_call ].
  destruct (decide _); [ apply cycle_ok_string_outputs_loop | apply cycle_ok_utility_call ].
Qed.

(** A committed cycle ends with every created response finalised once. *)
Lemma cycle_ends_committed_cycle (env : Env) (requests : list TRITONBACKEND_Request)
    (total_batch_size : Z) :
  length requests = n ->
  cycle_ends created n (committed_cycle env requests total_batch_size).
Proof.
  intros Hn. unfold committed_cycle. rewrite Hn. cbv zeta.
  apply cycle_ends_bind.
  { apply cycle_ok_for_each. intros idx input. now apply cycle_ok_process_input. }
  intros _. apply cycle_ends_bind.
  { apply cycle_ok_for_each. intros idx bi. apply cycle_ok_process_batch_input. }
  intros _. apply cycle_ends_bind; [ apply cycle_ok_utility_call | intros _ ].
  apply cycle_ends_bind; [ apply cycle_ok_or_cuda_copy | intros _ ].
  apply cycle_ends_bind; [ apply cycle_ok_required_outputs_loop | intros rro ].
  apply cycle_ends_bind; [ apply cycle_ok_run_model | intros outs ].
  apply cycle_ends_bind.
  { apply cycle_ok_for_each. intros idx [name ot]. apply cycle_ok_process_output. }
  intros _. apply cycle_ends_bind; [ apply cycle_ok_utility_call | intros _ ].
  apply cycle_ends_bind; [ apply cycle_ok_or_cuda_copy | intros _ ].
  apply cycle_ends_send_all_report.
Qed.

End CycleEnds.

Lemma create_responses_nth (requests : list TRITONBACKEND_Request) (r : nat) :
  nth r (create_responses requests) None
  = if response_created requests r then Some r else None.
Proof.
  unfold create_responses, response_created.
  rewrite nth_lookup, list_lookup_imap.
  destruct (requests !! r) as [rq|]; cbn; [ | reflexivity ].
  destruct (rq_response_new rq); reflexivity.
Qed.

Lemma create_responses_inv (requests : list TRITONBACKEND_Request) :
  slots_inv (response_created requests) (length requests)
    (create_responses requests) [].
Proof.
  split; [ unfold create_responses; now rewrite length_imap | ].
  intros r. split; [ intros Hr | reflexivity ].
  rewrite create_responses_nth.
  destruct (response_created requests r); [ left | right ]; repeat split.
Qed.

Lemma total_batch_size_loop_non_null (env : Env) :
  forall (requests : list (option TRITONBACKEND_Request)) (acc total : Z),
    total_batch_size_loop env requests acc = inr total ->
    length (non_null_requests requests) = length requests.
Proof.
  induction requests as [|[rq|] requests IH]; intros acc total;
    cbn [total_batch_size_loop]; [ reflexivity | | discriminate ].
  intros H. unfold non_null_requests. cbn. f_equal.
  destruct (MaxBatchSize env >? 0).
  - destruct (TRITONBACKEND_RequestInputByIndex rq 0) as [e|input]; [ discriminate | ].
    destruct (in_properties_err input); [ discriminate | ].
    exact (IH _ _ H).
  - exact (IH _ _ H).
Qed.

(** C4 (as the code has it).  In every cycle no response is finalised
    twice.  In a cycle that commits to running (a non-zero total batch size
    that is 1 or within the limit) every request whose response the host
    server could create is finalised exactly once, with an error or with
    its outputs, and a request whose response could not be created is never
    answered.  In a cycle given up before that (a null request, an
    unreadable first input, a total batch size over the limit) the error
    is handed once to the helper that answers all requests. *)
Theorem responses_finalised_at_most_once :
  forall (env : Env) (requests : list (option TRITONBACKEND_Request)),
    (forall r : nat,
       (finalisations r (pr_trace (ProcessRequests env requests)) <= 1)%nat)
    /\ (forall total : Z,
          total_batch_size_loop env requests 0 = inr total ->
          total <> 0 ->
          total = 1 \/ total <= size_t_wrap (MaxBatchSize env) ->
          forall r : nat,
            finalisations r (pr_trace (ProcessRequests env requests))
            = if (r <? length requests)%nat
                 && response_created (non_null_requests requests) r
              then 1%nat else 0%nat)
    /\ (forall err : TRITONSERVER_Error,
          total_batch_size_loop env requests 0 = inl err ->
          forall r : nat, (r < length requests)%nat ->
            finalisations r (pr_trace (ProcessRequests env requests)) = 1%nat)
    /\ (forall total : Z,
          total_batch_size_loop env requests 0 = inr total ->
          total <> 1 ->
          total > size_t_wrap (MaxBatchSize env) ->
          forall r : nat, (r < length requests)%nat ->
            finalisations r (pr_trace (ProcessRequests env requests)) = 1%nat).
Proof.
  intros env requests.
  assert (Hpos : 0 <= size_t_wrap (MaxBatchSize env))
    by (unfold size_t_wrap; apply Z.mod_pos_bound; lia).
  assert (Hcommit : forall total : Z,
    total_batch_size_loop env requests 0 = inr total ->
    forall r : nat,
      finalisations r
        (pr_trace (snd (committed_cycle env (non_null_requests requests) total
                          (mkPR (create_responses (non_null_requests requests))
                                [] false [] []))))
      = if (r <? length requests)%nat
           && response_created (non_null_requests requests) r
        then 1%nat else 0%nat).
  { intros total Hloop r.
    rewrite <- (total_batch_size_loop_non_null env requests 0 total Hloop).
    apply (cycle_ends_committed_cycle
             (response_created (non_null_requests requests))
             (length (non_null_requests requests)) env
             (non_null_requests requests) total eq_refl).
    cbn [pr_responses pr_trace]. apply create_responses_inv. }
  assert (Hhelper : forall (e : TRITONSERVER_Error) (r : nat),
    finalisations r [EvRequestsRespondWithError (length requests) e]
    = if (r <? length requests)%nat then 1%nat else 0%nat).
  { intros e r. cbn [finalisations]. destruct (r <? length requests)%nat; reflexivity. }
  split; [ | split; [ | split ] ].
  - intros r. unfold ProcessRequests.
    destruct (total_batch_size_loop env requests 0) as [err|total] eqn:Hloop.
    + cbn [emit snd pr_trace app]. rewrite Hhelper.
      destruct (r <? length requests)%nat; lia.
    + destruct (total =? 0); [ cbn; lia | ].
      destruct (negb (total =? 1) && (total >? size_t_wrap (MaxBatchSize env))).
      * cbn [emit snd pr_trace app]. rewrite Hhelper.
        destruct (r <? length requests)%nat; lia.
      * cbv zeta. rewrite (Hcommit total eq_refl r).
        destruct ((r <? length requests)%nat && _); lia.
  - intros total Hloop H0 Hlim r. unfold ProcessRequests. rewrite Hloop.
    destruct (Z.eqb_spec total 0) as [|_]; [ contradiction | ].
    assert (Hguard : negb (total =? 1) && (total >? size_t_wrap (MaxBatchSize env))
                     = false).
    { destruct Hlim as [->|Hle]; [ reflexivity | ].
      destruct (Z.gtb_spec total (size_t_wrap (MaxBatchSize env))); [ lia | ].
      apply andb_false_r. }
    rewrite Hguard. cbv zeta. exact (Hcommit total Hloop r).
  - intros err Hloop r Hr. unfold ProcessRequests. rewrite Hloop.
    cbn [emit snd pr_trace app]. rewrite Hhelper.
    destruct (Nat.ltb_spec r (length requests)); [ reflexivity | lia ].
  - intros total Hloop H1 Hgt r Hr. unfold ProcessRequests. rewrite Hloop.
    destruct (Z.eqb_spec total 0) as [|_]; [ lia | ].
    destruct (Z.eqb_spec total 1) as [|_]; [ contradiction | ].
    destruct (Z.gtb_spec total (size_t_wrap (MaxBatchSize env))); [ | lia ].
    cbn [negb andb emit snd pr_trace app]. rewrite Hhelper.
    destruct (Nat.ltb_spec r (length requests)); [ reflexivity | lia ].
Qed.

Lemma responses_finalised_at_most_once_witness :
  finalisations 0
    (pr_trace (ProcessRequests (plain_env 8)
                 [Some (plain_request 2 true); Some (plain_request 2 false)])) = 1%nat
  /\ finalisations 1
       (pr_trace (ProcessRequests (plain_env 8)
                    [Some (plain_request 2 true); Some (plain_request 2 false)])) = 0%nat
  /\ finalisations 0
       (pr_trace (ProcessRequests (plain_env 8) [Some (plain_request 2 true); None]))
     = 1%nat.
Proof.
  assert (H1 : 4 <> 0) by lia.
  assert (H2 : 4 = 1 \/ 4 <= size_t_wrap (MaxBatchSize (plain_env 8)))
    by (right; vm_compute; discriminate).
  split; [ | split ].
  - exact (proj1 (proj2 (responses_finalised_at_most_once (plain_env 8)
                           [Some (plain_request 2 true); Some (plain_request 2 false)]))
             4 eq_refl H1 H2 0%nat).
  - exact (proj1 (proj2 (responses_finalised_at_most_once (plain_env 8)
                           [Some (plain_request 2 true); Some (plain_request 2 false)]))
             4 eq_refl H1 H2 1%nat).
  - refine (proj1 (proj2 (proj2 (responses_finalised_at_most_once (plain_env 8)
                                   [Some (plain_request 2 true); None])))
              _ eq_refl 0%nat _).
    cbn. lia.
Defined.

(** A cycle whose total batch size is zero although it holds a request
    (batching enabled, leading dimension 0) returns without answering or
    releasing anything. *)
Example zero_batch_cycle_unanswered :
  pr_trace (ProcessRequests (plain_env 8) [Some (plain_request 0 true)]) = [].
Proof. reflexivity. Qed.

(** C4, the claim as stated fails: a request whose response the host
    server cannot create is left without any response at the end of a
    cycle that ran. *)
Lemma response_never_created_counterexample :
  ~ (forall (env : Env) (requests : list (option TRITONBACKEND_Request)) (r : nat),
       (r < length requests)%nat ->
       finalisations r (pr_trace (ProcessRequests env requests)) = 1%nat).
Proof.
  intros H.
  specialize (H (plain_env 8) [Some (plain_request 2 false)] 0%nat).
  cbn [length] in H. specialize (H ltac:(lia)).
  vm_compute in H. discriminate H.
Qed.

(* ----------------------------------------------------------------- *)
(** ** The SavedModel validator *)

Lemma backfill_block_length (offset : nat) :
  forall (pairs : list (nat * Z)) (block : list Z),
    length (fold_left (fun block '(i, d) => <[(i + offset)%nat := d]> block) pairs block)
    = length block.
Proof.
  induction pairs as [|[i d] pairs IH]; intros block; [ reflexivity | ].
  cbn [fold_left]. rewrite IH. apply length_insert.
Qed.

(** What the back-fill establishes: the rank and the dimensions behind
    the batch slot come from the configuration; the batch slot itself
    keeps what the fresh block held. *)
Lemma backfill_shape_spec (fresh : nat -> Z) (dims : list Z) (supports_batching : bool) :
  rank_ (backfill_shape fresh dims supports_batching)
  = (length dims + if supports_batching then 1 else 0)%nat
  /\ shape_wf (backfill_shape fresh dims supports_batching)
  /\ dims_ (backfill_shape fresh dims supports_batching)
     = (if supports_batching then [fresh 0%nat] else []) ++ dims.
Proof.
  unfold backfill_shape, shape_wf. cbn [rank_ dims_].
  split; [ reflexivity | ].
  split; [ now rewrite backfill_block_length, length_map, length_seq | ].
  set (offset := if supports_batching then 1%nat else 0%nat).
  assert (Hgen : forall (todo done : list Z) (pre post : list Z),
    length pre = offset -> length post = length todo ->
    fold_left (fun block '(i, d) => <[(i + offset)%nat := d]> block)
      (imap (fun i d => (length done + i, d)%nat) todo) (pre ++ done ++ post)
    = pre ++ done ++ todo).
  { induction todo as [|d todo IH]; intros done pre post Hpre Hpost.
    - destruct post; [ reflexivity | discriminate Hpost ].
    - destruct post as [|p post]; [ discriminate Hpost | ].
      cbn [imap fold_left]. rewrite Nat.add_0_r.
      replace (length done + offset)%nat with (length (pre ++ done))
        by (rewrite length_app; lia).
      rewrite (app_assoc pre done (p :: post)), insert_at_length, <- app_assoc.
      rewrite (imap_ext _ (fun i d0 => (length (done ++ [d]) + i, d0)%nat)).
      2:{ intros i x _. cbn. rewrite length_app. cbn [length]. f_equal. lia. }
      specialize (IH (done ++ [d]) pre post Hpre ltac:(now injection Hpost)).
      rewrite <- !app_assoc in IH. cbn [app] in IH. exact IH. }
  specialize (Hgen dims [] (map fresh (seq 0 offset)) (map fresh (seq offset (length dims)))).
  cbn [app length] in Hgen.
  rewrite <- map_app, <- seq_app in Hgen.
  replace (offset + length dims)%nat with (length dims + offset)%nat in Hgen by lia.
  rewrite (imap_ext _ pair) in Hgen by reflexivity.
  rewrite Hgen by (now rewrite length_map, length_seq).
  subst offset. destruct supports_batching; reflexivity.
Qed.

(** C8.  The run of the validator on a model input of rank 0 with
    batching enabled: validation succeeds and the input's shape is
    back-filled from the configured dims [3] to rank 2 with 3 behind the
    batch slot, but the batch slot holds what the allocation returned (0
    here), not the wildcard. *)
Theorem backfill_leaves_batch_dim_unwritten :
  savedmodel.ValidateTRITONTFModel (fun _ => 0) (one_input_model 1)
    [unknown_rank_io] []
  = (None, ([mkIO "x" "x" TRITONTF_TYPE_FP32 (mkShape 2 [0; 3])], []))
  /\ dims_at (mkShape 2 [0; 3]) 0 <> WILDCARD_DIM.
Proof. split; [ vm_compute; reflexivity | discriminate ]. Qed.

Lemma savedmodel_control_counted (model_name : string) (max_batch_size : Z)
    (control : SequenceControl) (inputs : TRITONTF_IOList) :
  fst (savedmodel.ValidateSequenceControl model_name max_batch_size control inputs) = None ->
  savedmodel.ValidateSequenceControl model_name max_batch_size control inputs
  = (None, resolves control).
Proof.
  unfold savedmodel.ValidateSequenceControl, resolves.
  destruct control as [err|[tensor_name tensor_datatype]]; [ discriminate | ].
  destruct (negb (String.eqb tensor_name "")); [ | reflexivity ].
  destruct (FindIOByName inputs tensor_name) as [input|]; [ | discriminate ].
  destruct (CompareDims model_name tensor_name (shape_ input) [1] (max_batch_size >? 0) true);
    [ discriminate | ].
  destruct (negb (CompareDataType (data_type_ input) tensor_datatype));
    [ discriminate | reflexivity ].
Qed.

Lemma savedmodel_sequence_controls_count (model_state : BackendModel)
    (inputs : TRITONTF_IOList) :
  Forall (fun control =>
            fst (savedmodel.ValidateSequenceControl (bm_Name model_state)
                   (bm_MaxBatchSize model_state) control inputs) = None)
         (configured_controls (bm_ModelConfig model_state)) ->
  savedmodel.sequence_controls model_state inputs
  = inr (length (List.filter resolves (configured_controls (bm_ModelConfig model_state)))).
Proof.
  unfold savedmodel.sequence_controls, configured_controls.
  destruct (cfg_sequence_batching (bm_ModelConfig model_state)) as [sb|]; [ | reflexivity ].
  intros H.
  inversion H as [|? ? H1 H']; subst. inversion H' as [|? ? H2 H'']; subst.
  inversion H'' as [|? ? H3 H''']; subst. inversion H''' as [|? ? H4 _]; subst.
  unfold savedmodel.validate_sequence_controls.
  rewrite (savedmodel_control_counted _ _ _ _ H1), (savedmodel_control_counted _ _ _ _ H2),
    (savedmodel_control_counted _ _ _ _ H3), (savedmodel_control_counted _ _ _ _ H4).
  cbn [List.filter].
  destruct (resolves (CONTROL_SEQUENCE_START sb)), (resolves (CONTROL_SEQUENCE_END sb)),
    (resolves (CONTROL_SEQUENCE_READY sb)), (resolves (CONTROL_SEQUENCE_CORRID sb));
    reflexivity.
Qed.

Lemma graphdef_first_error_None (checks : list (option TRITONSERVER_Error)) :
  Forall (fun check => check = None) checks -> graphdef.first_error checks = None.
Proof.
  induction 1 as [|check checks Hc _ IH]; [ reflexivity | ].
  cbn [graphdef.first_error]. now rewrite Hc.
Qed.

(** C9 (as the code has it).  For a SavedModel whose configured sequence
    controls validate, the number of (distinct) inputs the model reports
    is held against the number of configured inputs plus the number of
    batch inputs plus the number of sequence controls that resolve to a
    tensor name: when the two differ, validation fails with the
    INVALID_ARG error that names both counts and the signature is left as
    it was; so validation succeeds only on equal counts, and a model with
    strictly more inputs than the configuration accounts for is rejected.
    The GraphDef validator accepts a model with more potential inputs
    than configured. *)
Theorem savedmodel_input_count_strict :
  forall (fresh : nat -> Z) (model_state : BackendModel)
         (inputs outputs : TRITONTF_IOList),
    (Forall (fun control =>
               fst (savedmodel.ValidateSequenceControl (bm_Name model_state)
                      (bm_MaxBatchSize model_state) control inputs) = None)
            (configured_controls (bm_ModelConfig model_state)) ->
     (size (io_names inputs)
      <> (length (cfg_input (bm_ModelConfig model_state))
          + cfg_batch_input (bm_ModelConfig model_state)
          + length (List.filter resolves
                      (configured_controls (bm_ModelConfig model_state))))%nat ->
      savedmodel.ValidateTRITONTFModel fresh model_state inputs outputs
      = (Some (TRITONSERVER_ErrorNew TRITONSERVER_ERROR_INVALID_ARG
                 ("unable to load model '" +:+ bm_Name model_state +:+
                  "', configuration expects " +:+
                  to_string_nat
                    (length (cfg_input (bm_ModelConfig model_state))
                     + cfg_batch_input (bm_ModelConfig model_state)
                     + length (List.filter resolves
                                 (configured_controls (bm_ModelConfig model_state)))) +:+
                  " inputs, model provides " +:+ to_string_nat (size (io_names inputs)))),
         (inputs, outputs)))
     /\ (fst (savedmodel.ValidateTRITONTFModel fresh model_state inputs outputs) = None ->
         size (io_names inputs)
         = (length (cfg_input (bm_ModelConfig model_state))
            + cfg_batch_input (bm_ModelConfig model_state)
            + length (List.filter resolves
                        (configured_controls (bm_ModelConfig model_state))))%nat)
     /\ ((length (cfg_input (bm_ModelConfig model_state))
          + cfg_batch_input (bm_ModelConfig model_state)
          + length (List.filter resolves
                      (configured_controls (bm_ModelConfig model_state)))
          < size (io_names inputs))%nat ->
         exists e : TRITONSERVER_Error,
           fst (savedmodel.ValidateTRITONTFModel fresh model_state inputs outputs) = Some e
           /\ err_code e = TRITONSERVER_ERROR_INVALID_ARG))
    /\ ((length (cfg_input (bm_ModelConfig model_state)) <= size (io_names inputs))%nat ->
        Forall (fun control => graphdef.ValidateSequenceControl control inputs = None)
               (configured_controls (bm_ModelConfig model_state)) ->
        Forall (fun io => cio_name io ∈ io_names inputs)
               (cfg_input (bm_ModelConfig model_state)) ->
        Forall (fun io => cio_name io ∈ io_names outputs)
               (cfg_output (bm_ModelConfig model_state)) ->
        graphdef.ValidateTRITONTFModel model_state inputs outputs = None).
Proof.
  intros fresh model_state inputs outputs. split.
  - intros Hctl.
    pose proof (savedmodel_sequence_controls_count model_state inputs Hctl) as Hseq.
    set (expected := (length (cfg_input (bm_ModelConfig model_state))
                      + cfg_batch_input (bm_ModelConfig model_state)
                      + length (List.filter resolves
                                  (configured_controls (bm_ModelConfig model_state))))%nat)
      in *.
    assert (Hcount : size (io_names inputs) <> expected ->
      savedmodel.ValidateTRITONTFModel fresh model_state inputs outputs
      = (Some (TRITONSERVER_ErrorNew TRITONSERVER_ERROR_INVALID_ARG
                 ("unable to load model '" +:+ bm_Name model_state +:+
                  "', configuration expects " +:+ to_string_nat expected +:+
                  " inputs, model provides " +:+ to_string_nat (size (io_names inputs)))),
         (inputs, outputs))).
    { intros Hne. unfold savedmodel.ValidateTRITONTFModel. rewrite Hseq. cbv zeta.
      change (savedmodel.expected_input_cnt (bm_ModelConfig model_state)
                (length (List.filter resolves
                           (configured_controls (bm_ModelConfig model_state)))))
        with expected.
      destruct (Nat.eqb_spec (size (io_names inputs)) expected);
        [ contradiction | reflexivity ]. }
    split; [ exact Hcount | split ].
    + destruct (Nat.eq_dec (size (io_names inputs)) expected) as [Heq|Hne];
        [ intros _; exact Heq | ].
      rewrite (Hcount Hne). discriminate.
    + intros Hlt. rewrite Hcount by lia. eexists. split; reflexivity.
  - intros Hlen Hctl Hin Hout. unfold graphdef.ValidateTRITONTFModel. cbv zeta.
    destruct (Nat.ltb_spec (size (io_names inputs))
                (length (cfg_input (bm_ModelConfig model_state)))); [ lia | ].
    unfold configured_controls in Hctl.
    replace (match cfg_sequence_batching (bm_ModelConfig model_state) with
             | Some sb =>
                 graphdef.first_error
                   [ graphdef.ValidateSequenceControl (CONTROL_SEQUENCE_START sb) inputs;
                     graphdef.ValidateSequenceControl (CONTROL_SEQUENCE_END sb) inputs;
                     graphdef.ValidateSequenceControl (CONTROL_SEQUENCE_READY sb) inputs;
                     graphdef.ValidateSequenceControl (CONTROL_SEQUENCE_CORRID sb) inputs ]
             | None => None
             end) with (@None TRITONSERVER_Error).
    2:{ destruct (cfg_sequence_batching (bm_ModelConfig model_state)) as [sb|];
          [ | reflexivity ].
        symmetry. apply graphdef_first_error_None.
        inversion Hctl as [|? ? H1 H']; subst. inversion H' as [|? ? H2 H'']; subst.
        inversion H'' as [|? ? H3 H''']; subst. inversion H''' as [|? ? H4 _]; subst.
        repeat constructor; assumption. }
    rewrite graphdef_first_error_None.
    + apply graphdef_first_error_None. apply List.Forall_map.
      eapply List.Forall_impl; [ | exact Hout ].
      intros io Hio. unfold CheckAllowedModelOutput. now rewrite decide_True.
    + apply List.Forall_map. eapply List.Forall_impl; [ | exact Hin ].
      intros io Hio. unfold CheckAllowedModelInput. now rewrite decide_True.
Qed.

Lemma savedmodel_input_count_strict_witness :
  savedmodel.ValidateTRITONTFModel (fun _ => 0) sequence_model sequence_model_inputs []
  = (Some (TRITONSERVER_ErrorNew TRITONSERVER_ERROR_INVALID_ARG
             ("unable to load model 'm', configuration expects " +:+ to_string_nat 3 +:+
              " inputs, model provides " +:+ to_string_nat 4)),
     (sequence_model_inputs, []))
  /\ graphdef.ValidateTRITONTFModel sequence_model sequence_model_inputs [] = None.
Proof.
  pose proof (savedmodel_input_count_strict (fun _ => 0) sequence_model
                sequence_model_inputs []) as (Hsaved & Hgraph).
  split.
  - apply (proj1 (Hsaved ltac:(repeat constructor))). vm_compute. lia.
  - apply Hgraph.
    + vm_compute. lia.
    + repeat constructor.
    + repeat constructor.
    + constructor.
Defined.

(** C9, the claim as stated fails: with equal counts validation still
    fails with an INVALID_ARG error when the datatypes differ. *)
Lemma savedmodel_count_iff_counterexample :
  ~ (forall (fresh : nat -> Z) (model_state : BackendModel)
            (inputs outputs : TRITONTF_IOList),
       Forall (fun control =>
                 fst (savedmodel.ValidateSequenceControl (bm_Name model_state)
                        (bm_MaxBatchSize model_state) control inputs) = None)
              (configured_controls (bm_ModelConfig model_state)) ->
       ((exists e : TRITONSERVER_Error,
           fst (savedmodel.ValidateTRITONTFModel fresh model_state inputs outputs) = Some e
           /\ err_code e = TRITONSERVER_ERROR_INVALID_ARG)
        <-> size (io_names inputs)
            <> (length (cfg_input (bm_ModelConfig model_state))
                + cfg_batch_input (bm_ModelConfig model_state)
                + length (List.filter resolves
                            (configured_controls (bm_ModelConfig model_state))))%nat)).
Proof.
  intros H.
  specialize (H (fun _ => 0) (one_input_model 1)
                [mkIO "x" "x:0" TRITONTF_TYPE_INT32 (mkShape 2 [-1; 3])] []
                ltac:(constructor)).
  apply proj1 in H. apply H; [ | vm_compute; reflexivity ].
  eexists. split; [ vm_compute; reflexivity | reflexivity ].
Qed.

(* ================================================================= *)
(** * Further properties of the utilities *)

(* ----------------------------------------------------------------- *)
(** ** Lookup by name *)

Lemma FindIOByName_None (ios : TRITONTF_IOList) (name : string) :
  FindIOByName ios name = None <-> Forall (fun io => name_ io <> name) ios.
Proof.
  induction ios as [|io ios IH]; cbn [FindIOByName].
  - split; [ constructor | reflexivity ].
  - destruct (String.eqb_spec (name_ io) name) as [He|Hne].
    + split; [ discriminate | ]. intros H. inversion H; contradiction.
    + rewrite IH. split; [ now constructor | intros H; now inversion H ].
Qed.

Lemma FindIOByName_Some (ios : TRITONTF_IOList) (name : string) (io : TRITONTF_IO) :
  FindIOByName ios name = Some io <->
  exists pre post : TRITONTF_IOList,
    ios = pre ++ io :: post /\ name_ io = name
    /\ Forall (fun x => name_ x <> name) pre.
Proof.
  revert io. induction ios as [|x ios IH]; intros io; cbn [FindIOByName].
  - split; [ discriminate | ]. intros (pre & post & H & _). now destruct pre.
  - destruct (String.eqb_spec (name_ x) name) as [He|Hne].
    + split.
      * intros [= <-]. exists [], ios. repeat split; [ exact He | constructor ].
      * intros (pre & post & H & Hn & Hpre). destruct pre as [|p pre].
        -- now injection H as ->.
        -- injection H as -> _. inversion Hpre; contradiction.
    + rewrite IH. split.
      * intros (pre & post & -> & Hn & Hpre). exists (x :: pre), post.
        repeat split; [ exact Hn | now constructor ].
      * intros (pre & post & H & Hn & Hpre). destruct pre as [|p pre].
        -- injection H as -> _. contradiction.
        -- injection H as -> ->. exists pre, post.
           repeat split; [ exact Hn | now inversion Hpre ].
Qed.

(** X1.  [FindIOByName] returns the first tensor of the list that carries
    the name, and nullptr exactly when no tensor of the list carries it. *)
Theorem FindIOByName_first_match :
  forall (ios : TRITONTF_IOList) (name : string),
    match FindIOByName ios name with
    | Some io =>
        exists pre post : TRITONTF_IOList,
          ios = pre ++ io :: post /\ name_ io = name
          /\ Forall (fun x => name_ x <> name) pre
    | None => Forall (fun x => name_ x <> name) ios
    end.
Proof.
  intros ios name. destruct (FindIOByName ios name) as [io|] eqn:E.
  - now apply FindIOByName_Some.
  - now apply FindIOByName_None.
Qed.

(* ----------------------------------------------------------------- *)
(** ** Datatype names *)

Lemma ConvertDataType_str_listed (name : string) :
  ConvertDataType_str name <> TRITONTF_TYPE_INVALID ->
  ConvertDataType_str name <> TRITONTF_TYPE_unlisted
  /\ ConvertToModelConfigString (ConvertDataType_str name) = name.
Proof.
  intros Hne.
  destruct (in_dec string_dec name model_config_type_names) as [Hin|Hnot].
  - cbn in Hin.
    repeat (destruct Hin as [<-|Hin]; [ split; [ discriminate | reflexivity ] | ]).
    contradiction.
  - now rewrite ConvertDataType_str_unlisted in Hne.
Qed.

(** X2.  [CompareDataType] accepts a TF datatype and a configuration type
    name exactly when the datatype is one of the thirteen real datatypes
    and the name is its configuration name; the invalid datatype and the
    name "TYPE_INVALID" never match anything. *)
Theorem CompareDataType_iff :
  forall (model_dtype : TRITONTF_DataType) (dtype : string),
    CompareDataType model_dtype dtype = true <->
    model_dtype <> TRITONTF_TYPE_INVALID
    /\ model_dtype <> TRITONTF_TYPE_unlisted
    /\ dtype = ConvertToModelConfigString model_dtype.
Proof.
  intros t s. unfold CompareDataType. cbv zeta. split.
  - destruct (decide (ConvertDataType_str s = TRITONTF_TYPE_INVALID)) as [|Hne];
      [ discriminate | ].
    intros H. apply bool_decide_eq_true in H. subst t.
    destruct (ConvertDataType_str_listed s Hne) as (Hu & Hs).
    repeat split; [ exact Hne | exact Hu | now symmetry ].
  - intros (Hi & Hu & ->). destruct t; try contradiction; reflexivity.
Qed.

(** X3.  [DataTypeIsInvalid] holds of a configuration type name exactly
    when no TF datatype matches it under [CompareDataType]. *)
Theorem DataTypeIsInvalid_no_match :
  forall dtype : string,
    DataTypeIsInvalid dtype = true <->
    forall model_dtype : TRITONTF_DataType, CompareDataType model_dtype dtype = false.
Proof.
  intros s. unfold DataTypeIsInvalid, CompareDataType. cbv zeta. split.
  - intros H t. apply bool_decide_eq_true in H.
    destruct (decide (ConvertDataType_str s = TRITONTF_TYPE_INVALID)); [ reflexivity | contradiction ].
  - intros H. apply bool_decide_eq_true.
    specialize (H (ConvertDataType_str s)).
    destruct (decide (ConvertDataType_str s = TRITONTF_TYPE_INVALID)) as [He|Hne];
      [ exact He | ].
    rewrite bool_decide_eq_false in H. now contradiction H.
Qed.

(** X4.  The conversions in the other direction: every named TRITONSERVER
    datatype survives the trip to the TF datatype and back, every named TF
    datatype is recovered from its configuration name, and the only TF
    datatypes named "TYPE_INVALID" are the invalid and the unlisted ones. *)
Theorem datatype_conversions_reverse :
  (forall d : TRITONSERVER_DataType,
     d <> TRITONSERVER_TYPE_unlisted ->
     ConvertDataType_tf (ConvertDataType_srv d) = d)
  /\ (forall t : TRITONTF_DataType,
        t <> TRITONTF_TYPE_unlisted ->
        ConvertDataType_str (ConvertToModelConfigString t) = t)
  /\ (forall t : TRITONTF_DataType,
        ConvertToModelConfigString t = "TYPE_INVALID"%string <->
        t = TRITONTF_TYPE_INVALID \/ t = TRITONTF_TYPE_unlisted).
Proof.
  split; [ intros d Hd; destruct d; try reflexivity; congruence | ].
  split; [ intros t Ht; destruct t; try reflexivity; congruence | ].
  intros t. split.
  - destruct t; try discriminate; [ now left | now right ].
  - intros [->| ->]; reflexivity.
Qed.

Lemma datatype_conversions_reverse_witness :
  ConvertDataType_tf (ConvertDataType_srv TRITONSERVER_TYPE_BYTES) = TRITONSERVER_TYPE_BYTES
  /\ ConvertDataType_str (ConvertToModelConfigString TRITONTF_TYPE_FP16) = TRITONTF_TYPE_FP16.
Proof.
  split.
  - apply (proj1 datatype_conversions_reverse). discriminate.
  - apply (proj1 (proj2 datatype_conversions_reverse)). discriminate.
Defined.

(* ----------------------------------------------------------------- *)
(** ** Shape comparison, exact and lenient *)

Lemma compare_dims_loop_true_inv (ce : bool) (s : TRITONTF_Shape) (dims : list Z) :
  forall (i : nat) (succ : bool),
    compare_dims_loop ce s i dims succ = true -> succ = true.
Proof.
  intros i succ H. destruct succ; [ reflexivity | ].
  now rewrite compare_dims_loop_false in H.
Qed.

Lemma compare_dims_loop_exact_lenient (s : TRITONTF_Shape) (dims : list Z) :
  forall (i : nat) (succ : bool),
    compare_dims_loop true s i dims succ = true ->
    compare_dims_loop false s i dims succ = true.
Proof.
  induction dims as [|d dims IH]; intros i succ; cbn [compare_dims_loop orb];
    [ trivial | ].
  intros H. pose proof (compare_dims_loop_true_inv _ _ _ _ _ H) as Hs.
  apply andb_true_iff in Hs. destruct Hs as [-> Hd].
  rewrite Hd in H |- *. cbn [andb] in H |- *.
  destruct (negb (dims_at s i =? WILDCARD_DIM)); apply IH; exact H.
Qed.

(** X5.  A shape accepted by the exact comparison (the one used for
    outputs and sequence controls) is accepted by the lenient comparison
    (the one used for inputs), with or without batching. *)
Theorem CompareDims_exact_implies_lenient :
  forall (model_name tensor_name : string) (model_shape : TRITONTF_Shape)
         (dims : list Z) (supports_batching : bool),
    CompareDims model_name tensor_name model_shape dims supports_batching true = None ->
    CompareDims model_name tensor_name model_shape dims supports_batching false = None.
Proof.
  intros mn tn s dims sb. unfold CompareDims. cbv zeta.
  destruct sb.
  - destruct (Nat.eqb (rank_ s) 0 || negb (dims_at s 0 =? WILDCARD_DIM));
      [ discriminate | ].
    destruct (Nat.eqb (rank_ s) (length (WILDCARD_DIM :: dims))); [ | discriminate ].
    destruct (compare_dims_loop true s 0 (WILDCARD_DIM :: dims) true) eqn:E;
      [ | discriminate ].
    intros _. now rewrite (compare_dims_loop_exact_lenient _ _ _ _ E).
  - destruct (Nat.eqb (rank_ s) (length dims)); [ | discriminate ].
    destruct (compare_dims_loop true s 0 dims true) eqn:E; [ | discriminate ].
    intros _. now rewrite (compare_dims_loop_exact_lenient _ _ _ _ E).
Qed.

Lemma CompareDims_exact_implies_lenient_witness :
  CompareDims "m" "t" (mkShape 2 [-1; 3]) [3] true false = None.
Proof.
  apply (CompareDims_exact_implies_lenient "m" "t" (mkShape 2 [-1; 3]) [3] true).
  reflexivity.
Defined.

Lemma compare_dims_loop_no_wildcard (s : TRITONTF_Shape) (dims : list Z) :
  forall (i : nat) (succ : bool),
    (forall j : nat, (i <= j < i + length dims)%nat -> dims_at s j <> WILDCARD_DIM) ->
    compare_dims_loop false s i dims succ = compare_dims_loop true s i dims succ.
Proof.
  induction dims as [|d dims IH]; intros i succ Hnw; cbn [compare_dims_loop orb];
    [ reflexivity | ].
  cbn [length] in Hnw.
  destruct (Z.eqb_spec (dims_at s i) WILDCARD_DIM) as [He|_].
  - exfalso. apply (Hnw i); [ lia | exact He ].
  - cbn [negb]. apply IH. intros j Hj. apply Hnw. lia.
Qed.

(** X6.  When no dimension of the model shape behind the batch dimension
    (or, without batching, no dimension at all) is the wildcard, the
    lenient and the exact comparison return the same result, error text
    included. *)
Theorem CompareDims_modes_agree_without_wildcard :
  forall (model_name tensor_name : string) (model_shape : TRITONTF_Shape)
         (dims : list Z) (supports_batching : bool),
    (forall i : nat,
       ((if supports_batching then 1 else 0) <= i < rank_ model_shape)%nat ->
       dims_at model_shape i <> WILDCARD_DIM) ->
    CompareDims model_name tensor_name model_shape dims supports_batching false
    = CompareDims model_name tensor_name model_shape dims supports_batching true.
Proof.
  intros mn tn s dims sb Hnw. unfold CompareDims. cbv zeta.
  destruct sb.
  - destruct (Nat.eqb (rank_ s) 0) eqn:Hr0; cbn [orb]; [ reflexivity | ].
    destruct (Z.eqb_spec (dims_at s 0) WILDCARD_DIM) as [Hd|Hd]; cbn [negb];
      [ | reflexivity ].
    destruct (Nat.eqb_spec (rank_ s) (length (WILDCARD_DIM :: dims))) as [Hr|Hr];
      [ | reflexivity ].
    cbn [compare_dims_loop orb andb].
    destruct (Z.eqb_spec (dims_at s 0) WILDCARD_DIM) as [_|]; [ | contradiction ].
    cbn [negb]. rewrite compare_dims_loop_no_wildcard; [ reflexivity | ].
    intros j Hj. apply Hnw. cbn [length] in Hr. lia.
  - destruct (Nat.eqb_spec (rank_ s) (length dims)) as [Hr|Hr]; [ | reflexivity ].
    rewrite compare_dims_loop_no_wildcard; [ reflexivity | ].
    intros j Hj. apply Hnw. lia.
Qed.

Lemma CompareDims_modes_agree_without_wildcard_witness :
  CompareDims "m" "t" (mkShape 3 [-1; 4; 3]) [4; 2] true false
  = CompareDims "m" "t" (mkShape 3 [-1; 4; 3]) [4; 2] true true.
Proof.
  apply (CompareDims_modes_agree_without_wildcard "m" "t" (mkShape 3 [-1; 4; 3]) [4; 2] true).
  intros i Hi. cbn in Hi.
  destruct i as [|[|[|i]]]; [ lia | discriminate | discriminate | lia ].
Defined.

Lemma CompareDims_batching_None (model_name tensor_name : string)
    (model_shape : TRITONTF_Shape) (dims : list Z) (compare_exact : bool) :
  CompareDims model_name tensor_name model_shape dims true compare_exact = None <->
  rank_ model_shape <> 0%nat
  /\ dims_at model_shape 0 = WILDCARD_DIM
  /\ CompareDims model_name tensor_name model_shape (WILDCARD_DIM :: dims) false
       compare_exact = None.
Proof.
  unfold CompareDims. cbv zeta.
  destruct (Nat.eqb_spec (rank_ model_shape) 0) as [Hr0|Hr0]; cbn [orb].
  { split; [ discriminate | intros (H & _); contradiction ]. }
  destruct (Z.eqb_spec (dims_at model_shape 0) WILDCARD_DIM) as [Hd|Hd]; cbn [negb].
  2:{ split; [ discriminate | intros (_ & H & _); contradiction ]. }
  destruct (Nat.eqb (rank_ model_shape) (length (WILDCARD_DIM :: dims))).
  - destruct (compare_dims_loop compare_exact model_shape 0 (WILDCARD_DIM :: dims) true);
      cbn [negb].
    + split; [ intros _; repeat split; assumption | reflexivity ].
    + split; [ discriminate | intros (_ & _ & H); discriminate H ].
  - cbn [negb]. split; [ discriminate | intros (_ & _ & H); discriminate H ].
Qed.

Lemma CompareDims_plain_None (model_name tensor_name : string)
    (model_shape : TRITONTF_Shape) (dims : list Z) (compare_exact : bool) :
  CompareDims model_name tensor_name model_shape dims false compare_exact = None <->
  rank_ model_shape = length dims
  /\ Forall2 (dim_compatible compare_exact) (shape_dims model_shape) dims.
Proof.
  unfold CompareDims. cbv zeta.
  destruct (Nat.eqb_spec (rank_ model_shape) (length dims)) as [Hr|Hr].
  - pose proof (compare_dims_loop_spec compare_exact model_shape dims 0) as Hl.
    cbn [skipn] in Hl. rewrite <- Hr in Hl. specialize (Hl eq_refl).
    destruct (compare_dims_loop compare_exact model_shape 0 dims true) eqn:E; cbn [negb].
    + split; [ intros _ | reflexivity ]. split; [ exact Hr | apply Hl; reflexivity ].
    + split; [ discriminate | ]. intros (_ & HF). apply Hl in HF. discriminate HF.
  - cbn [negb]. split; [ discriminate | intros (H & _); contradiction ].
Qed.

(** X7.  A signature all of whose tensors pass [CompareDims] with batching
    against some configured dims supports batching under both batching
    predicates, the one of [FixBatchingSupport] and [ModelSupportsBatch]. *)
Theorem CompareDims_batching_gives_batch_support :
  forall (model_name : string) (model_ios : list TRITONTF_IOList),
    Forall (Forall (fun io =>
                      exists (dims : list Z) (compare_exact : bool),
                        CompareDims model_name (name_ io) (shape_ io) dims true
                          compare_exact = None))
           model_ios ->
    sig_supports_batch model_ios = true /\ ModelSupportsBatch model_ios = true.
Proof.
  intros mn model_ios H.
  assert (Hb : Forall (Forall (fun io => rank_ (shape_ io) <> 0%nat
                                         /\ dims_at (shape_ io) 0 = -1)) model_ios).
  { eapply List.Forall_impl; [ | exact H ]. intros ios Hios.
    eapply List.Forall_impl; [ | exact Hios ]. intros io (dims & ce & Hc).
    apply CompareDims_batching_None in Hc. destruct Hc as (Hr & Hd & _).
    split; assumption. }
  split.
  - rewrite sig_supports_batch_forallb. apply forallb_forall. intros ios Hin.
    apply forallb_forall. intros io Hio.
    rewrite List.Forall_forall in Hb. specialize (Hb ios Hin).
    rewrite List.Forall_forall in Hb. destruct (Hb io Hio) as (Hr & Hd).
    apply Nat.eqb_neq in Hr. rewrite Hr, Hd. reflexivity.
  - apply ModelSupportsBatch_spec.
    eapply List.Forall_impl; [ | exact Hb ]. intros ios Hios.
    eapply List.Forall_impl; [ | exact Hios ]. intros io (_ & Hd) _. exact Hd.
Qed.

Lemma CompareDims_batching_gives_batch_support_witness :
  sig_supports_batch [[batched_x_io]; []] = true
  /\ ModelSupportsBatch [[batched_x_io]; []] = true.
Proof.
  apply (CompareDims_batching_gives_batch_support "m" [[batched_x_io]; []]).
  repeat constructor. exists [3], true. reflexivity.
Defined.

(* ----------------------------------------------------------------- *)
(** ** The name maps of a SavedModel *)

Lemma name_map_fold (ios : TRITONTF_IOList) (name : string) :
  forall m : gmap string string,
    fold_left
      (fun m io =>
         match m !! name_ io with
         | Some _ => m
         | None => <[name_ io := inmodel_name_ io]> m
         end)
      ios m !! name
    = match m !! name with
      | Some v => Some v
      | None => inmodel_name_ <$> FindIOByName ios name
      end.
Proof.
  induction ios as [|io ios IH]; intros m; cbn [fold_left FindIOByName].
  - now destruct (m !! name).
  - rewrite IH. destruct (String.eqb_spec (name_ io) name) as [He|Hne].
    + rewrite He. destruct (m !! name) as [v|] eqn:Hm.
      * now rewrite Hm.
      * now rewrite lookup_insert_eq.
    + destruct (m !! name_ io); [ reflexivity | ].
      now rewrite lookup_insert_ne.
Qed.

(** X8.  The name map that the SavedModel validator fills maps a name to
    the in-model name of the first signature tensor that carries it (a
    later tensor of the same name does not overwrite the entry), so the
    lookup done per tensor in [ProcessRequests] yields that in-model name,
    and the name itself when the signature has no such tensor. *)
Theorem name_map_first_tensor :
  forall (ios : TRITONTF_IOList) (name : string),
    savedmodel.name_map ios !! name = inmodel_name_ <$> FindIOByName ios name
    /\ in_model_name (savedmodel.name_map ios) name
       = match FindIOByName ios name with
         | Some io => inmodel_name_ io
         | None => name
         end.
Proof.
  intros ios name.
  assert (H : savedmodel.name_map ios !! name = inmodel_name_ <$> FindIOByName ios name).
  { unfold savedmodel.name_map. rewrite name_map_fold. now rewrite lookup_empty. }
  split; [ exact H | ].
  unfold in_model_name. rewrite H. now destruct (FindIOByName ios name).
Qed.

(* ----------------------------------------------------------------- *)
(** ** Back-filled shapes against the comparison *)

Lemma dim_compatible_refl (ce : bool) (d : Z) : dim_compatible ce d d.
Proof. unfold dim_compatible. destruct ce; [ reflexivity | now right ]. Qed.

Lemma Forall2_dim_compatible_refl (ce : bool) (dims : list Z) :
  Forall2 (dim_compatible ce) dims dims.
Proof. induction dims; constructor; [ apply dim_compatible_refl | assumption ]. Qed.

(** X9.  A shape back-filled from configured dims passes [CompareDims]
    against those dims, in either mode, exactly when batching is disabled
    or the slot of the batch dimension, which the back-fill does not
    write, holds the wildcard. *)
Theorem backfill_shape_validates :
  forall (model_name tensor_name : string) (fresh : nat -> Z) (dims : list Z)
         (supports_batching compare_exact : bool),
    CompareDims model_name tensor_name (backfill_shape fresh dims supports_batching)
      dims supports_batching compare_exact = None
    <-> (supports_batching = true -> fresh 0%nat = WILDCARD_DIM).
Proof.
  intros mn tn fresh dims sb ce.
  destruct (backfill_shape_spec fresh dims sb) as (Hrank & Hwf & Hdims).
  pose proof (shape_dims_wf _ Hwf) as Hsd. rewrite Hdims in Hsd.
  destruct sb.
  - rewrite CompareDims_batching_None, CompareDims_plain_None, Hsd, Hrank.
    assert (Hd0 : dims_at (backfill_shape fresh dims true) 0 = fresh 0%nat).
    { unfold dims_at. now rewrite Hdims. }
    rewrite Hd0. cbn [app length]. split.
    + intros (_ & H & _) _. exact H.
    + intros H. specialize (H eq_refl).
      split; [ lia | ]. split; [ exact H | ]. split; [ lia | ].
      constructor; [ rewrite H; apply dim_compatible_refl | ].
      apply Forall2_dim_compatible_refl.
  - rewrite CompareDims_plain_None, Hsd, Hrank. cbn [app]. split.
    + intros _ H. discriminate H.
    + intros _. split; [ lia | apply Forall2_dim_compatible_refl ].
Qed.

Lemma backfill_shape_validates_witness :
  CompareDims "m" "x" (backfill_shape (fun _ => 7) [3; 5] false) [3; 5] false true = None
  /\ (CompareDims "m" "x" (backfill_shape (fun _ => 7) [3; 5] true) [3; 5] true true = None
      -> 7 = WILDCARD_DIM).
Proof.
  split.
  - apply (proj2 (backfill_shape_validates "m" "x" (fun _ => 7) [3; 5] false true)).
    discriminate.
  - intros H.
    apply (proj1 (backfill_shape_validates "m" "x" (fun _ => 7) [3; 5] true true) H).
    reflexivity.
Defined.

(* ----------------------------------------------------------------- *)
(** ** The GraphDef validator *)

Lemma first_error_None (checks : list (option TRITONSERVER_Error)) :
  graphdef.first_error checks = None <-> Forall (fun c => c = None) checks.
Proof.
  induction checks as [|[e|] checks IH]; cbn [graphdef.first_error].
  - split; [ constructor | reflexivity ].
  - split; [ discriminate | intros H; inversion H; discriminate ].
  - rewrite IH. split; [ now constructor | intros H; now inversion H ].
Qed.

Lemma first_error_map_None {A : Type} (f : A -> option TRITONSERVER_Error) (l : list A) :
  graphdef.first_error (map f l) = None <-> Forall (fun x => f x = None) l.
Proof.
  induction l as [|x l IH]; cbn [map graphdef.first_error].
  - split; [ constructor | reflexivity ].
  - destruct (f x) eqn:E.
    + split; [ discriminate | intros H; inversion H; congruence ].
    + rewrite IH. split; [ now constructor | intros H; now inversion H ].
Qed.

Lemma FindIOByName_None_names (ios : TRITONTF_IOList) (name : string) :
  FindIOByName ios name = None <-> ~ In name (map name_ ios).
Proof.
  rewrite FindIOByName_None, List.Forall_forall, in_map_iff. split.
  - intros H (io & Hn & Hin). exact (H io Hin Hn).
  - intros H io Hin Hn. apply H. now exists io.
Qed.

Lemma graphdef_ValidateSequenceControl_names (control : SequenceControl)
    (inputs inputs' : TRITONTF_IOList) :
  incl (map name_ inputs) (map name_ inputs') ->
  graphdef.ValidateSequenceControl control inputs = None ->
  graphdef.ValidateSequenceControl control inputs' = None.
Proof.
  intros Hincl. unfold graphdef.ValidateSequenceControl.
  destruct control as [err|[tensor_name dt]]; [ trivial | ].
  destruct (negb (String.eqb tensor_name "")); [ | trivial ].
  destruct (FindIOByName inputs tensor_name) eqn:E; [ | discriminate ].
  intros _. destruct (FindIOByName inputs' tensor_name) eqn:E'; [ reflexivity | ].
  exfalso. apply FindIOByName_None_names in E'. apply E', Hincl.
  destruct (in_dec string_dec tensor_name (map name_ inputs)) as [Hin|Hnot];
    [ exact Hin | ].
  apply FindIOByName_None_names in Hnot. congruence.
Qed.

Lemma io_names_incl (ios ios' : TRITONTF_IOList) :
  incl (map name_ ios) (map name_ ios') -> io_names ios ⊆ io_names ios'.
Proof.
  intros Hincl x. unfold io_names. rewrite !elem_of_list_to_set.
  rewrite !list_elem_of_In. apply Hincl.
Qed.

(** X10.  The GraphDef validator is monotone in the model's potential
    tensors: a configuration accepted for a model is accepted for every
    model that offers at least the same input and output names, whatever
    else it offers. *)
Theorem graphdef_validation_accepts_more_tensors :
  forall (model_state : BackendModel) (inputs outputs inputs' outputs' : TRITONTF_IOList),
    incl (map name_ inputs) (map name_ inputs') ->
    incl (map name_ outputs) (map name_ outputs') ->
    graphdef.ValidateTRITONTFModel model_state inputs outputs = None ->
    graphdef.ValidateTRITONTFModel model_state inputs' outputs' = None.
Proof.
  intros ms inputs outputs inputs' outputs' Hin Hout.
  pose proof (io_names_incl _ _ Hin) as Hsin.
  pose proof (io_names_incl _ _ Hout) as Hsout.
  unfold graphdef.ValidateTRITONTFModel. cbv zeta.
  destruct (Nat.ltb_spec (size (io_names inputs)) (length (cfg_input (bm_ModelConfig ms))))
    as [|Hsz]; [ discriminate | ].
  destruct (Nat.ltb_spec (size (io_names inputs')) (length (cfg_input (bm_ModelConfig ms))))
    as [Hsz'|_].
  { pose proof (subseteq_size _ _ Hsin). lia. }
  assert (Hseq :
    match cfg_sequence_batching (bm_ModelConfig ms) with
    | Some sb =>
        graphdef.first_error
          [ graphdef.ValidateSequenceControl (CONTROL_SEQUENCE_START sb) inputs;
            graphdef.ValidateSequenceControl (CONTROL_SEQUENCE_END sb) inputs;
            graphdef.ValidateSequenceControl (CONTROL_SEQUENCE_READY sb) inputs;
            graphdef.ValidateSequenceControl (CONTROL_SEQUENCE_CORRID sb) inputs ]
    | None => None
    end = None ->
    match cfg_sequence_batching (bm_ModelConfig ms) with
    | Some sb =>
        graphdef.first_error
          [ graphdef.ValidateSequenceControl (CONTROL_SEQUENCE_START sb) inputs';
            graphdef.ValidateSequenceControl (CONTROL_SEQUENCE_END sb) inputs';
            graphdef.ValidateSequenceControl (CONTROL_SEQUENCE_READY sb) inputs';
            graphdef.ValidateSequenceControl (CONTROL_SEQUENCE_CORRID sb) inputs' ]
    | None => None
    end = None).
  { destruct (cfg_sequence_batching (bm_ModelConfig ms)) as [sb|]; [ | trivial ].
    rewrite !first_error_None. intros H.
    inversion H as [|? ? H1 H']; subst. inversion H' as [|? ? H2 H'']; subst.
    inversion H'' as [|? ? H3 H''']; subst. inversion H''' as [|? ? H4 _]; subst.
    repeat constructor;
      eapply graphdef_ValidateSequenceControl_names; eassumption. }
  match goal with
  | |- match ?a with _ => _ end = None -> match ?b with _ => _ end = None =>
      destruct a eqn:Ea; [ discriminate | ]; rewrite (Hseq eq_refl)
  end.
  match goal with
  | |- match ?a with _ => _ end = None -> match ?b with _ => _ end = None =>
      destruct a eqn:Eins; [ discriminate | ];
      assert (Eins' : b = None)
  end.
  { rewrite first_error_map_None in Eins |- *.
    eapply List.Forall_impl; [ | exact Eins ]. intros io.
    unfold CheckAllowedModelInput.
    destruct (decide (cio_name io ∈ io_names inputs)) as [Hm|]; [ | discriminate ].
    intros _. destruct (decide (cio_name io ∈ io_names inputs')) as [|Hn];
      [ reflexivity | ]. exfalso. apply Hn, Hsin, Hm. }
  rewrite Eins'.
  intros Eouts. rewrite first_error_map_None in Eouts |- *.
  eapply List.Forall_impl; [ | exact Eouts ]. intros io.
  unfold CheckAllowedModelOutput.
  destruct (decide (cio_name io ∈ io_names outputs)) as [Hm|]; [ | discriminate ].
  intros _. destruct (decide (cio_name io ∈ io_names outputs')) as [|Hn];
    [ reflexivity | ]. exfalso. apply Hn, Hsout, Hm.
Qed.

Lemma graphdef_ValidateSequenceControl_ext (control : SequenceControl)
    (inputs inputs' : TRITONTF_IOList) :
  map name_ inputs = map name_ inputs' ->
  graphdef.ValidateSequenceControl control inputs
  = graphdef.ValidateSequenceControl control inputs'.
Proof.
  intros Hn. unfold graphdef.ValidateSequenceControl.
  destruct control as [err|[tensor_name dt]]; [ reflexivity | ].
  destruct (negb (String.eqb tensor_name "")); [ | reflexivity ].
  destruct (FindIOByName inputs tensor_name) eqn:E,
           (FindIOByName inputs' tensor_name) eqn:E'; try reflexivity; exfalso.
  - apply FindIOByName_None_names in E'. rewrite <- Hn in E'.
    apply FindIOByName_None_names in E'. congruence.
  - apply FindIOByName_None_names in E. rewrite Hn in E.
    apply FindIOByName_None_names in E. congruence.
Qed.

(** X11.  The GraphDef validator reads nothing of the model but the names
    of its tensors: two models whose input lists and output lists carry
    the same names in the same order get the same verdict, error text
    included, whatever shapes and datatypes they report. *)
Theorem graphdef_validation_reads_names_only :
  forall (model_state : BackendModel) (inputs outputs inputs' outputs' : TRITONTF_IOList),
    map name_ inputs = map name_ inputs' ->
    map name_ outputs = map name_ outputs' ->
    graphdef.ValidateTRITONTFModel model_state inputs outputs
    = graphdef.ValidateTRITONTFModel model_state inputs' outputs'.
Proof.
  intros ms inputs outputs inputs' outputs' Hin Hout.
  unfold graphdef.ValidateTRITONTFModel, io_names. cbv zeta.
  rewrite <- Hin, <- Hout.
  destruct (cfg_sequence_batching (bm_ModelConfig ms)) as [sb|]; [ | reflexivity ].
  now rewrite !(graphdef_ValidateSequenceControl_ext _ inputs inputs' Hin).
Qed.

Lemma graphdef_validation_reads_names_only_witness :
  graphdef.ValidateTRITONTFModel (one_input_model 0) [unknown_rank_io] []
  = graphdef.ValidateTRITONTFModel (one_input_model 0)
      [mkIO "x" "other" TRITONTF_TYPE_STRING (mkShape 1 [5])] [].
Proof.
  apply (graphdef_validation_reads_names_only (one_input_model 0)
           [unknown_rank_io] [] [mkIO "x" "other" TRITONTF_TYPE_STRING (mkShape 1 [5])] []);
    reflexivity.
Defined.

Lemma graphdef_validation_accepts_more_tensors_witness :
  graphdef.ValidateTRITONTFModel (one_input_model 0)
    [batched_x_io; mkIO "y" "y" TRITONTF_TYPE_INT32 (mkShape 0 [])] [unknown_rank_io]
  = None.
Proof.
  apply (graphdef_validation_accepts_more_tensors (one_input_model 0)
           [unknown_rank_io] []
           [batched_x_io; mkIO "y" "y" TRITONTF_TYPE_INT32 (mkShape 0 [])]
           [unknown_rank_io]).
  - intros n Hn. cbn in Hn |- *. tauto.
  - intros n Hn. destruct Hn.
  - vm_compute. reflexivity.
Defined.

(* ----------------------------------------------------------------- *)
(** ** Soundness of the SavedModel validator *)

Lemma backfilled_from_refl (ios : TRITONTF_IOList) : Forall2 backfilled_from ios ios.
Proof.
  induction ios; constructor; [ | assumption ].
  repeat split.
Qed.

Lemma FindIOByName_backfilled (a b : TRITONTF_IOList) (name : string) (io' : TRITONTF_IO) :
  Forall2 backfilled_from a b ->
  FindIOByName b name = Some io' ->
  exists io, FindIOByName a name = Some io /\ backfilled_from io io'.
Proof.
  induction 1 as [|x y a b HR HF IH]; cbn [FindIOByName]; [ discriminate | ].
  pose proof HR as (Hn & _). rewrite Hn.
  destruct (String.eqb (name_ x) name).
  - intros [= <-]. now exists x.
  - exact IH.
Qed.

Lemma set_shape_backfilled (a b : TRITONTF_IOList) (name : string)
    (io' : TRITONTF_IO) (shape : TRITONTF_Shape) :
  Forall2 backfilled_from a b ->
  FindIOByName b name = Some io' ->
  rank_ (shape_ io') = 0%nat ->
  Forall2 backfilled_from a (set_shape b name shape).
Proof.
  induction 1 as [|x y a b HR HF IH]; cbn [FindIOByName set_shape]; [ discriminate | ].
  destruct (String.eqb (name_ y) name).
  - intros [= <-] Hr. constructor; [ | exact HF ].
    destruct HR as (Hn & Hi & Hd & Hs). repeat split; cbn; try assumption.
    intros Hx. specialize (Hs Hx). subst y. contradiction.
  - intros Hf Hr. constructor; [ exact HR | now apply IH ].
Qed.

Lemma validate_all_inv
    (step : TRITONTF_IOList -> ConfigIO -> option TRITONSERVER_Error * TRITONTF_IOList)
    (I : TRITONTF_IOList -> Prop) (P : ConfigIO -> Prop) :
  (forall cur cur' io, I cur -> step cur io = (None, cur') -> I cur' /\ P io) ->
  forall (config_ios : list ConfigIO) (cur cur' : TRITONTF_IOList),
    I cur ->
    savedmodel.validate_all step cur config_ios = (None, cur') ->
    I cur' /\ Forall P config_ios.
Proof.
  intros Hstep. induction config_ios as [|io rest IH]; intros cur cur' HI;
    cbn [savedmodel.validate_all].
  - intros [= <-]. split; [ exact HI | constructor ].
  - destruct (step cur io) as [[err|] cur1] eqn:E; [ discriminate | ].
    intros H. destruct (Hstep _ _ _ HI E) as (HI1 & HP).
    destruct (IH _ _ HI1 H) as (HI' & HPs). split; [ exact HI' | now constructor ].
Qed.

Lemma validate_input_sound (fresh : nat -> Z) (model_state : BackendModel)
    (expected_inputs : gset string) (inputs cur cur' : TRITONTF_IOList) (io : ConfigIO) :
  Forall2 backfilled_from inputs cur ->
  savedmodel.validate_input fresh model_state expected_inputs cur io = (None, cur') ->
  Forall2 backfilled_from inputs cur'
  /\ exists input : TRITONTF_IO,
       FindIOByName inputs (cio_name io) = Some input
       /\ CompareDataType (data_type_ input) (cio_data_type io) = true
       /\ (rank_ (shape_ input) <> 0%nat ->
           if match cio_allow_ragged_batch io with Some b => b | None => false end
           then rank_ (shape_ input) = 1%nat /\ dims_at (shape_ input) 0 = WILDCARD_DIM
           else CompareDims (bm_Name model_state) (cio_name io) (shape_ input)
                  (config_dims io) (bm_MaxBatchSize model_state >? 0) false = None).
Proof.
  intros HR. unfold savedmodel.validate_input. cbv zeta.
  destruct (CheckAllowedModelInput io expected_inputs); [ discriminate | ].
  destruct (FindIOByName cur (cio_name io)) as [input'|] eqn:Ef; [ | discriminate ].
  destruct (FindIOByName_backfilled _ _ _ _ HR Ef) as (input & Hfo & Hb).
  pose proof Hb as (_ & _ & Hdt & Hsame).
  destruct (Nat.eqb_spec (rank_ (shape_ input')) 0) as [Hr0|Hr0]; cbn [negb].
  - destruct (negb (CompareDataType (data_type_ input') (cio_data_type io))) eqn:Ec;
      [ discriminate | ].
    intros [= <-]. split; [ now apply (set_shape_backfilled _ _ _ input') | ].
    exists input. split; [ exact Hfo | ]. split.
    + rewrite <- Hdt. now apply negb_false_iff in Ec.
    + intros Hx. specialize (Hsame Hx). subst input'. contradiction.
  - destruct (match cio_allow_ragged_batch io with Some b => b | None => false end) eqn:Erag.
    + destruct (Nat.eqb_spec (rank_ (shape_ input')) 1) as [Hr1|Hr1]; cbn [negb orb];
        [ | discriminate ].
      destruct (Z.eqb_spec (dims_at (shape_ input') 0) WILDCARD_DIM) as [Hd|Hd];
        cbn [negb]; [ | discriminate ].
      destruct (negb (CompareDataType (data_type_ input') (cio_data_type io))) eqn:Ec;
        [ discriminate | ].
      intros [= <-]. split; [ exact HR | ].
      exists input. split; [ exact Hfo | ]. split.
      * rewrite <- Hdt. now apply negb_false_iff in Ec.
      * intros Hx. specialize (Hsame Hx). subst input'. split; assumption.
    + destruct (CompareDims (bm_Name model_state) (cio_name io) (shape_ input')
                  (config_dims io) (bm_MaxBatchSize model_state >? 0) false) eqn:Ecd;
        [ discriminate | ].
      destruct (negb (CompareDataType (data_type_ input') (cio_data_type io))) eqn:Ec;
        [ discriminate | ].
      intros [= <-]. split; [ exact HR | ].
      exists input. split; [ exact Hfo | ]. split.
      * rewrite <- Hdt. now apply negb_false_iff in Ec.
      * intros Hx. specialize (Hsame Hx). subst input'. exact Ecd.
Qed.

Lemma validate_output_sound (fresh : nat -> Z) (model_state : BackendModel)
    (allowed_outputs : gset string) (outputs cur cur' : TRITONTF_IOList) (io : ConfigIO) :
  Forall2 backfilled_from outputs cur ->
  savedmodel.validate_output fresh model_state allowed_outputs cur io = (None, cur') ->
  Forall2 backfilled_from outputs cur'
  /\ exists output : TRITONTF_IO,
       FindIOByName outputs (cio_name io) = Some output
       /\ CompareDataType (data_type_ output) (cio_data_type io) = true
       /\ (rank_ (shape_ output) <> 0%nat ->
           bm_FindBatchOutput model_state (cio_name io) = false ->
           CompareDims (bm_Name model_state) (cio_name io) (shape_ output)
             (config_dims io) (bm_MaxBatchSize model_state >? 0) true = None).
Proof.
  intros HR. unfold savedmodel.validate_output. cbv zeta.
  destruct (CheckAllowedModelOutput io allowed_outputs); [ discriminate | ].
  destruct (FindIOByName cur (cio_name io)) as [output'|] eqn:Ef; [ | discriminate ].
  destruct (FindIOByName_backfilled _ _ _ _ HR Ef) as (output & Hfo & Hb).
  pose proof Hb as (_ & _ & Hdt & Hsame).
  destruct (Nat.eqb_spec (rank_ (shape_ output')) 0) as [Hr0|Hr0]; cbn [negb].
  - destruct (negb (CompareDataType (data_type_ output') (cio_data_type io))) eqn:Ec;
      [ discriminate | ].
    intros [= <-]. split; [ now apply (set_shape_backfilled _ _ _ output') | ].
    exists output. split; [ exact Hfo | ]. split.
    + rewrite <- Hdt. now apply negb_false_iff in Ec.
    + intros Hx. specialize (Hsame Hx). subst output'. contradiction.
  - destruct (bm_FindBatchOutput model_state (cio_name io)) eqn:Ebo; cbn [negb].
    + destruct (negb (CompareDataType (data_type_ output') (cio_data_type io))) eqn:Ec;
        [ discriminate | ].
      intros [= <-]. split; [ exact HR | ].
      exists output. split; [ exact Hfo | ]. split.
      * rewrite <- Hdt. now apply negb_false_iff in Ec.
      * intros _ H. discriminate H.
    + destruct (CompareDims (bm_Name model_state) (cio_name io) (shape_ output')
                  (config_dims io) (bm_MaxBatchSize model_state >? 0) true) eqn:Ecd;
        [ discriminate | ].
      destruct (negb (CompareDataType (data_type_ output') (cio_data_type io))) eqn:Ec;
        [ discriminate | ].
      intros [= <-]. split; [ exact HR | ].
      exists output. split; [ exact Hfo | ]. split.
      * rewrite <- Hdt. now apply negb_false_iff in Ec.
      * intros Hx _. specialize (Hsame Hx). subst output'. exact Ecd.
Qed.

(** X12.  Soundness of the SavedModel validator.  When it accepts, every
    configured input and output names a tensor of the signature whose
    datatype is the configured one; a configured input whose tensor
    reports a shape has the shape [-1] if it is ragged and a shape that
    [CompareDims] accepts leniently otherwise; a configured output whose
    tensor reports a shape and is no batch output has a shape that
    [CompareDims] accepts exactly; and the signature is left as it was
    except for the shapes of tensors that reported rank 0. *)
Theorem savedmodel_validation_sound :
  forall (fresh : nat -> Z) (model_state : BackendModel)
         (inputs outputs inputs' outputs' : TRITONTF_IOList),
    savedmodel.ValidateTRITONTFModel fresh model_state inputs outputs
    = (None, (inputs', outputs')) ->
    Forall
      (fun io =>
         exists input : TRITONTF_IO,
           FindIOByName inputs (cio_name io) = Some input
           /\ CompareDataType (data_type_ input) (cio_data_type io) = true
           /\ (rank_ (shape_ input) <> 0%nat ->
               if match cio_allow_ragged_batch io with Some b => b | None => false end
               then rank_ (shape_ input) = 1%nat
                    /\ dims_at (shape_ input) 0 = WILDCARD_DIM
               else CompareDims (bm_Name model_state) (cio_name io) (shape_ input)
                      (config_dims io) (bm_MaxBatchSize model_state >? 0) false = None))
      (cfg_input (bm_ModelConfig model_state))
    /\ Forall
         (fun io =>
            exists output : TRITONTF_IO,
              FindIOByName outputs (cio_name io) = Some output
              /\ CompareDataType (data_type_ output) (cio_data_type io) = true
              /\ (rank_ (shape_ output) <> 0%nat ->
                  bm_FindBatchOutput model_state (cio_name io) = false ->
                  CompareDims (bm_Name model_state) (cio_name io) (shape_ output)
                    (config_dims io) (bm_MaxBatchSize model_state >? 0) true = None))
         (cfg_output (bm_ModelConfig model_state))
    /\ Forall2 backfilled_from inputs inputs'
    /\ Forall2 backfilled_from outputs outputs'.
Proof.
  intros fresh ms inputs outputs inputs' outputs'.
  unfold savedmodel.ValidateTRITONTFModel. cbv zeta.
  destruct (savedmodel.sequence_controls ms inputs) as [err|controls]; [ discriminate | ].
  destruct (negb (Nat.eqb (size (io_names inputs))
                    (savedmodel.expected_input_cnt (bm_ModelConfig ms) controls)));
    [ discriminate | ].
  destruct (savedmodel.validate_all
              (savedmodel.validate_input fresh ms (io_names inputs)) inputs
              (cfg_input (bm_ModelConfig ms))) as [[err|] ins] eqn:Ein; [ discriminate | ].
  destruct (savedmodel.validate_all
              (savedmodel.validate_output fresh ms (io_names outputs)) outputs
              (cfg_output (bm_ModelConfig ms))) as [[err|] outs] eqn:Eout; [ discriminate | ].
  intros [= <- <-].
  destruct (validate_all_inv _ (Forall2 backfilled_from inputs) _
              (fun cur cur' io HI E =>
                 validate_input_sound fresh ms (io_names inputs) inputs cur cur' io HI E)
              _ _ _ (backfilled_from_refl inputs) Ein) as (HIin & HPin).
  destruct (validate_all_inv _ (Forall2 backfilled_from outputs) _
              (fun cur cur' io HI E =>
                 validate_output_sound fresh ms (io_names outputs) outputs cur cur' io HI E)
              _ _ _ (backfilled_from_refl outputs) Eout) as (HIout & HPout).
  repeat split; assumption.
Qed.

Lemma savedmodel_validation_sound_witness :
  Forall
    (fun io =>
       exists input : TRITONTF_IO,
         FindIOByName [batched_x_io] (cio_name io) = Some input
         /\ CompareDataType (data_type_ input) (cio_data_type io) = true
         /\ (rank_ (shape_ input) <> 0%nat ->
             if match cio_allow_ragged_batch io with Some b => b | None => false end
             then rank_ (shape_ input) = 1%nat
                  /\ dims_at (shape_ input) 0 = WILDCARD_DIM
             else CompareDims (bm_Name (one_input_model 4)) (cio_name io) (shape_ input)
                    (config_dims io) (bm_MaxBatchSize (one_input_model 4) >? 0) false
                  = None))
    (cfg_input (bm_ModelConfig (one_input_model 4))).
Proof.
  refine (proj1 (savedmodel_validation_sound (fun _ => 0) (one_input_model 4)
                   [batched_x_io] [] [batched_x_io] [] _)).
  vm_compute. reflexivity.
Defined.

(* ================================================================= *)
(** * Contiguous input content *)

Lemma InputBuffer_at (pre : list (TRITONSERVER_Error + InputBuffer))
    (b : InputBuffer) (rest : list (TRITONSERVER_Error + InputBuffer)) :
  TRITONBACKEND_InputBufferForHostPolicy (pre ++ inr b :: rest) (length pre) = inr b.
Proof.
  unfold TRITONBACKEND_InputBufferForHostPolicy.
  rewrite nth_error_app2 by lia. now rewrite Nat.sub_diag.
Qed.

Lemma buffer_bytes_length (b : InputBuffer) :
  buffer_present b -> length (buffer_bytes b) = src_byte_size b.
Proof.
  intros (mem & Hp & Hl). unfold buffer_bytes. rewrite Hp.
  rewrite length_firstn. lia.
Qed.

Lemma concat_buffer_bytes_length (bs : list InputBuffer) :
  Forall buffer_present bs ->
  length (concat (map buffer_bytes bs)) = list_sum (map src_byte_size bs).
Proof.
  induction 1 as [|x l Hx Hl IH]; [ reflexivity | ].
  cbn [map concat]. rewrite length_app, IH, (buffer_bytes_length x Hx). reflexivity.
Qed.

Lemma scan_buffers_present (bs : list InputBuffer) :
  forall (pre : list (TRITONSERVER_Error + InputBuffer))
         (chunk_count : nat) (type_mismatch : bool) (total : nat),
    Forall buffer_present bs ->
    scan_buffers (pre ++ map inr bs) (length pre) (length bs) chunk_count
      type_mismatch total
    = inr ((chunk_count + length bs)%nat,
           type_mismatch
           || existsb (fun b => bool_decide (src_memory_type b = TRITONSERVER_MEMORY_GPU)) bs,
           (total + list_sum (map src_byte_size bs))%nat).
Proof.
  induction bs as [|b bs IH]; intros pre cc tm total Hall; cbn [length map scan_buffers].
  - cbn. now rewrite !Nat.add_0_r, orb_false_r.
  - rewrite InputBuffer_at.
    inversion Hall as [|? ? (mem & Hp & Hl) Hall']; subst.
    rewrite Hp.
    specialize (IH (pre ++ [inr b])). rewrite <- app_assoc in IH. cbn [app] in IH.
    replace (S (length pre)) with (length (pre ++ [inr b : TRITONSERVER_Error + InputBuffer]))
      by (rewrite length_app; cbn; lia).
    rewrite IH by assumption. cbn [existsb map]. f_equal. f_equal; [ f_equal | ].
    + lia.
    + now rewrite orb_assoc.
    + change (list_sum (src_byte_size b :: map src_byte_size bs))
        with (src_byte_size b + list_sum (map src_byte_size bs))%nat. lia.
Qed.

Lemma list_inserts_middle {A : Type} (pre old post k : list A) :
  length k = length old ->
  list_inserts (length pre) k (pre ++ old ++ post) = pre ++ k ++ post.
Proof.
  intros Hl. replace (length pre) with (length pre + 0)%nat by lia.
  rewrite list_inserts_app_r. f_equal. now apply list_inserts_0_r.
Qed.

Lemma copy_chunks_present
    (CopyBuffer : InputBuffer -> option TRITONSERVER_Error * bool)
    (bs : list InputBuffer) :
  forall (pre : list (TRITONSERVER_Error + InputBuffer))
         (done old post : list byte) (cuda : bool)
         (block' : list byte) (cuda' : bool),
    Forall buffer_present bs ->
    length old = list_sum (map src_byte_size bs) ->
    copy_chunks CopyBuffer (pre ++ map inr bs) (length pre) (length bs)
      (done ++ old ++ post) (length done) cuda
    = (None, block', cuda') ->
    block' = done ++ concat (map buffer_bytes bs) ++ post
    /\ cuda' = cuda || existsb (fun b => snd (CopyBuffer b)) bs.
Proof.
  induction bs as [|b bs IH]; intros pre done old post cuda block' cuda' Hall Hold;
    cbn [length map copy_chunks].
  - destruct old; [ | discriminate Hold ].
    intros [= <- <-]. cbn. now rewrite orb_false_r.
  - rewrite InputBuffer_at.
    inversion Hall as [|? ? Hb Hall']; subst.
    pose proof (buffer_bytes_length b Hb) as Hbl.
    change (list_sum (map src_byte_size (b :: bs)))
      with (src_byte_size b + list_sum (map src_byte_size bs))%nat in Hold.
    destruct (CopyBuffer b) as [[err|] cuda_used] eqn:Ecb; [ discriminate | ].
    rewrite <- (firstn_skipn (src_byte_size b) old), <- app_assoc.
    rewrite list_inserts_middle by (rewrite Hbl, length_firstn; lia).
    specialize (IH (pre ++ [inr b]) (done ++ buffer_bytes b)
                  (skipn (src_byte_size b) old) post (cuda || cuda_used) block' cuda').
    rewrite <- !app_assoc in IH. cbn [app] in IH.
    replace (S (length pre)) with (length (pre ++ [inr b : TRITONSERVER_Error + InputBuffer]))
      by (rewrite length_app; cbn; lia).
    replace (length done + src_byte_size b)%nat with (length (done ++ buffer_bytes b))
      by (rewrite length_app; lia).
    intros H. apply IH in H; [ | assumption | rewrite length_skipn; lia ].
    destruct H as (-> & ->). cbn [map concat existsb]. rewrite Ecb. cbn [snd].
    split; [ now rewrite <- !app_assoc | now rewrite orb_assoc ].
Qed.

(** X13.  When every buffer of an input is there, a call of
    [GetContiguousInputContent] that succeeds yields the bytes of the
    buffers one behind the other, in buffer order, and their total size;
    it reports a CUDA copy only if [CopyBuffer] did so for one of the
    buffers, and does not allocate for an input of at most one buffer in
    CPU memory. *)
Theorem GetContiguousInputContent_joins_buffers :
  forall (CopyBuffer : InputBuffer -> option TRITONSERVER_Error * bool)
         (fresh : nat -> byte) (buffers : list InputBuffer) (c : ContiguousContent),
    Forall buffer_present buffers ->
    GetContiguousInputContent CopyBuffer fresh (map inr buffers) (length buffers)
    = (None, c) ->
    content_bytes c = concat (map buffer_bytes buffers)
    /\ content_byte_size c = list_sum (map src_byte_size buffers)
    /\ (cuda_copy c = true -> exists b, In b buffers /\ snd (CopyBuffer b) = true)
    /\ ((length buffers <= 1)%nat ->
        Forall (fun b => src_memory_type b <> TRITONSERVER_MEMORY_GPU) buffers ->
        contiguous_buffer c = None /\ cuda_copy c = false).
Proof.
  intros CopyBuffer fresh bs c Hall. unfold GetContiguousInputContent.
  pose proof (scan_buffers_present bs [] 0 false 0 Hall) as Hscan.
  cbn [app length Nat.add orb] in Hscan. rewrite Hscan.
  destruct bs as [|b bs].
  { cbn. intros [= <-]. cbn. repeat split; try discriminate. }
  cbn [length Nat.eqb].
  destruct (Nat.eqb (length bs) 0
            && negb (existsb (fun b0 => bool_decide (src_memory_type b0 = TRITONSERVER_MEMORY_GPU))
                       (b :: bs))) eqn:Edirect.
  - apply andb_true_iff in Edirect. destruct Edirect as [Hlen Hgpu].
    apply Nat.eqb_eq in Hlen. destruct bs; [ | discriminate Hlen ].
    cbn [map]. change (TRITONBACKEND_InputBufferForHostPolicy [inr b] 0) with
      (inr b : TRITONSERVER_Error + InputBuffer).
    intros [= <-]. unfold content_bytes, buffer_bytes. cbn.
    rewrite app_nil_r, Nat.add_0_r.
    repeat split; try discriminate; reflexivity.
  - cbv zeta.
    destruct (copy_chunks CopyBuffer (map inr (b :: bs)) 0 (S (length bs))
                (map fresh (seq 0 (list_sum (map src_byte_size (b :: bs))))) 0 false)
      as [[[err|] block'] cuda'] eqn:Ecopy; [ discriminate | ].
    intros [= <-].
    pose proof (copy_chunks_present CopyBuffer (b :: bs) [] []
                  (map fresh (seq 0 (list_sum (map src_byte_size (b :: bs))))) []
                  false block' cuda' Hall) as Hc.
    cbn [app length] in Hc. rewrite app_nil_r in Hc.
    destruct (Hc ltac:(now rewrite length_map, length_seq) Ecopy) as (Hblock & Hcuda).
    rewrite app_nil_r in Hblock. cbn [orb] in Hcuda.
    assert (Hlen : length block' = list_sum (map src_byte_size (b :: bs))).
    { rewrite Hblock. now apply concat_buffer_bytes_length. }
    unfold content_bytes. cbn [content content_byte_size contiguous_buffer cuda_copy].
    split; [ rewrite firstn_all2; [ exact Hblock | rewrite Hlen; apply Nat.eq_le_incl; reflexivity ] | ].
    split; [ reflexivity | ].
    split.
    + rewrite Hcuda. intros He. apply existsb_exists in He.
      destruct He as (x & Hin & Hx). now exists x.
    + intros Hle Hcpu. exfalso.
      destruct bs; [ | cbn in Hle; lia ].
      inversion Hcpu as [|? ? Hb _]; subst.
      cbn in Edirect. rewrite bool_decide_eq_false_2 in Edirect by exact Hb.
      discriminate Edirect.
Qed.

Lemma GetContiguousInputContent_joins_buffers_witness :
  content_bytes
    (snd (GetContiguousInputContent (fun _ => (None, false)) (fun _ => "000"%byte)
            (map inr [ mkBuffer (Some ["a"; "b"; "c"]%byte) 2 TRITONSERVER_MEMORY_CPU;
                       mkBuffer (Some ["d"]%byte) 1 TRITONSERVER_MEMORY_GPU ])
            2))
  = ["a"; "b"; "d"]%byte.
Proof.
  refine (proj1 (GetContiguousInputContent_joins_buffers (fun _ => (None, false))
                   (fun _ => "000"%byte)
                   [ mkBuffer (Some ["a"; "b"; "c"]%byte) 2 TRITONSERVER_MEMORY_CPU;
                     mkBuffer (Some ["d"]%byte) 1 TRITONSERVER_MEMORY_GPU ]
                   _ _ _)).
  - repeat constructor; eexists; (split; [ reflexivity | cbn; lia ]).
  - reflexivity.
Defined.

Lemma copy_chunks_succeeds
    (CopyBuffer : InputBuffer -> option TRITONSERVER_Error * bool)
    (bs : list InputBuffer) :
  forall (pre : list (TRITONSERVER_Error + InputBuffer))
         (block : list byte) (offset : nat) (cuda : bool),
    Forall (fun b => fst (CopyBuffer b) = None) bs ->
    exists (block' : list byte) (cuda' : bool),
      copy_chunks CopyBuffer (pre ++ map inr bs) (length pre) (length bs) block offset cuda
      = (None, block', cuda').
Proof.
  induction bs as [|b bs IH]; intros pre block offset cuda Hok; cbn [length map copy_chunks].
  - now exists block, cuda.
  - rewrite InputBuffer_at. inversion Hok as [|? ? Hb Hok']; subst.
    destruct (CopyBuffer b) as [[err|] cuda_used]; [ discriminate Hb | ].
    specialize (IH (pre ++ [inr b])). rewrite <- app_assoc in IH. cbn [app] in IH.
    replace (S (length pre)) with (length (pre ++ [inr b : TRITONSERVER_Error + InputBuffer]))
      by (rewrite length_app; cbn; lia).
    now apply IH.
Qed.

Lemma GetContiguousInputContent_succeeds
    (CopyBuffer : InputBuffer -> option TRITONSERVER_Error * bool)
    (fresh : nat -> byte) (buffers : list InputBuffer) :
  Forall buffer_present buffers ->
  Forall (fun b => fst (CopyBuffer b) = None) buffers ->
  exists c : ContiguousContent,
    GetContiguousInputContent CopyBuffer fresh (map inr buffers) (length buffers)
    = (None, c).
Proof.
  intros Hall Hok. unfold GetContiguousInputContent.
  pose proof (scan_buffers_present buffers [] 0 false 0 Hall) as Hscan.
  cbn [app length Nat.add orb] in Hscan. rewrite Hscan.
  destruct (Nat.eqb (length buffers) 0); [ eexists; reflexivity | ].
  destruct (Nat.eqb (length buffers) 1 && _) eqn:E.
  - apply andb_true_iff in E. destruct E as [Hlen _]. apply Nat.eqb_eq in Hlen.
    destruct buffers as [|b [|? ?]]; try discriminate Hlen.
    eexists. reflexivity.
  - cbv zeta.
    destruct (copy_chunks_succeeds CopyBuffer buffers []
                (map fresh (seq 0 (list_sum (map src_byte_size buffers)))) 0 false Hok)
      as (block' & cuda' & Hc).
    cbn [app length] in Hc. rewrite Hc. eexists. reflexivity.
Qed.

(** X14.  A string payload may arrive cut into buffers at any byte, a
    length header included: when every buffer is there and can be copied,
    [SetStringInputTensor] stores exactly the strings (each shorter than
    2^32 bytes) whose length-prefixed encoding the buffers hold one behind
    the other, and fails no response. *)
Theorem split_payload_decodes :
  forall (gpu : bool) (CopyBuffer : InputBuffer -> option TRITONSERVER_Error * bool)
         (fresh : nat -> byte) (buffers : list InputBuffer)
         (strs dpre dmid dpost : list (list byte))
         (name : string) (shape : list Z) (response : option Response),
    Forall buffer_present buffers ->
    Forall (fun b => fst (CopyBuffer b) = None) buffers ->
    concat (map buffer_bytes buffers) = encode_strings strs ->
    Forall (fun s => Z.of_nat (length s) < 2 ^ 32) strs ->
    length dmid = length strs ->
    fst (SetStringInputTensor gpu (dpre ++ dmid ++ dpost)
           (buffered_string_input name shape CopyBuffer fresh buffers)
           name (length strs) (length dpre) response)
    = mkSIS (dpre ++ strs ++ dpost) response [].
Proof.
  intros gpu CopyBuffer fresh buffers strs dpre dmid dpost name shape response
    Hall Hok Hcat Hlt Hmid.
  destruct (GetContiguousInputContent_succeeds CopyBuffer fresh buffers Hall Hok)
    as (c & Hc).
  assert (Hbytes : content_bytes c = encode_strings strs).
  { unfold GetContiguousInputContent in Hc.
    pose proof (scan_buffers_present buffers [] 0 false 0 Hall) as Hscan.
    cbn [app length Nat.add orb] in Hscan. rewrite Hscan in Hc.
    rewrite <- Hcat. clear Hcat.
    destruct buffers as [|b bs].
    { cbn in Hc. injection Hc as <-. reflexivity. }
    cbn [length Nat.eqb] in Hc.
    destruct (Nat.eqb (length bs) 0 && _) eqn:Edirect.
    - apply andb_true_iff in Edirect. destruct Edirect as [Hlen _].
      apply Nat.eqb_eq in Hlen. destruct bs; [ | discriminate Hlen ].
      cbn in Hc. injection Hc as <-. unfold content_bytes, buffer_bytes. cbn.
      now rewrite app_nil_r.
    - cbv zeta in Hc.
      destruct (copy_chunks CopyBuffer (map inr (b :: bs)) 0 (S (length bs))
                  (map fresh (seq 0 (list_sum (map src_byte_size (b :: bs))))) 0 false)
        as [[[err|] block'] cuda'] eqn:Ecopy; [ discriminate | ].
      injection Hc as <-.
      pose proof (copy_chunks_present CopyBuffer (b :: bs) [] []
                    (map fresh (seq 0 (list_sum (map src_byte_size (b :: bs))))) []
                    false block' cuda' Hall) as Hcp.
      cbn [app length] in Hcp. rewrite app_nil_r in Hcp.
      destruct (Hcp ltac:(now rewrite length_map, length_seq) Ecopy) as (Hblock & _).
      rewrite app_nil_r in Hblock.
      unfold content_bytes. cbn [content content_byte_size].
      rewrite firstn_all2; [ exact Hblock | ].
      rewrite Hblock, concat_buffer_bytes_length by assumption.
      apply Nat.eq_le_incl. reflexivity. }
  destruct (SetStringInputTensor_outcome gpu name (length strs) (encode_strings strs)
              strs false (buffered_string_input name shape CopyBuffer fresh buffers)
              dpre dmid dpost response) as (evs & Heq & Hevs).
  - apply (payload_complete _ _ strs []);
      [ now rewrite app_nil_r | cbn; lia | reflexivity | exact Hlt ].
  - unfold buffered_string_input. cbv zeta. cbn [in_content]. rewrite Hc.
    cbn [input_content]. now rewrite Hbytes.
  - exact Hmid.
  - discriminate.
  - rewrite Heq, Hevs. reflexivity.
Qed.

Lemma split_payload_decodes_witness :
  fst (SetStringInputTensor true ([[]] ++ [[]; []] ++ [])
         (buffered_string_input "IN" [2] (fun _ => (None, true)) (fun _ => "000"%byte)
            [ mkBuffer (Some [Byte.x02; Byte.x00]) 2 TRITONSERVER_MEMORY_CPU;
              mkBuffer (Some [Byte.x00; Byte.x00; "h"; "i"; Byte.x00; Byte.x00]%byte) 6
                TRITONSERVER_MEMORY_GPU;
              mkBuffer (Some [Byte.x00; Byte.x00]) 2 TRITONSERVER_MEMORY_CPU ])
         "IN" (length [ ["h"; "i"]%byte; [] ]) (length [[] : list byte]) (Some 0%nat))
  = mkSIS ([[]] ++ [ ["h"; "i"]%byte; [] ] ++ []) (Some 0%nat) [].
Proof.
  refine (split_payload_decodes true (fun _ => (None, true)) (fun _ => "000"%byte)
            [ mkBuffer (Some [Byte.x02; Byte.x00]) 2 TRITONSERVER_MEMORY_CPU;
              mkBuffer (Some [Byte.x00; Byte.x00; "h"; "i"; Byte.x00; Byte.x00]%byte) 6
                TRITONSERVER_MEMORY_GPU;
              mkBuffer (Some [Byte.x00; Byte.x00]) 2 TRITONSERVER_MEMORY_CPU ]
            [ ["h"; "i"]%byte; [] ] [[]] [[]; []] [] "IN" [2] (Some 0%nat) _ _ _ _ _).
  - repeat constructor; eexists; (split; [ reflexivity | cbn; lia ]).
  - repeat constructor.
  - reflexivity.
  - repeat constructor; cbn; lia.
  - reflexivity.
Defined.

(* ================================================================= *)
(** * Further properties of the string codec *)

Lemma sis_respond_tensor (st : StringInputState) (e : TRITONSERVER_Error) :
  sis_tensor (sis_respond st e) = sis_tensor st.
Proof. unfold sis_respond. now destruct (RESPOND_AND_SET_NULL_IF_ERROR _ _). Qed.

Lemma TensorSetString_frame (tensor : list (list byte)) (idx : nat)
    (cstr : list byte) (len i : nat) :
  length (TRITONTF_TensorSetString tensor idx cstr len) = length tensor
  /\ (i <> idx -> nth i (TRITONTF_TensorSetString tensor idx cstr len) [] = nth i tensor []).
Proof.
  unfold TRITONTF_TensorSetString. split; [ apply length_insert | ].
  intros Hne. apply nth_insert_other. congruence.
Qed.

Lemma FillStringTensor_frame (tensor : list (list byte)) (idx cnt i : nat) :
  length (FillStringTensor tensor idx cnt) = length tensor
  /\ ((forall c, (c < cnt)%nat -> (idx + c)%nat <> i) ->
      nth i (FillStringTensor tensor idx cnt) [] = nth i tensor []).
Proof.
  unfold FillStringTensor.
  enough (forall (l : list nat) (t : list (list byte)),
    length (fold_left (fun t c => TRITONTF_TensorSetString t (idx + c) [] 0) l t) = length t
    /\ (Forall (fun c => (idx + c)%nat <> i) l ->
        nth i (fold_left (fun t c => TRITONTF_TensorSetString t (idx + c) [] 0) l t) []
        = nth i t [])) as H.
  { destruct (H (seq 0 cnt) tensor) as (Hl & Hn). split; [ exact Hl | ].
    intros Hc. apply Hn. apply List.Forall_forall. intros c Hin.
    apply in_seq in Hin. apply Hc. lia. }
  induction l as [|c l IH]; intros t; cbn [fold_left]; [ now split | ].
  destruct (IH (TRITONTF_TensorSetString t (idx + c) [] 0)) as (Hl & Hn).
  destruct (TensorSetString_frame t (idx + c) [] 0 i) as (Hl1 & Hn1).
  split; [ congruence | ].
  intros HF. inversion HF as [|? ? Hc HF']; subst.
  rewrite Hn by assumption. apply Hn1. congruence.
Qed.

Lemma string_input_loop_frame (name : string) (cnt off : nat) :
  forall (fuel : nat) (content : list byte) (idx : nat) (st st' : StringInputState)
         (idx' : nat) (early : bool),
    string_input_loop fuel name cnt off content idx st = Some (st', idx', early) ->
    length (sis_tensor st') = length (sis_tensor st)
    /\ forall i : nat, (i < off \/ off + cnt <= i)%nat ->
                       nth i (sis_tensor st') [] = nth i (sis_tensor st) [].
Proof.
  induction fuel as [|fuel IH]; intros content idx st st' idx' early;
    cbn [string_input_loop].
  - destruct (length content <? 4)%nat; [ | discriminate ].
    intros [= <- <- <-]. now split.
  - destruct (length content <? 4)%nat.
    { intros [= <- <- <-]. now split. }
    destruct (Nat.leb_spec cnt idx) as [Hle|Hlt].
    { intros [= <- <- <-]. unfold sis_fill. cbn [sis_tensor]. rewrite sis_respond_tensor.
      split; [ apply (FillStringTensor_frame _ _ _ 0%nat) | ].
      intros i Hi. apply FillStringTensor_frame. intros c Hc. lia. }
    destruct (length (skipn 4 content) <? read_uint32 content)%nat.
    { intros [= <- <- <-]. unfold sis_fill. cbn [sis_tensor]. rewrite sis_respond_tensor.
      split; [ apply (FillStringTensor_frame _ _ _ 0%nat) | ].
      intros i Hi. apply FillStringTensor_frame. intros c Hc. lia. }
    intros H. apply IH in H. cbn [sis_tensor] in H. destruct H as (Hl & Hn).
    destruct (TensorSetString_frame (sis_tensor st) (off + idx) (skipn 4 content)
                (read_uint32 content) 0) as (Hl1 & _).
    split; [ congruence | ].
    intros i Hi. rewrite Hn by exact Hi.
    apply TensorSetString_frame. lia.
Qed.

Lemma string_input_loop_idx (name : string) (cnt off : nat) :
  forall (fuel : nat) (content : list byte) (idx : nat) (st st' : StringInputState)
         (idx' : nat) (early : bool),
    (idx <= cnt)%nat ->
    string_input_loop fuel name cnt off content idx st = Some (st', idx', early) ->
    (idx' <= cnt)%nat.
Proof.
  induction fuel as [|fuel IH]; intros content idx st st' idx' early Hidx;
    cbn [string_input_loop].
  - destruct (length content <? 4)%nat; [ | discriminate ].
    now intros [= <- <- <-].
  - destruct (length content <? 4)%nat; [ now intros [= <- <- <-] | ].
    destruct (Nat.leb_spec cnt idx) as [Hle|Hlt]; [ now intros [= <- <- <-] | ].
    destruct (length (skipn 4 content) <? read_uint32 content)%nat;
      [ now intros [= <- <- <-] | ].
    apply IH. lia.
Qed.

(** X15.  Whatever bytes a request sends for a string input,
    [SetStringInputTensor] keeps the batched tensor at its size and writes
    no element outside the span of the request, the [request_element_cnt]
    elements from [tensor_offset] on. *)
Theorem SetStringInputTensor_stays_in_span :
  forall (gpu : bool) (tensor : list (list byte)) (input : TRITONBACKEND_Input) (name : string)
         (request_element_cnt tensor_offset : nat) (response : option Response),
    length (sis_tensor (fst (SetStringInputTensor gpu tensor input name request_element_cnt
                               tensor_offset response)))
    = length tensor
    /\ forall i : nat,
         (i < tensor_offset \/ tensor_offset + request_element_cnt <= i)%nat ->
         nth i (sis_tensor (fst (SetStringInputTensor gpu tensor input name
                                   request_element_cnt tensor_offset response))) []
         = nth i tensor [].
Proof.
  intros gpu tensor input name cnt off response. unfold SetStringInputTensor.
  destruct (in_content input) as [err|content].
  - destruct (RESPOND_AND_SET_NULL_IF_ERROR _ _) as [resp evs].
    cbn [fst sis_fill sis_tensor]. unfold sis_fill. cbn [sis_tensor].
    split; [ apply (FillStringTensor_frame _ _ _ 0%nat) | ].
    intros i Hi. apply FillStringTensor_frame. intros c Hc. lia.
  - destruct (string_input_loop (length content) name cnt off content 0
                (mkSIS tensor response [])) as [[[st' idx'] early]|] eqn:E;
      [ | now split ].
    pose proof (string_input_loop_frame _ _ _ _ _ _ _ _ _ _ E) as (Hl & Hn).
    pose proof (string_input_loop_idx name cnt off _ _ 0%nat _ _ _ _ (Nat.le_0_l cnt) E) as Hidx.
    cbn [sis_tensor] in Hl, Hn.
    destruct early; [ now split | ].
    destruct (bool_decide (sis_response st' <> None) && negb (Nat.eqb idx' cnt));
      [ | now split ].
    cbn [fst]. unfold sis_fill. cbn [sis_tensor]. rewrite sis_respond_tensor.
    destruct (FillStringTensor_frame (sis_tensor st') (off + idx') (cnt - idx') 0)
      as (Hl2 & _).
    split; [ congruence | ].
    intros i Hi. rewrite <- Hn by exact Hi.
    apply FillStringTensor_frame. intros c Hc. lia.
Qed.

(** X16.  Whatever bytes a request sends for a string input,
    [SetStringInputTensor] sends at most one response: nothing is sent
    and the response slot is left as it was, or the slot held a response,
    one error is sent on it and the slot is nullptr afterwards.  A slot
    that is nullptr stays nullptr and nothing is sent. *)
Theorem SetStringInputTensor_sends_at_most_once :
  forall (gpu : bool) (tensor : list (list byte)) (input : TRITONBACKEND_Input) (name : string)
         (request_element_cnt tensor_offset : nat) (response : option Response),
    (sis_response (fst (SetStringInputTensor gpu tensor input name request_element_cnt
                          tensor_offset response)) = response
     /\ sis_trace (fst (SetStringInputTensor gpu tensor input name request_element_cnt
                          tensor_offset response)) = [])
    \/ (exists (r : Response) (e : TRITONSERVER_Error),
          response = Some r
          /\ sis_response (fst (SetStringInputTensor gpu tensor input name
                                  request_element_cnt tensor_offset response)) = None
          /\ sis_trace (fst (SetStringInputTensor gpu tensor input name
                               request_element_cnt tensor_offset response))
             = [EvResponseSend r (Some e)]).
Proof.
  intros gpu tensor input name cnt off response.
  destruct (SetStringInputTensor_respond gpu tensor input name cnt off response) as (x & Hx).
  destruct x as [e|]; cbn [RESPOND_AND_SET_NULL_IF_ERROR] in Hx.
  - destruct response as [r|].
    + right. exists r, e. injection Hx as -> ->. repeat split.
    + left. injection Hx as -> ->. now split.
  - left. injection Hx as -> ->. now split.
Qed.

Lemma fold_left_serialize_length (tensor : list (list byte)) (off : nat) :
  forall (l : list nat) (acc : list byte),
    length
      (fold_left
         (fun serialized e =>
            let cstr := TRITONTF_TensorString tensor (off + e) in
            let len := length cstr in
            let serialized := serialized ++ le_split 4 (Z.of_nat len) in
            if (0 <? len)%nat then serialized ++ firstn len cstr else serialized)
         l acc)
    = (length acc + 4 * length l
       + list_sum (map (fun e => length (TRITONTF_TensorString tensor (off + e))) l))%nat.
Proof.
  induction l as [|e l IH]; intros acc; cbn [fold_left length map]; [ cbn; lia | ].
  rewrite IH. cbv zeta.
  change (list_sum (?x :: ?r)) with (x + list_sum r)%nat.
  destruct (Nat.ltb_spec 0 (length (TRITONTF_TensorString tensor (off + e)))) as [Hp|Hz].
  - rewrite !length_app, length_le_split, firstn_all. lia.
  - rewrite length_app, length_le_split. lia.
Qed.

(** X17.  The buffer that [SetStringOutputBuffer] asks the response for
    has four bytes per element plus the bytes of the elements, whatever
    their lengths. *)
Theorem serialize_strings_length :
  forall (tensor : list (list byte)) (tensor_element_count tensor_offset : nat),
    length (serialize_strings tensor tensor_element_count tensor_offset)
    = (4 * tensor_element_count
       + list_sum (map (fun e => length (TRITONTF_TensorString tensor (tensor_offset + e)))
                     (seq 0 tensor_element_count)))%nat.
Proof.
  intros tensor n off. unfold serialize_strings.
  rewrite fold_left_serialize_length, length_seq. cbn [length]. lia.
Qed.

(* ================================================================= *)
(** * The calls of a cycle, in order *)

Lemma RESPOND_error_send (resp : option Response) (x : option TRITONSERVER_Error) :
  Forall is_error_send (snd (RESPOND_AND_SET_NULL_IF_ERROR resp x)).
Proof. destruct x, resp; cbn; repeat constructor. Qed.

Section TraceInvariant.

Variables (I F : list Event -> Prop).
Hypothesis I_closed :
  forall tr evs, I tr -> Forall is_error_send evs -> I (tr ++ evs).

Lemma trace_ok_ret {A : Type} (P : list Event -> Prop) (a : A) :
  trace_ok P P F (cy_ret a).
Proof. intros st H. exact H. Qed.

Lemma trace_ok_get (P : list Event -> Prop) : trace_ok P P F cy_get.
Proof. intros st H. exact H. Qed.

Lemma trace_ok_bind {A B : Type} (P Q R : list Event -> Prop)
    (m : Cycle A) (k : A -> Cycle B) :
  trace_ok P Q F m -> (forall a, trace_ok Q R F (k a)) ->
  trace_ok P R F (cy_bind m k).
Proof.
  intros Hm Hk st H. unfold cy_bind. specialize (Hm st H).
  destruct (m st) as [[a|] st']; [ exact (Hk a st' Hm) | exact Hm ].
Qed.

Lemma trace_ok_for_each {X : Type} (P : list Event -> Prop)
    (body : nat -> X -> Cycle unit) :
  (forall idx x, trace_ok P P F (body idx x)) ->
  forall (l : list X) (idx : nat), trace_ok P P F (for_each body idx l).
Proof.
  intros Hbody l. induction l as [|x l IH]; intros idx; cbn [for_each].
  - apply trace_ok_ret.
  - apply (trace_ok_bind P P P); [ apply Hbody | intros _; apply IH ].
Qed.

Lemma trace_ok_keeps_trace {A : Type} (P : list Event -> Prop) (m : Cycle A) :
  (forall st, exists a st', m st = (Some a, st') /\ pr_trace st' = pr_trace st) ->
  trace_ok P P F m.
Proof. intros Hm st H. destruct (Hm st) as (a & st' & -> & ->). exact H. Qed.

Lemma trace_ok_respond (idx : nat) (x : option TRITONSERVER_Error) :
  trace_ok I I F (respond idx x).
Proof.
  intros st H. unfold respond.
  pose proof (RESPOND_error_send (nth idx (pr_responses st) None) x) as He.
  destruct (RESPOND_AND_SET_NULL_IF_ERROR (nth idx (pr_responses st) None) x)
    as [resp evs].
  cbn [pr_trace]. now apply I_closed.
Qed.

Lemma trace_ok_utility_call (request_count : nat)
    (errs : nat -> option TRITONSERVER_Error) :
  trace_ok I I F (utility_call request_count errs).
Proof. apply trace_ok_for_each. intros idx _. apply trace_ok_respond. Qed.

Lemma trace_ok_RESPOND_ALL (request_count : nat) (x : option TRITONSERVER_Error) :
  trace_ok I I F (RESPOND_ALL_AND_SET_NULL_IF_ERROR request_count x).
Proof. apply trace_ok_for_each. intros idx _. apply trace_ok_respond. Qed.

Lemma trace_ok_or_cuda_copy (b : bool) : trace_ok I I F (or_cuda_copy b).
Proof. apply trace_ok_keeps_trace. intros st. eexists _, _. split; reflexivity. Qed.

Lemma trace_ok_add_input_tensor (t : InputTensor) : trace_ok I I F (add_input_tensor t).
Proof. apply trace_ok_keeps_trace. intros st. eexists _, _. split; reflexivity. Qed.

Lemma SetStringInputTensor_error_send (gpu : bool) (tensor : list (list byte))
    (input : TRITONBACKEND_Input) (name : string) (cnt off : nat)
    (resp : option Response) :
  Forall is_error_send
    (sis_trace (fst (SetStringInputTensor gpu tensor input name cnt off resp))).
Proof.
  destruct (SetStringInputTensor_respond gpu tensor input name cnt off resp) as (x & Hx).
  pose proof (RESPOND_error_send resp x) as He. rewrite <- Hx in He. exact He.
Qed.

Lemma string_request_step_trace (gpu : bool) (name : string) (st : InputLoopState)
    (idx : nat)
    (request : TRITONBACKEND_Request) :
  exists evs,
    ils_trace (string_request_step gpu name st idx request) = ils_trace st ++ evs
    /\ Forall is_error_send evs.
Proof.
  unfold string_request_step.
  set (ie := match TRITONBACKEND_RequestInput request name with
             | inr input => (input, None)
             | inl e => (unset_input e, Some e)
             end).
  destruct ie as [input err].
  pose proof (RESPOND_error_send (nth idx (ils_responses st) None) err) as H1.
  destruct (RESPOND_AND_SET_NULL_IF_ERROR (nth idx (ils_responses st) None) err)
    as [r1 evs1].
  pose proof (RESPOND_error_send r1 (in_properties_err input)) as H2.
  destruct (RESPOND_AND_SET_NULL_IF_ERROR r1 (in_properties_err input)) as [r2 evs2].
  pose proof (SetStringInputTensor_error_send gpu (ils_tensor st) input name
                (size_t_of_int64 (GetElementCount (in_shape input)))
                (ils_tensor_offset st) r2) as H3.
  destruct (SetStringInputTensor gpu (ils_tensor st) input name
              (size_t_of_int64 (GetElementCount (in_shape input)))
              (ils_tensor_offset st) r2) as [sis cuda].
  cbn [fst snd ils_trace] in *.
  exists (evs1 ++ evs2 ++ sis_trace sis). split; [ reflexivity | ].
  apply Forall_app. split; [ exact H1 | ]. apply Forall_app. now split.
Qed.

Lemma string_inputs_loop_trace (gpu : bool) (name : string)
    (requests : list TRITONBACKEND_Request) :
  forall (idx : nat) (st : InputLoopState),
    exists evs,
      ils_trace (string_inputs_loop gpu name idx requests st) = ils_trace st ++ evs
      /\ Forall is_error_send evs.
Proof.
  induction requests as [|rq requests IH]; intros idx st; cbn [string_inputs_loop].
  - exists []. split; [ now rewrite app_nil_r | constructor ].
  - destruct (string_request_step_trace gpu name st idx rq) as (evs1 & E1 & H1).
    destruct (IH (S idx) (string_request_step gpu name st idx rq)) as (evs2 & E2 & H2).
    exists (evs1 ++ evs2). rewrite E2, E1, app_assoc. split; [ reflexivity | ].
    apply Forall_app. now split.
Qed.

Lemma trace_ok_fill_string_input (env : Env) (name : string)
    (requests : list TRITONBACKEND_Request) (tensor : list (list byte)) :
  trace_ok I I F (fill_string_input env name requests tensor).
Proof.
  intros st H. unfold fill_string_input. cbn [pr_trace].
  destruct (string_inputs_loop_trace (TRITON_ENABLE_GPU env) name requests 0
              (mkILS tensor (pr_responses st) (pr_trace st) (pr_cuda_copy st) 0))
    as (evs & E & He).
  rewrite E. cbn [ils_trace]. now apply I_closed.
Qed.

Lemma trace_ok_set_string_output (env : Env) (idx : nat) (name : string)
    (tensor : list (list byte)) (cnt off : nat) :
  trace_ok I I F (set_string_output env idx name tensor cnt off).
Proof.
  intros st H. unfold set_string_output.
  destruct (SetStringOutputBuffer_respond tensor (nth idx (pr_responses st) None)
              (TRITONBACKEND_OutputBuffer env idx name) (CopyBuffer env idx name)
              cnt off) as (x & Hx).
  pose proof (RESPOND_error_send (nth idx (pr_responses st) None) x) as He.
  rewrite <- Hx in He.
  destruct (SetStringOutputBuffer tensor (nth idx (pr_responses st) None)
              (TRITONBACKEND_OutputBuffer env idx name) (CopyBuffer env idx name)
              cnt off) as [[[buffer resp] evs] cuda].
  cbn [fst snd] in He. cbn [add_string_output pr_trace]. now apply I_closed.
Qed.

Lemma trace_ok_request_output_names_loop (idx : nat)
    (names : list (TRITONSERVER_Error + string)) :
  forall acc, trace_ok I I F (request_output_names_loop idx names acc).
Proof.
  induction names as [|nm names IH]; intros acc; cbn [request_output_names_loop].
  - apply trace_ok_ret.
  - apply (trace_ok_bind I I I); [ apply trace_ok_respond | intros _ ].
    apply (trace_ok_bind I I I); [ apply trace_ok_get | intros st ].
    destruct (nth idx (pr_responses st) None), nm; apply IH.
Qed.

Lemma trace_ok_request_required_outputs (idx : nat) (request : TRITONBACKEND_Request) :
  trace_ok I I F (request_required_outputs idx request).
Proof.
  unfold request_required_outputs.
  apply (trace_ok_bind I I I); [ apply trace_ok_get | intros st ].
  destruct (nth idx (pr_responses st) None); [ | apply trace_ok_ret ].
  apply (trace_ok_bind I I I); [ apply trace_ok_respond | intros _ ].
  apply (trace_ok_bind I I I); [ apply trace_ok_get | intros st' ].
  destruct (nth idx (pr_responses st') None); [ | apply trace_ok_ret ].
  apply trace_ok_request_output_names_loop.
Qed.

Lemma trace_ok_required_outputs_loop (requests : list TRITONBACKEND_Request) :
  forall idx, trace_ok I I F (required_outputs_loop idx requests).
Proof.
  induction requests as [|rq requests IH]; intros idx; cbn [required_outputs_loop].
  - apply trace_ok_ret.
  - apply (trace_ok_bind I I I); [ apply trace_ok_request_required_outputs | intros names ].
    apply (trace_ok_bind I I I); [ apply IH | intros others ]. apply trace_ok_ret.
Qed.

Lemma trace_ok_ragged_shape_loop (name : string) (requests : list TRITONBACKEND_Request) :
  trace_ok I I F (ragged_shape_loop name requests).
Proof.
  unfold ragged_shape_loop.
  apply (trace_ok_bind I I I); [ | intros _; apply trace_ok_ret ].
  apply trace_ok_for_each. intros idx request.
  destruct (TRITONBACKEND_RequestInput request name);
    (apply (trace_ok_bind I I I); [ apply trace_ok_respond | intros _; apply trace_ok_respond ]).
Qed.

Lemma trace_ok_string_outputs_loop (env : Env) (name : string)
    (tensor : list (list byte)) (rro : list (list string))
    (requests : list TRITONBACKEND_Request) :
  forall (idx : nat) (batchn_shape : list Z) (tensor_offset : nat),
    trace_ok I I F
      (string_outputs_loop env name tensor rro idx requests batchn_shape tensor_offset).
Proof.
  induction requests as [|rq requests IH]; intros idx batchn_shape tensor_offset;
    cbn [string_outputs_loop].
  - apply trace_ok_ret.
  - cbv zeta.
    apply (trace_ok_bind I I I); [ apply trace_ok_get | intros st ].
    apply (trace_ok_bind I I I); [ | intros _; apply IH ].
    destruct (bool_decide _ && bool_decide _).
    + apply (trace_ok_bind I I I); [ apply trace_ok_respond | intros _ ].
      apply trace_ok_set_string_output.
    + apply trace_ok_ret.
Qed.

Lemma trace_ok_process_output (env : Env) (requests : list TRITONBACKEND_Request)
    (rro : list (list string)) (name : string) (output_tensor : OutputTensor) :
  trace_ok I I F (process_output env requests rro name output_tensor).
Proof.
  unfold process_output. cbv zeta.
  destruct (negb (FindBatchOutput env name)); [ | apply trace_ok_utility_call ].
  destruct (decide _); [ apply trace_ok_string_outputs_loop | apply trace_ok_utility_call ].
Qed.

Variable n : nat.
Hypothesis I_abort : forall tr tail, I tr -> abort_tail n tail -> F (tr ++ tail).

Lemma send_remaining_trace (err : TRITONSERVER_Error) {X : Type} :
  forall (l : list X) (k : nat) (st : PRState),
    exists st',
      for_each
        (fun r _ =>
           let* st := cy_get in
           match nth r (pr_responses st) None with
           | Some resp => emit (EvResponseSend resp (Some err))
           | None => cy_ret tt
           end ;;
           emit (EvRequestRelease r)) k l st = (Some tt, st')
      /\ pr_responses st' = pr_responses st
      /\ pr_trace st'
         = pr_trace st
           ++ flat_map
                (fun r =>
                   match nth r (pr_responses st) None with
                   | Some resp => [EvResponseSend resp (Some err)]
                   | None => []
                   end ++ [EvRequestRelease r])
                (seq k (length l)).
Proof.
  induction l as [|x l IH]; intros k st; cbn [for_each length seq flat_map].
  - exists st. now rewrite app_nil_r.
  - unfold cy_bind at 1. unfold cy_bind at 1. unfold cy_bind at 1. cbn [cy_get].
    destruct (nth k (pr_responses st) None) as [resp|] eqn:Hk; cbn [emit cy_ret].
    + match goal with
      | |- exists st', for_each _ _ _ ?s = _ /\ _ =>
          destruct (IH (S k) s) as (st' & Heq & Hr & Ht)
      end.
      exists st'. split; [ exact Heq | ]. cbn [pr_responses pr_trace] in Hr, Ht.
      split; [ exact Hr | ]. rewrite Ht. now rewrite <- !app_assoc.
    + match goal with
      | |- exists st', for_each _ _ _ ?s = _ /\ _ =>
          destruct (IH (S k) s) as (st' & Heq & Hr & Ht)
      end.
      exists st'. split; [ exact Heq | ]. cbn [pr_responses pr_trace] in Hr, Ht.
      split; [ exact Hr | ]. rewrite Ht. now rewrite <- !app_assoc.
Qed.

Lemma trace_ok_send_remaining_and_return {A : Type} (Q : list Event -> Prop)
    (err : TRITONSERVER_Error) :
  trace_ok I Q F (@send_remaining_and_return A n err).
Proof.
  intros st H. unfold send_remaining_and_return.
  destruct (send_remaining_trace err (seq 0 n) 0 st) as (st' & Heq & _ & Ht).
  rewrite (cy_bind_eq _ _ _ _ _ Heq). cbn [cy_return]. rewrite Ht.
  apply I_abort; [ exact H | ]. rewrite length_seq.
  exists (fun r => match nth r (pr_responses st) None with
                   | Some resp => [EvResponseSend resp (Some err)]
                   | None => []
                   end).
  split; [ | reflexivity ].
  intros r. destruct (nth r (pr_responses st) None); cbn; split;
    try lia; repeat constructor.
Qed.

Lemma trace_ok_new_input_tensor (env : Env) (name tensor_name : string)
    (datatype : TRITONSERVER_DataType) (shape : list Z) :
  trace_ok I I F (new_input_tensor env n name tensor_name datatype shape).
Proof.
  unfold new_input_tensor.
  destruct (TRITONTF_TensorNew env tensor_name (ConvertDataType_srv datatype) shape).
  - apply trace_ok_ret.
  - apply trace_ok_send_remaining_and_return.
Qed.

Lemma trace_ok_process_input (env : Env) (requests : list TRITONBACKEND_Request)
    (total_batch_size : Z) (input : TRITONBACKEND_Input) :
  length requests = n ->
  trace_ok I I F (process_input env requests total_batch_size input).
Proof.
  intros Hn. unfold process_input. rewrite Hn. cbv zeta.
  apply (trace_ok_bind I I I).
  - destruct (IsInputRagged env (in_name input)).
    + apply (trace_ok_bind I I I);
        [ apply trace_ok_ragged_shape_loop | intros ?; apply trace_ok_ret ].
    + apply trace_ok_ret.
  - intros batchn_shape.
    apply (trace_ok_bind I I I); [ apply trace_ok_new_input_tensor | intros tensor ].
    destruct (decide _).
    + apply (trace_ok_bind I I I);
        [ apply trace_ok_fill_string_input | intros ?; apply trace_ok_add_input_tensor ].
    + apply (trace_ok_bind I I I);
        [ apply trace_ok_add_input_tensor | intros ?; apply trace_ok_utility_call ].
Qed.

Lemma trace_ok_process_batch_input (env : Env) (batch_input : BatchInput) :
  trace_ok I I F (process_batch_input env n batch_input).
Proof.
  unfold process_batch_input. cbv zeta.
  apply trace_ok_for_each. intros idx input_name.
  apply (trace_ok_bind I I I); [ apply trace_ok_new_input_tensor | intros tensor ].
  apply (trace_ok_bind I I I);
    [ apply trace_ok_add_input_tensor | intros ?; apply trace_ok_RESPOND_ALL ].
Qed.

End TraceInvariant.

Lemma error_sends_closed (tr evs : list Event) :
  Forall is_error_send tr -> Forall is_error_send evs -> Forall is_error_send (tr ++ evs).
Proof. intros H1 H2. apply Forall_app. now split. Qed.

Lemma error_sends_abort (n : nat) (tr tail : list Event) :
  Forall is_error_send tr -> abort_tail n tail -> committed_trace n (tr ++ tail).
Proof. intros H Ht. exists tr. split; [ exact H | ]. left. now exists tail. Qed.

Lemma after_run_closed (tr evs : list Event) :
  after_run tr -> Forall is_error_send evs -> after_run (tr ++ evs).
Proof.
  intros (errs1 & names & errs2 & -> & H1 & H2) He.
  exists errs1, names, (errs2 ++ evs). rewrite <- app_assoc. cbn [app].
  repeat split; [ exact H1 | ]. apply Forall_app. now split.
Qed.

Lemma trace_ok_run_model (env : Env) (n : nat) (required_outputs : list string) :
  trace_ok (Forall is_error_send) after_run (committed_trace n)
    (run_model env n required_outputs).
Proof.
  unfold run_model. cbv zeta.
  apply (trace_ok_bind _ _ (Forall is_error_send)); [ apply trace_ok_get | intros st ].
  apply (trace_ok_bind _ _
           (fun tr => exists errs names, tr = errs ++ [EvModelRun names]
                                         /\ Forall is_error_send errs)).
  { intros st1 H. cbn [emit pr_trace]. now eexists _, _. }
  intros _. destruct (TRITONTF_ModelRun env _ _) as [msg|outs].
  - apply trace_ok_send_remaining_and_return.
    intros tr tail (errs & names & -> & He) Ht.
    exists errs. split; [ exact He | ]. right. left. exists names, tail.
    split; [ exact Ht | ]. now rewrite <- app_assoc.
  - intros st1 (errs & names & E & He). cbn [cy_ret]. rewrite E.
    exists errs, names, []. repeat split; [ exact He | constructor ].
Qed.

Lemma send_all_trace {X : Type} :
  forall (l : list X) (k : nat) (st : PRState),
    exists st',
      for_each
        (fun r _ =>
           let* st := cy_get in
           match nth r (pr_responses st) None with
           | Some resp => emit (EvResponseSend resp None)
           | None => cy_ret tt
           end) k l st = (Some tt, st')
      /\ pr_responses st' = pr_responses st
      /\ exists oks, pr_trace st' = pr_trace st ++ oks /\ Forall is_success_send oks.
Proof.
  induction l as [|x l IH]; intros k st; cbn [for_each].
  - exists st. repeat split. exists []. split; [ now rewrite app_nil_r | constructor ].
  - unfold cy_bind at 1. unfold cy_bind at 1. cbn [cy_get].
    destruct (nth k (pr_responses st) None) as [resp|]; cbn [emit cy_ret].
    + match goal with
      | |- exists st', for_each _ _ _ ?s = _ /\ _ =>
          destruct (IH (S k) s) as (st' & Heq & Hr & oks & Ht & Hok)
      end.
      exists st'. split; [ exact Heq | ]. cbn [pr_responses pr_trace] in Hr, Ht.
      split; [ exact Hr | ]. exists (EvResponseSend resp None :: oks).
      split; [ rewrite Ht; now rewrite <- app_assoc | now constructor ].
    + exact (IH (S k) st).
Qed.

Lemma report_and_release_trace {X : Type} :
  forall (l : list X) (k : nat) (st : PRState),
    exists st',
      for_each
        (fun r _ =>
           let* st := cy_get in
           emit (EvReportStatistics r
                   (bool_decide (nth r (pr_responses st) None <> None))) ;;
           emit (EvRequestRelease r)) k l st = (Some tt, st')
      /\ pr_responses st' = pr_responses st
      /\ pr_trace st'
         = pr_trace st
           ++ flat_map
                (fun r => [EvReportStatistics r
                             (bool_decide (nth r (pr_responses st) None <> None));
                           EvRequestRelease r])
                (seq k (length l)).
Proof.
  induction l as [|x l IH]; intros k st; cbn [for_each length seq flat_map].
  - exists st. now rewrite app_nil_r.
  - unfold cy_bind at 1. unfold cy_bind at 1. unfold cy_bind at 1.
    cbn [cy_get emit].
    match goal with
    | |- exists st', for_each _ _ _ ?s = _ /\ _ =>
        destruct (IH (S k) s) as (st' & Heq & Hr & Ht)
    end.
    exists st'. split; [ exact Heq | ]. cbn [pr_responses pr_trace] in Hr, Ht.
    split; [ exact Hr | ]. rewrite Ht. rewrite <- !app_assoc. reflexivity.
Qed.

Lemma trace_ends_bind {A B : Type} (P Q F : list Event -> Prop)
    (m : Cycle A) (k : A -> Cycle B) :
  trace_ok P Q F m -> (forall a, trace_ends Q F (k a)) ->
  trace_ends P F (cy_bind m k).
Proof.
  intros Hm Hk st H. unfold cy_bind. specialize (Hm st H).
  destruct (m st) as [[a|] st']; [ exact (Hk a st' Hm) | exact Hm ].
Qed.

Lemma trace_ends_send_all_report (n : nat) :
  trace_ends after_run (committed_trace n)
    (send_all_responses n ;; report_and_release n).
Proof.
  intros st (errs1 & names & errs2 & E & H1 & H2).
  unfold send_all_responses, report_and_release.
  destruct (send_all_trace (seq 0 n) 0 st) as (st1 & Heq1 & Hr1 & oks & Ht1 & Hok).
  destruct (report_and_release_trace (seq 0 n) 0 st1) as (st2 & Heq2 & _ & Ht2).
  rewrite (cy_bind_eq _ _ _ _ _ Heq1), Heq2. cbn [snd].
  rewrite Ht2, Ht1, E, length_seq.
  exists errs1. split; [ exact H1 | ]. right. right.
  exists names, errs2, (oks ++ flat_map
                          (fun r => [EvReportStatistics r
                                       (bool_decide (nth r (pr_responses st1) None <> None));
                                     EvRequestRelease r]) (seq 0 n)).
  split; [ exact H2 | ]. split.
  - now exists oks, (fun r => bool_decide (nth r (pr_responses st1) None <> None)).
  - rewrite <- !app_assoc. reflexivity.
Qed.

(** The calls of a committed cycle come in the order of [committed_trace]. *)
Lemma committed_cycle_trace (env : Env) (requests : list TRITONBACKEND_Request)
    (total_batch_size : Z) :
  trace_ends (Forall is_error_send) (committed_trace (length requests))
    (committed_cycle env requests total_batch_size).
Proof.
  set (n := length requests).
  pose proof error_sends_closed as Hc1. pose proof (error_sends_abort n) as Ha1.
  pose proof after_run_closed as Hc2.
  unfold committed_cycle. fold n. cbv zeta.
  apply (trace_ends_bind _ (Forall is_error_send)).
  { apply trace_ok_for_each. intros idx input.
    now apply (trace_ok_process_input _ _ Hc1 n Ha1). }
  intros _. apply (trace_ends_bind _ (Forall is_error_send)).
  { apply trace_ok_for_each. intros idx bi.
    apply (trace_ok_process_batch_input _ _ Hc1 n Ha1). }
  intros _. apply (trace_ends_bind _ (Forall is_error_send));
    [ now apply trace_ok_utility_call | intros _ ].
  apply (trace_ends_bind _ (Forall is_error_send));
    [ apply trace_ok_or_cuda_copy | intros _ ].
  apply (trace_ends_bind _ (Forall is_error_send));
    [ now apply trace_ok_required_outputs_loop | intros rro ].
  apply (trace_ends_bind _ after_run); [ apply trace_ok_run_model | intros outs ].
  apply (trace_ends_bind _ after_run).
  { apply trace_ok_for_each. intros idx [name ot]. now apply trace_ok_process_output. }
  intros _. apply (trace_ends_bind _ after_run);
    [ now apply trace_ok_utility_call | intros _ ].
  apply (trace_ends_bind _ after_run); [ apply trace_ok_or_cuda_copy | intros _ ].
  apply trace_ends_send_all_report.
Qed.

(** What a call of [ProcessRequests] does, by cases. *)
Lemma ProcessRequests_trace (env : Env) (requests : list (option TRITONBACKEND_Request)) :
  match total_batch_size_loop env requests 0 with
  | inl err =>
      pr_trace (ProcessRequests env requests)
      = [EvRequestsRespondWithError (length requests) err]
  | inr total =>
      if total =? 0 then pr_trace (ProcessRequests env requests) = []
      else if negb (total =? 1) && (total >? size_t_wrap (MaxBatchSize env))
      then exists err,
             pr_trace (ProcessRequests env requests)
             = [EvRequestsRespondWithError (length requests) err]
      else committed_trace (length requests) (pr_trace (ProcessRequests env requests))
  end.
Proof.
  unfold ProcessRequests.
  destruct (total_batch_size_loop env requests 0) as [err|total] eqn:Hloop;
    [ reflexivity | ].
  destruct (total =? 0); [ reflexivity | ].
  destruct (negb (total =? 1) && (total >? size_t_wrap (MaxBatchSize env)));
    [ eexists; reflexivity | ].
  cbv zeta.
  rewrite <- (total_batch_size_loop_non_null env requests 0 total Hloop).
  apply committed_cycle_trace. constructor.
Qed.

(** X18.  The calls of a committed cycle come in a fixed order: errors
    sent for requests while the inputs are gathered; then either the
    cycle is given up (error to every response still there, each request
    released, in index order), or the engine is run once, after which
    either the same giving up follows or errors sent while the outputs
    are handed out, the responses still there sent without an error,
    and per request, in index order, its statistics and its release. *)
Theorem committed_cycle_calls_in_order :
  forall (env : Env) (requests : list (option TRITONBACKEND_Request)) (total : Z),
    total_batch_size_loop env requests 0 = inr total ->
    total <> 0 ->
    total = 1 \/ total <= size_t_wrap (MaxBatchSize env) ->
    committed_trace (length requests) (pr_trace (ProcessRequests env requests)).
Proof.
  intros env requests total Hloop H0 Hlim.
  pose proof (ProcessRequests_trace env requests) as H. rewrite Hloop in H.
  destruct (Z.eqb_spec total 0) as [|_]; [ contradiction | ].
  assert (Hguard : negb (total =? 1) && (total >? size_t_wrap (MaxBatchSize env))
                   = false).
  { destruct Hlim as [->|Hle]; [ reflexivity | ].
    destruct (Z.gtb_spec total (size_t_wrap (MaxBatchSize env))); [ lia | ].
    apply andb_false_r. }
  rewrite Hguard in H. exact H.
Qed.

Lemma committed_cycle_calls_in_order_witness :
  committed_trace 2
    (pr_trace (ProcessRequests (plain_env 8)
                 [Some (plain_request 2 true); Some (plain_request 2 false)])).
Proof.
  refine (committed_cycle_calls_in_order (plain_env 8)
            [Some (plain_request 2 true); Some (plain_request 2 false)] 4 eq_refl _ _).
  - lia.
  - right. vm_compute. discriminate.
Defined.

Lemma releases_app (r : nat) (a b : list Event) :
  releases r (a ++ b) = (releases r a + releases r b)%nat.
Proof.
  induction a as [|e a IH]; [ reflexivity | ].
  destruct e; cbn [app releases]; rewrite IH; lia.
Qed.

Lemma releases_sends (r : nat) (l : list Event) :
  Forall (fun e => is_error_send e \/ is_success_send e) l -> releases r l = 0%nat.
Proof.
  induction 1 as [|e l He Hl IH]; [ reflexivity | ].
  destruct e; cbn [releases]; try exact IH; destruct He as [He|He]; destruct He.
Qed.

Lemma releases_error_sends (r : nat) (l : list Event) :
  Forall is_error_send l -> releases r l = 0%nat.
Proof.
  intros H. apply releases_sends. eapply List.Forall_impl; [ | exact H ]. now left.
Qed.

Lemma releases_success_sends (r : nat) (l : list Event) :
  Forall is_success_send l -> releases r l = 0%nat.
Proof.
  intros H. apply releases_sends. eapply List.Forall_impl; [ | exact H ]. now right.
Qed.

Lemma releases_flat_map (r : nat) (pre : nat -> list Event) :
  (forall q, releases r (pre q) = 0%nat) ->
  forall (m k : nat),
    releases r (flat_map (fun q => pre q ++ [EvRequestRelease q]) (seq k m))
    = if (k <=? r)%nat && (r <? k + m)%nat then 1%nat else 0%nat.
Proof.
  intros Hpre. induction m as [|m IH]; intros k; cbn [seq flat_map].
  - cbn [releases].
    destruct (Nat.leb_spec k r), (Nat.ltb_spec r (k + 0)); cbn [andb]; try reflexivity; lia.
  - rewrite !releases_app, Hpre, IH. cbn [releases].
    destruct (Nat.eqb_spec k r), (Nat.leb_spec k r), (Nat.ltb_spec r (k + S m)),
             (Nat.leb_spec (S k) r), (Nat.ltb_spec r (S k + m)); cbn [andb Nat.add];
      try reflexivity; lia.
Qed.

Lemma releases_abort_tail (r n : nat) (tail : list Event) :
  abort_tail n tail ->
  releases r tail = if (r <? n)%nat then 1%nat else 0%nat.
Proof.
  intros (sends & Hs & ->). rewrite releases_flat_map.
  - cbn [Nat.leb Nat.add andb]. reflexivity.
  - intros q. apply releases_error_sends. apply Hs.
Qed.

Lemma releases_normal_tail (r n : nat) (tail : list Event) :
  normal_tail n tail ->
  releases r tail = if (r <? n)%nat then 1%nat else 0%nat.
Proof.
  intros (oks & success & Hok & ->).
  rewrite releases_app, releases_success_sends by exact Hok.
  rewrite (releases_flat_map r (fun q => [EvReportStatistics q (success q)])).
  - cbn [Nat.leb Nat.add andb]. reflexivity.
  - reflexivity.
Qed.

Lemma releases_committed_trace (r n : nat) (tr : list Event) :
  committed_trace n tr ->
  releases r tr = if (r <? n)%nat then 1%nat else 0%nat.
Proof.
  intros (errs1 & H1 & [(tail & Ht & ->)|[(names & tail & Ht & ->)
                                        |(names & errs2 & tail & H2 & Ht & ->)]]).
  - rewrite releases_app, releases_error_sends by exact H1. cbn [Nat.add].
    now apply releases_abort_tail.
  - rewrite releases_app, releases_error_sends by exact H1. cbn [releases Nat.add].
    now apply releases_abort_tail.
  - rewrite releases_app, releases_error_sends by exact H1. cbn [releases Nat.add].
    rewrite releases_app, releases_error_sends by exact H2.
    now apply releases_normal_tail.
Qed.

(** X19.  In a committed cycle [ProcessRequests] itself releases every
    request exactly once, however the cycle ends; in every other cycle it
    releases none (it leaves that to [RequestsRespondWithError], or, for a
    total batch size of zero, to nobody). *)
Theorem requests_released_once :
  forall (env : Env) (requests : list (option TRITONBACKEND_Request)),
    (forall total : Z,
       total_batch_size_loop env requests 0 = inr total ->
       total <> 0 ->
       total = 1 \/ total <= size_t_wrap (MaxBatchSize env) ->
       forall r : nat,
         releases r (pr_trace (ProcessRequests env requests))
         = if (r <? length requests)%nat then 1%nat else 0%nat)
    /\ ((forall total : Z,
           total_batch_size_loop env requests 0 = inr total ->
           total = 0 \/ (total <> 1 /\ total > size_t_wrap (MaxBatchSize env))) ->
        forall r : nat, releases r (pr_trace (ProcessRequests env requests)) = 0%nat).
Proof.
  intros env requests.
  pose proof (ProcessRequests_trace env requests) as H.
  split.
  - intros total Hloop H0 Hlim r. rewrite Hloop in H.
    destruct (Z.eqb_spec total 0) as [|_]; [ contradiction | ].
    assert (Hguard : negb (total =? 1) && (total >? size_t_wrap (MaxBatchSize env))
                     = false).
    { destruct Hlim as [->|Hle]; [ reflexivity | ].
      destruct (Z.gtb_spec total (size_t_wrap (MaxBatchSize env))); [ lia | ].
      apply andb_false_r. }
    rewrite Hguard in H. now apply releases_committed_trace.
  - intros Hno r.
    destruct (total_batch_size_loop env requests 0) as [err|total] eqn:Hloop.
    + now rewrite H.
    + destruct (Z.eqb_spec total 0) as [|Hne]; [ now rewrite H | ].
      destruct (Hno total eq_refl) as [|(H1 & Hgt)]; [ contradiction | ].
      destruct (Z.eqb_spec total 1) as [|_]; [ contradiction | ].
      destruct (Z.gtb_spec total (size_t_wrap (MaxBatchSize env))); [ | lia ].
      cbn [negb andb] in H. destruct H as (err & ->). reflexivity.
Qed.

Lemma requests_released_once_witness :
  releases 1
    (pr_trace (ProcessRequests (plain_env 8)
                 [Some (plain_request 2 true); Some (plain_request 2 false)])) = 1%nat
  /\ releases 0
       (pr_trace (ProcessRequests (plain_env 8) [Some (plain_request 2 true); None]))
     = 0%nat.
Proof.
  split.
  - refine (proj1 (requests_released_once (plain_env 8)
                     [Some (plain_request 2 true); Some (plain_request 2 false)])
              4 eq_refl _ _ 1%nat).
    + lia.
    + right. vm_compute. discriminate.
  - refine (proj2 (requests_released_once (plain_env 8)
                     [Some (plain_request 2 true); None]) _ 0%nat).
    intros total H. discriminate H.
Defined.

Lemma success_after_run_true (tr : list Event) : success_after_run true tr = true.
Proof.
  induction tr as [|e tr IH]; [ reflexivity | ].
  destruct e as [r [err|]| | | |]; cbn [success_after_run andb]; exact IH.
Qed.

Lemma success_after_run_app (ran : bool) (a b : list Event) :
  success_after_run ran (a ++ b)
  = success_after_run ran a && success_after_run (ran || runs_engine a) b.
Proof.
  revert ran. induction a as [|e a IH]; intros ran; cbn [app success_after_run].
  - cbn. now rewrite orb_false_r.
  - destruct e as [r [err|]| | | |]; cbn [success_after_run runs_engine existsb orb];
      fold (runs_engine a); rewrite ?IH; try reflexivity.
    + now rewrite andb_assoc.
    + rewrite orb_true_r, !success_after_run_true. reflexivity.
Qed.

Lemma success_after_run_no_success (ran : bool) (l : list Event) :
  Forall (fun e => ~ is_success_send e) l ->
  (forall e, In e l -> match e with EvModelRun _ => False | _ => True end) ->
  success_after_run ran l = true /\ engine_runs l = 0%nat.
Proof.
  induction 1 as [|e l He Hl IH]; intros Hrun; [ now split | ].
  assert (Hrest : forall e', In e' l -> match e' with EvModelRun _ => False | _ => True end)
    by (intros e' Hin; apply Hrun; now right).
  specialize (IH Hrest). specialize (Hrun e (or_introl eq_refl)).
  destruct e as [r [err|]| | | |]; cbn [success_after_run engine_runs];
    try exact IH; try contradiction.
Qed.

Lemma error_sends_quiet (ran : bool) (l : list Event) :
  Forall is_error_send l ->
  success_after_run ran l = true /\ engine_runs l = 0%nat /\ runs_engine l = false.
Proof.
  induction 1 as [|e l He Hl IH]; [ now repeat split | ].
  destruct e as [r [err|]| | | |]; try destruct He. exact IH.
Qed.

Lemma abort_tail_quiet (ran : bool) (n : nat) (tail : list Event) :
  abort_tail n tail -> success_after_run ran tail = true /\ engine_runs tail = 0%nat.
Proof.
  intros (sends & Hs & ->). apply success_after_run_no_success.
  - apply List.Forall_forall. intros e Hin. apply in_flat_map in Hin.
    destruct Hin as (q & _ & Hin). apply in_app_or in Hin.
    destruct Hin as [Hin|[<-|[]]]; [ | intros [] ].
    destruct (Hs q) as (Hq & _). rewrite List.Forall_forall in Hq.
    specialize (Hq e Hin). destruct e as [r [err|]| | | |]; try destruct Hq. intros [].
  - intros e Hin. apply in_flat_map in Hin.
    destruct Hin as (q & _ & Hin). apply in_app_or in Hin.
    destruct Hin as [Hin|[<-|[]]]; [ | exact I ].
    destruct (Hs q) as (Hq & _). rewrite List.Forall_forall in Hq.
    specialize (Hq e Hin). destruct e; try destruct Hq. exact I.
Qed.

Lemma engine_runs_app (a b : list Event) :
  engine_runs (a ++ b) = (engine_runs a + engine_runs b)%nat.
Proof.
  induction a as [|e a IH]; [ reflexivity | ].
  destruct e; cbn [app engine_runs]; rewrite IH; lia.
Qed.

Lemma normal_tail_runs (n : nat) (tail : list Event) :
  normal_tail n tail -> engine_runs tail = 0%nat.
Proof.
  intros (oks & success & Hok & ->). rewrite engine_runs_app.
  assert (H1 : engine_runs oks = 0%nat).
  { clear -Hok. induction Hok as [|e l He Hl IH]; [ reflexivity | ].
    destruct e as [r [err|]| | | |]; try destruct He. exact IH. }
  rewrite H1. generalize 0%nat at 2. induction n as [|n IH]; intros k; [ reflexivity | ].
  cbn [seq flat_map app engine_runs]. apply IH.
Qed.

Lemma committed_trace_guarded (n : nat) (tr : list Event) :
  committed_trace n tr ->
  success_after_run false tr = true /\ (engine_runs tr <= 1)%nat.
Proof.
  intros (errs1 & H1 & [(tail & Ht & ->)|[(names & tail & Ht & ->)
                                        |(names & errs2 & tail & H2 & Ht & ->)]]);
    destruct (error_sends_quiet false errs1 H1) as (Hs1 & Hr1 & He1);
    rewrite success_after_run_app, engine_runs_app, Hs1, Hr1, He1; cbn [andb orb Nat.add].
  - destruct (abort_tail_quiet false n tail Ht) as (-> & ->). split; [ reflexivity | lia ].
  - cbn [success_after_run engine_runs].
    destruct (abort_tail_quiet true n tail Ht) as (_ & ->).
    rewrite success_after_run_true. split; [ reflexivity | lia ].
  - cbn [success_after_run engine_runs]. rewrite success_after_run_true.
    rewrite engine_runs_app.
    destruct (error_sends_quiet true errs2 H2) as (_ & -> & _).
    rewrite (normal_tail_runs n tail Ht). split; [ reflexivity | lia ].
Qed.

(** X20.  In every cycle the engine is run at most once, and a response
    is sent without an error only after the engine has run. *)
Theorem engine_runs_once_before_success :
  forall (env : Env) (requests : list (option TRITONBACKEND_Request)),
    (engine_runs (pr_trace (ProcessRequests env requests)) <= 1)%nat
    /\ forall (before : list Event) (resp : Response) (after : list Event),
         pr_trace (ProcessRequests env requests)
         = before ++ EvResponseSend resp None :: after ->
         runs_engine before = true.
Proof.
  intros env requests.
  assert (H : success_after_run false (pr_trace (ProcessRequests env requests)) = true
              /\ (engine_runs (pr_trace (ProcessRequests env requests)) <= 1)%nat).
  { pose proof (ProcessRequests_trace env requests) as H.
    destruct (total_batch_size_loop env requests 0) as [err|total].
    - rewrite H. cbn. split; [ reflexivity | lia ].
    - destruct (total =? 0); [ rewrite H; cbn; split; [ reflexivity | lia ] | ].
      destruct (negb (total =? 1) && (total >? size_t_wrap (MaxBatchSize env))).
      + destruct H as (err & ->). cbn. split; [ reflexivity | lia ].
      + now apply (committed_trace_guarded (length requests)). }
  destruct H as (Hs & Hr). split; [ exact Hr | ].
  intros before resp after E. rewrite E, success_after_run_app in Hs.
  apply andb_true_iff in Hs. destruct Hs as (_ & Hs).
  cbn [orb success_after_run] in Hs. apply andb_true_iff in Hs. apply Hs.
Qed.

(* ----------------------------------------------------------------- *)
(** ** Model parameters *)

Lemma optional_parameter_accepted {V : Type} (parsed : TRITONSERVER_Error + V)
    (st : ModelStateParameters) (store : V -> ModelStateParameters)
    (check : V -> option TRITONSERVER_Error) :
  acceptable parsed (fun v => check v = None) ->
  optional_parameter parsed st store check
  = (None, match parsed with inl _ => st | inr v => store v end).
Proof.
  destruct parsed as [err|v]; cbn.
  - intros ->. reflexivity.
  - intros ->. reflexivity.
Qed.

Lemma optional_parameter_rejected {V : Type} (parsed : TRITONSERVER_Error + V)
    (st : ModelStateParameters) (store : V -> ModelStateParameters)
    (check : V -> option TRITONSERVER_Error) :
  ~ acceptable parsed (fun v => check v = None) ->
  fst (optional_parameter parsed st store check) <> None.
Proof.
  destruct parsed as [err|v]; cbn.
  - intros Hne. destruct (decide (err_code err <> TRITONSERVER_ERROR_NOT_FOUND)) as [_|Hn].
    + discriminate.
    + exfalso. apply Hne. destruct (decide (err_code err = TRITONSERVER_ERROR_NOT_FOUND));
        [ assumption | contradiction ].
  - intros Hne. exact Hne.
Qed.

Lemma acceptable_dec {V : Type} (parsed : TRITONSERVER_Error + V)
    (check : V -> option TRITONSERVER_Error) :
  {acceptable parsed (fun v => check v = None)}
  + {~ acceptable parsed (fun v => check v = None)}.
Proof.
  destruct parsed as [err|v]; cbn.
  - apply (decide (err_code err = TRITONSERVER_ERROR_NOT_FOUND)).
  - destruct (check v); [ right; discriminate | left; reflexivity ].
Qed.

Lemma and_then_optional {V : Type} (parsed : TRITONSERVER_Error + V)
    (st : ModelStateParameters) (store : V -> ModelStateParameters)
    (check : V -> option TRITONSERVER_Error)
    (k : ModelStateParameters -> option TRITONSERVER_Error * ModelStateParameters)
    (st' : ModelStateParameters) :
  and_then (optional_parameter parsed st store check) k = (None, st') <->
  acceptable parsed (fun v => check v = None)
  /\ k (match parsed with inl _ => st | inr v => store v end) = (None, st').
Proof.
  destruct (acceptable_dec parsed check) as [Ha|Hn].
  - rewrite (optional_parameter_accepted parsed st store check Ha). cbn [and_then]. tauto.
  - pose proof (optional_parameter_rejected parsed st store check Hn) as Hr.
    destruct (optional_parameter parsed st store check) as [[err|] s]; cbn [and_then].
    + split; [ discriminate | tauto ].
    + now contradiction Hr.
Qed.

Lemma optional_parameter_last {V : Type} (parsed : TRITONSERVER_Error + V)
    (st : ModelStateParameters) (store : V -> ModelStateParameters)
    (st' : ModelStateParameters) :
  optional_parameter parsed st store (fun _ => None) = (None, st') <->
  acceptable parsed (fun _ => True)
  /\ match parsed with inl _ => st | inr v => store v end = st'.
Proof.
  destruct parsed as [err|v]; cbn.
  - destruct (decide (err_code err <> TRITONSERVER_ERROR_NOT_FOUND)) as [Hne|Hn].
    + split; [ discriminate | intros (H & _); contradiction ].
    + split.
      * intros [= <-]. split; [ | reflexivity ].
        destruct (decide (err_code err = TRITONSERVER_ERROR_NOT_FOUND)); [ assumption | contradiction ].
      * intros (_ & ->). reflexivity.
  - split; [ intros [= <-]; split; [ exact I | reflexivity ] | intros (_ & ->); reflexivity ].
Qed.

Lemma acceptable_impl {V : Type} (parsed : TRITONSERVER_Error + V) (P Q : V -> Prop) :
  (forall v, P v <-> Q v) -> acceptable parsed P <-> acceptable parsed Q.
Proof. intros H. destruct parsed; cbn; [ tauto | apply H ]. Qed.

(** X21.  [ParseParameters] accepts the "parameters" of a configuration
    exactly when each of the six parameters is either not set or parses,
    with a positive MAX_SESSION_SHARE_COUNT and non-negative thread
    counts; the order of the checks plays no part in that.  The call then
    leaves in every member the parsed value of its parameter, or the value
    the member had when the parameter is not set. *)
Theorem ParseParameters_accepts_iff :
  forall (Name : string) (params : ParameterUtils)
         (st st' : ModelStateParameters),
    ParseParameters Name (Some params) st = (None, st') <->
    acceptable (ParseParameter_int params "MAX_SESSION_SHARE_COUNT") (fun v => 0 < v)
    /\ acceptable (ParseParameter_int params "TF_NUM_INTRA_THREADS") (fun v => 0 <= v)
    /\ acceptable (ParseParameter_int params "TF_NUM_INTER_THREADS") (fun v => 0 <= v)
    /\ acceptable (ParseParameter_bool params "TF_USE_PER_SESSION_THREADS") (fun _ => True)
    /\ acceptable (ParseParameter_str params "TF_GRAPH_TAG") (fun _ => True)
    /\ acceptable (ParseParameter_str params "TF_SIGNATURE_DEF") (fun _ => True)
    /\ st' =
       mkModelStateParameters
         (parsed_or (ParseParameter_int params "MAX_SESSION_SHARE_COUNT")
            (max_session_share_count_ st))
         (parsed_or (ParseParameter_int params "TF_NUM_INTRA_THREADS")
            (num_intra_threads_ st))
         (parsed_or (ParseParameter_int params "TF_NUM_INTER_THREADS")
            (num_inter_threads_ st))
         (parsed_or (ParseParameter_bool params "TF_USE_PER_SESSION_THREADS")
            (use_per_session_threads_ st))
         (parsed_or (ParseParameter_str params "TF_GRAPH_TAG") (graph_tag_ st))
         (parsed_or (ParseParameter_str params "TF_SIGNATURE_DEF") (signature_def_ st)).
Proof.
  intros Name params st st'. unfold ParseParameters.
  rewrite !and_then_optional, optional_parameter_last.
  rewrite (acceptable_impl (ParseParameter_int params "MAX_SESSION_SHARE_COUNT")
             _ (fun v => 0 < v))
    by (intros v; destruct (Z.leb_spec v 0); split; (discriminate || lia || reflexivity)).
  rewrite (acceptable_impl (ParseParameter_int params "TF_NUM_INTRA_THREADS")
             _ (fun v => 0 <= v))
    by (intros v; destruct (Z.ltb_spec v 0); split; (discriminate || lia || reflexivity)).
  rewrite (acceptable_impl (ParseParameter_int params "TF_NUM_INTER_THREADS")
             _ (fun v => 0 <= v))
    by (intros v; destruct (Z.ltb_spec v 0); split; (discriminate || lia || reflexivity)).
  rewrite (acceptable_impl (ParseParameter_bool params "TF_USE_PER_SESSION_THREADS")
             (fun v => None = None) (fun _ => True)) by (intros v; tauto).
  rewrite (acceptable_impl (ParseParameter_str params "TF_GRAPH_TAG")
             (fun v => None = None) (fun _ => True)) by (intros v; tauto).
  destruct st as [a b c d e f].
  destruct (ParseParameter_int params "MAX_SESSION_SHARE_COUNT"),
           (ParseParameter_int params "TF_NUM_INTRA_THREADS"),
           (ParseParameter_int params "TF_NUM_INTER_THREADS"),
           (ParseParameter_bool params "TF_USE_PER_SESSION_THREADS"),
           (ParseParameter_str params "TF_GRAPH_TAG"),
           (ParseParameter_str params "TF_SIGNATURE_DEF");
    cbn; intuition congruence.
Qed.

(* ----------------------------------------------------------------- *)
(** ** Shared models *)

Lemma GetModel_share_bounded
    (CreateModel : Z -> string -> TRITONSERVER_Error + Model)
    (max : Z) (models_ : gmap Z (nat * Model)) (device_id : Z) (model_path : string) :
  0 < max < 2 ^ 31 ->
  share_bounded max models_ ->
  share_bounded max (gm_models_ (GetModel CreateModel max models_ device_id model_path)).
Proof.
  intros Hmax Hb. unfold GetModel.
  assert (Hcreate :
    share_bounded max
      (gm_models_
         match CreateModel device_id model_path with
         | inl err => mkGetModelResult (inl err) models_ [(device_id, model_path)]
         | inr model =>
             mkGetModelResult (inr model) (<[device_id := (1%nat, model)]> models_)
               [(device_id, model_path)]
         end)).
  { destruct (CreateModel device_id model_path) as [err|model]; cbn; [ exact Hb | ].
    intros d c m. destruct (decide (d = device_id)) as [->|Hne].
    - rewrite lookup_insert_eq. intros [= <- <-]. lia.
    - rewrite lookup_insert_ne by congruence. apply Hb. }
  destruct (models_ !! device_id) as [[count shared]|] eqn:El; [ | exact Hcreate ].
  rewrite Z.mod_small by lia.
  destruct (Z.ltb_spec (Z.of_nat count) max) as [Hlt|Hge]; [ | exact Hcreate ].
  cbn. intros d c m. destruct (decide (d = device_id)) as [->|Hne].
  - rewrite lookup_insert_eq. intros [= <- <-]. lia.
  - rewrite lookup_insert_ne by congruence. apply Hb.
Qed.

(** X22.  However many instances are created, on whatever devices and
    whether or not [CreateModel] fails for some of them, every model
    registered in [models_] is shared by at least one and at most
    [max_session_share_count_] instances, for a share count in the range
    [ParseParameters] accepts. *)
Theorem GetModel_keeps_share_count :
  forall (CreateModel : Z -> string -> TRITONSERVER_Error + Model)
         (max : Z) (instances : list (Z * string)) (models_ : gmap Z (nat * Model)),
    0 < max < 2 ^ 31 ->
    share_bounded max models_ ->
    share_bounded max (fst (GetModel_each CreateModel max models_ instances)).
Proof.
  intros CreateModel max instances. induction instances as [|[d p] rest IH];
    intros models_ Hmax Hb; cbn [GetModel_each].
  - exact Hb.
  - pose proof (GetModel_share_bounded CreateModel max models_ d p Hmax Hb) as Hstep.
    specialize (IH _ Hmax Hstep).
    destruct (GetModel_each CreateModel max
                (gm_models_ (GetModel CreateModel max models_ d p)) rest) as [ms created].
    exact IH.
Qed.

Lemma GetModel_keeps_share_count_witness :
  share_bounded 2
    (fst (GetModel_each (fun device_id _ => inr (mkModel ∅ ∅ 0 device_id)) 2 ∅
            [(0, "a"%string); (0, "a"%string); (1, "a"%string); (0, "a"%string)])).
Proof.
  apply (GetModel_keeps_share_count (fun device_id _ => inr (mkModel ∅ ∅ 0 device_id)) 2
           [(0, "a"%string); (0, "a"%string); (1, "a"%string); (0, "a"%string)] ∅).
  - lia.
  - intros d c m H. rewrite lookup_empty in H. discriminate H.
Defined.

Lemma GetModel_each_same_device
    (CreateModel : Z -> string -> TRITONSERVER_Error + Model) (k : nat) (device_id : Z) :
  (0 < k)%nat -> Z.of_nat k < 2 ^ 31 ->
  forall (paths : list string) (models_ : gmap Z (nat * Model))
         (count : nat) (shared : Model),
    Forall (fun p => exists m, CreateModel device_id p = inr m) paths ->
    models_ !! device_id = Some (count, shared) ->
    (1 <= count <= k)%nat ->
    length (snd (GetModel_each CreateModel (Z.of_nat k) models_
                   (map (pair device_id) paths)))
    = ((length paths + count - 1) / k)%nat.
Proof.
  intros Hk Hk31. induction paths as [|p paths IH];
    intros models_ count shared Hok Hl Hc; cbn [map GetModel_each length].
  - cbn. symmetry. apply Nat.div_small. lia.
  - inversion Hok as [|? ? (m & Hm) Hok']; subst.
    unfold GetModel at 1 2. rewrite Hl, Hm.
    rewrite Z.mod_small by lia.
    destruct (Z.ltb_spec (Z.of_nat count) (Z.of_nat k)) as [Hlt|Hge].
    + cbn [gm_models_ gm_created].
      specialize (IH (<[device_id := (S count, shared)]> models_) (S count) shared Hok').
      rewrite lookup_insert_eq in IH. specialize (IH eq_refl ltac:(lia)).
      destruct (GetModel_each CreateModel (Z.of_nat k)
                  (<[device_id := (S count, shared)]> models_) (map (pair device_id) paths))
        as [ms created].
      cbn [snd app] in *. rewrite IH. f_equal. lia.
    + cbn [gm_models_ gm_created].
      specialize (IH (<[device_id := (1%nat, m)]> models_) 1%nat m Hok').
      rewrite lookup_insert_eq in IH. specialize (IH eq_refl ltac:(lia)).
      destruct (GetModel_each CreateModel (Z.of_nat k)
                  (<[device_id := (1%nat, m)]> models_) (map (pair device_id) paths))
        as [ms created].
      cbn [snd app length] in *. rewrite IH.
      assert (count = k) as -> by lia.
      replace (S (length paths) + k - 1)%nat with (length paths + 1 * k)%nat by lia.
      rewrite Nat.div_add by lia.
      replace (length paths + 1 - 1)%nat with (length paths) by lia. lia.
Qed.

(** X23.  For [n] instances created on one device with a share count [k],
    all of them loadable, [CreateModel] is called for the first instance
    and then for every [k]-th: the number of calls is [n / k] rounded
    up. *)
Theorem GetModel_creates_every_kth :
  forall (CreateModel : Z -> string -> TRITONSERVER_Error + Model)
         (k : nat) (device_id : Z) (paths : list string),
    (0 < k)%nat -> Z.of_nat k < 2 ^ 31 ->
    Forall (fun p => exists m, CreateModel device_id p = inr m) paths ->
    length (snd (GetModel_each CreateModel (Z.of_nat k) ∅ (map (pair device_id) paths)))
    = ((length paths + k - 1) / k)%nat.
Proof.
  intros CreateModel k d paths Hk Hk31 Hok.
  destruct paths as [|p paths]; cbn [map GetModel_each length].
  - cbn. symmetry. apply Nat.div_small. lia.
  - inversion Hok as [|? ? (m & Hm) Hok']; subst.
    unfold GetModel at 1 2. rewrite lookup_empty, Hm. cbn [gm_models_ gm_created].
    pose proof (GetModel_each_same_device CreateModel k d Hk Hk31 paths
                  (<[d := (1%nat, m)]> ∅) 1%nat m Hok') as H.
    rewrite lookup_insert_eq in H. specialize (H eq_refl ltac:(lia)).
    destruct (GetModel_each CreateModel (Z.of_nat k) (<[d := (1%nat, m)]> ∅)
                (map (pair d) paths)) as [ms created].
    cbn [snd app length] in *. rewrite H.
    replace (S (length paths) + k - 1)%nat with (length paths + 1 * k)%nat by lia.
    rewrite Nat.div_add by lia.
    replace (length paths + 1 - 1)%nat with (length paths) by lia. lia.
Qed.

Lemma GetModel_creates_every_kth_witness :
  length (snd (GetModel_each (fun device_id _ => inr (mkModel ∅ ∅ 0 device_id)) 2 ∅
                 [(0, "a"%string); (0, "a"%string); (0, "a"%string);
                  (0, "a"%string); (0, "a"%string)]))
  = 3%nat.
Proof.
  apply (GetModel_creates_every_kth (fun device_id _ => inr (mkModel ∅ ∅ 0 device_id))
           2%nat 0 ["a"; "a"; "a"; "a"; "a"]%string).
  - lia.
  - reflexivity.
  - repeat constructor; eexists; reflexivity.
Defined.

(* ----------------------------------------------------------------- *)
(** ** The data types of the configuration *)

Lemma data_type_matched (dtype : string) :
  ConvertDataType_str dtype <> TRITONTF_TYPE_INVALID <->
  exists model_dtype : TRITONTF_DataType, CompareDataType model_dtype dtype = true.
Proof.
  unfold CompareDataType. cbv zeta. split.
  - intros Hne. exists (ConvertDataType_str dtype).
    destruct (decide (ConvertDataType_str dtype = TRITONTF_TYPE_INVALID));
      [ contradiction | ].
    now apply bool_decide_eq_true.
  - intros (t & Ht).
    destruct (decide (ConvertDataType_str dtype = TRITONTF_TYPE_INVALID));
      [ discriminate Ht | assumption ].
Qed.

Lemma validate_data_types_app (Name : string) (a b : list ConfigIO) :
  validate_data_types Name (a ++ b)
  = match validate_data_types Name a with
    | Some err => Some err
    | None => validate_data_types Name b
    end.
Proof.
  induction a as [|io a IH]; cbn [app validate_data_types]; [ reflexivity | ].
  destruct (bool_decide (ConvertDataType_str (cio_data_type io) = TRITONTF_TYPE_INVALID));
    [ reflexivity | exact IH ].
Qed.

Lemma validate_data_types_first (Name : string) (ios : list ConfigIO) :
  match validate_data_types Name ios with
  | None =>
      Forall (fun io => exists t, CompareDataType t (cio_data_type io) = true) ios
  | Some err =>
      exists (pre : list ConfigIO) (io : ConfigIO) (post : list ConfigIO),
        ios = pre ++ io :: post
        /\ Forall (fun io => exists t, CompareDataType t (cio_data_type io) = true) pre
        /\ (forall t, CompareDataType t (cio_data_type io) = false)
        /\ err = TRITONSERVER_ErrorNew TRITONSERVER_ERROR_INVALID_ARG
                   ("unsupported datatype '" +:+ cio_data_type io +:+ "' for tensor '" +:+
                    cio_name io +:+ "' for model '" +:+ Name +:+ "'")
  end.
Proof.
  induction ios as [|io ios IH]; cbn [validate_data_types]; [ constructor | ].
  destruct (bool_decide (ConvertDataType_str (cio_data_type io) = TRITONTF_TYPE_INVALID))
    eqn:E.
  - apply bool_decide_eq_true in E.
    exists [], io, ios. split; [ reflexivity | ]. split; [ constructor | ].
    split; [ | reflexivity ].
    intros t. destruct (CompareDataType t (cio_data_type io)) eqn:Ec; [ | reflexivity ].
    exfalso. apply (proj2 (data_type_matched (cio_data_type io))); [ now exists t | exact E ].
  - apply bool_decide_eq_false in E. apply data_type_matched in E.
    destruct (validate_data_types Name ios) as [err|].
    + destruct IH as (pre & bad & post & -> & Hpre & Hbad & ->).
      exists (io :: pre), bad, post.
      split; [ reflexivity | ]. split; [ now constructor | ]. split; [ exact Hbad | reflexivity ].
    + now constructor.
Qed.

(** X24.  [ValidateModelConfig] accepts a configuration exactly when every
    data type named by an input or an output is one that some TF datatype
    matches under [CompareDataType]; otherwise the error is INVALID_ARG
    and names the first entry, inputs before outputs, whose data type no
    model tensor could ever match. *)
Theorem ValidateModelConfig_first_unmatched :
  forall model_state : BackendModel,
    match ValidateModelConfig model_state with
    | None =>
        Forall (fun io => exists t, CompareDataType t (cio_data_type io) = true)
          (cfg_input (bm_ModelConfig model_state)
           ++ cfg_output (bm_ModelConfig model_state))
    | Some err =>
        exists (pre : list ConfigIO) (io : ConfigIO) (post : list ConfigIO),
          cfg_input (bm_ModelConfig model_state)
          ++ cfg_output (bm_ModelConfig model_state) = pre ++ io :: post
          /\ Forall (fun io => exists t, CompareDataType t (cio_data_type io) = true) pre
          /\ (forall t, CompareDataType t (cio_data_type io) = false)
          /\ err = TRITONSERVER_ErrorNew TRITONSERVER_ERROR_INVALID_ARG
                     ("unsupported datatype '" +:+ cio_data_type io +:+
                      "' for tensor '" +:+ cio_name io +:+ "' for model '" +:+
                      bm_Name model_state +:+ "'")
    end.
Proof.
  intros ms.
  pose proof (validate_data_types_first (bm_Name ms)
                (cfg_input (bm_ModelConfig ms) ++ cfg_output (bm_ModelConfig ms))) as H.
  rewrite validate_data_types_app in H. exact H.
Qed.

(* ----------------------------------------------------------------- *)
(** ** Auto-completion of the batching settings *)

Lemma sig_supports_batch_batchable (inputs outputs : TRITONTF_IOList) :
  sig_supports_batch [inputs; outputs] = true <-> Forall batchable (inputs ++ outputs).
Proof.
  rewrite sig_supports_batch_forallb. cbn [forallb]. rewrite andb_true_r.
  rewrite andb_true_iff, !forallb_forall, List.Forall_app, !List.Forall_forall.
  assert (Hone : forall io : TRITONTF_IO,
             negb (Nat.eqb (rank_ (shape_ io)) 0) && (dims_at (shape_ io) 0 =? -1) = true
             <-> batchable io).
  { intros io. unfold batchable, WILDCARD_DIM.
    rewrite andb_true_iff, negb_true_iff, Nat.eqb_neq, Z.eqb_eq. lia. }
  split.
  - intros (Hi & Ho). split; intros io Hin; apply Hone; auto.
  - intros (Hi & Ho). split; intros io Hin; apply Hone; auto.
Qed.

Lemma hints_of_tensors_take (Name config_name : string) (size : nat)
    (ios : TRITONTF_IOList) :
  forall hint msb : bool,
    hints_of_tensors Name config_name size ios hint msb
    = take_hints Name
        (map (fun io => Nat.eqb (rank_ (shape_ io)) (size + 1))
             (List.filter (fun io => String.eqb config_name (name_ io)) ios))
        hint msb.
Proof.
  induction ios as [|io ios IH]; intros hint msb; cbn [hints_of_tensors List.filter];
    [ reflexivity | ].
  destruct (String.eqb config_name (name_ io)); cbn [map take_hints]; [ | apply IH ].
  destruct (hint && negb (Bool.eqb msb (Nat.eqb (rank_ (shape_ io)) (size + 1))));
    [ reflexivity | apply IH ].
Qed.

Lemma take_hints_app (Name : string) (a b : list bool) :
  forall hint msb : bool,
    take_hints Name (a ++ b) hint msb
    = match take_hints Name a hint msb with
      | inl err => inl err
      | inr (hint, msb) => take_hints Name b hint msb
      end.
Proof.
  induction a as [|x a IH]; intros hint msb; cbn [app take_hints]; [ reflexivity | ].
  destruct (hint && negb (Bool.eqb msb x)); [ reflexivity | apply IH ].
Qed.

Lemma hints_of_config_take (Name : string) (config_ios : list ConfigIO)
    (ios : TRITONTF_IOList) :
  forall hint msb : bool,
    hints_of_config Name config_ios ios hint msb
    = take_hints Name (batch_hints config_ios ios) hint msb.
Proof.
  unfold batch_hints.
  induction config_ios as [|c rest IH]; intros hint msb;
    cbn [hints_of_config flat_map]; [ reflexivity | ].
  destruct (Nat.eqb (length (config_dims c)) 0); cbn [negb app]; [ apply IH | ].
  rewrite take_hints_app, hints_of_tensors_take.
  destruct (take_hints Name _ hint msb) as [err|[h m]]; [ reflexivity | apply IH ].
Qed.

Lemma take_hints_agreed (Name : string) (hints : list bool) (msb : bool) :
  match take_hints Name hints true msb with
  | inr (hint', msb') => hint' = true /\ msb' = msb /\ forall b, In b hints -> b = msb
  | inl err => err = contradicting_hints_error Name /\ exists b, In b hints /\ b <> msb
  end.
Proof.
  revert msb. induction hints as [|x hints IH]; intros msb; cbn [take_hints].
  - repeat split. intros b [].
  - destruct (Bool.eqb msb x) eqn:E; cbn [andb negb].
    + apply Bool.eqb_prop in E. subst x. specialize (IH msb).
      destruct (take_hints Name hints true msb) as [err|[h m]].
      * destruct IH as (-> & b & Hin & Hb). split; [ reflexivity | ].
        exists b. split; [ now right | exact Hb ].
      * destruct IH as (-> & -> & Hall). repeat split.
        intros b [<-|Hin]; [ reflexivity | now apply Hall ].
    + split; [ reflexivity | ]. exists x. split; [ now left | ].
      intros ->. now rewrite Bool.eqb_reflx in E.
Qed.

Lemma take_hints_fresh (Name : string) (hints : list bool) (msb : bool) :
  match take_hints Name hints false msb with
  | inr (hint', msb') =>
      (forall b, In b hints -> b = msb') /\ (hints = [] -> msb' = msb)
  | inl err =>
      err = contradicting_hints_error Name
      /\ exists b1 b2, In b1 hints /\ In b2 hints /\ b1 <> b2
  end.
Proof.
  destruct hints as [|x hints]; cbn [take_hints andb].
  - split; [ intros b [] | reflexivity ].
  - pose proof (take_hints_agreed Name hints x) as H.
    destruct (take_hints Name hints true x) as [err|[h m]].
    + destruct H as (-> & b & Hin & Hb). split; [ reflexivity | ].
      exists b, x. split; [ now right | ]. split; [ now left | exact Hb ].
    + destruct H as (_ & -> & Hall). split; [ | discriminate ].
      intros b [<-|Hin]; [ reflexivity | now apply Hall ].
Qed.

Lemma hints_of_both (Name : string) (config_inputs config_outputs : list ConfigIO)
    (inputs outputs : TRITONTF_IOList) :
  (if negb (Nat.eqb (length config_inputs) 0) || negb (Nat.eqb (length config_outputs) 0)
   then
     match hints_of_config Name config_inputs inputs false true with
     | inl err => inl err
     | inr (config_batch_hint, model_support_batching_) =>
         hints_of_config Name config_outputs outputs config_batch_hint
           model_support_batching_
     end
   else inr (false, true))
  = take_hints Name
      (batch_hints config_inputs inputs ++ batch_hints config_outputs outputs) false true.
Proof.
  transitivity
    (match hints_of_config Name config_inputs inputs false true with
     | inl err => inl err
     | inr (config_batch_hint, model_support_batching_) =>
         hints_of_config Name config_outputs outputs config_batch_hint
           model_support_batching_
     end).
  - destruct config_inputs, config_outputs; reflexivity.
  - rewrite take_hints_app, hints_of_config_take.
    destruct (take_hints Name (batch_hints config_inputs inputs) false true)
      as [err|[h m]]; [ reflexivity | apply hints_of_config_take ].
Qed.

Ltac batching_fin :=
  repeat match goal with
         | H : _ && _ = true |- _ => apply andb_true_iff in H; destruct H
         | H : (_ >? _) = true |- _ => apply Z.gtb_lt in H
         end;
  try reflexivity; try discriminate; try lia.

(** X25.  When [FixBatchingSupport] succeeds, batching is taken to be
    supported only for a signature all of whose tensors have a rank of at
    least one and a leading dimension of -1; the model state's maximum
    batch size is positive only if batching is taken to be supported, it
    is the configured one unless that is zero, and the dynamic batcher is
    added only for a maximum batch size above one. *)
Theorem FixBatchingSupport_batching_needs_signature :
  forall (model_state : BackendModel) (default_max_batch_size_ : Z)
         (found_dynamic_batching : bool) (inputs outputs : TRITONTF_IOList)
         (r : BatchingSupport),
    FixBatchingSupport model_state default_max_batch_size_ found_dynamic_batching
      inputs outputs = inr r ->
    (model_support_batching_ r = true -> Forall batchable (inputs ++ outputs))
    /\ (0 < new_MaxBatchSize r -> model_support_batching_ r = true)
    /\ (bm_MaxBatchSize model_state <> 0 ->
        new_MaxBatchSize r = bm_MaxBatchSize model_state)
    /\ (0 <= bm_MaxBatchSize model_state -> 0 <= new_MaxBatchSize r)
    /\ (dynamic_batching_added r = true -> 1 < new_MaxBatchSize r).
Proof.
  intros ms dflt fdb inputs outputs r. unfold FixBatchingSupport. cbv zeta.
  rewrite <- sig_supports_batch_batchable.
  destruct (sig_supports_batch [inputs; outputs]) eqn:Esig; cbn [negb andb].
  - destruct (Z.eqb_spec (bm_MaxBatchSize ms) 0) as [Hz|Hnz].
    + match goal with
      | |- match ?h with _ => _ end = _ -> _ => destruct h as [err|[hint msb]]
      end; [ discriminate | ].
      intros [= <-]. cbn. destruct msb; repeat split; intros; batching_fin.
    + intros [= <-]. cbn. repeat split; intros; batching_fin.
  - destruct (Z.gtb_spec (bm_MaxBatchSize ms) 0) as [Hpos|Hle]; [ discriminate | ].
    intros [= <-]. cbn.
    destruct (Z.eqb_spec (bm_MaxBatchSize ms) 0) as [Hz|Hnz];
      repeat split; intros; batching_fin.
Qed.

Lemma FixBatchingSupport_batching_needs_signature_witness :
  Forall batchable ([batched_x_io] ++ []).
Proof.
  refine (proj1 (FixBatchingSupport_batching_needs_signature (one_input_model 0) 4 false
                   [batched_x_io] []
                   (mkBatchingSupport true 4 true) _) _).
  - reflexivity.
  - reflexivity.
Defined.

(** X26.  For a signature that admits batching and a configuration with
    max_batch_size 0, the configured entries decide: every pair of a
    configured entry with dims and a tensor of its name tells whether the
    tensor has one dimension more than the entry.  [FixBatchingSupport]
    fails with the "contradicting" error exactly when two of these hints
    differ; otherwise batching is taken to be supported as the hints say,
    and a configuration that gives no hint leaves it supported. *)
Theorem FixBatchingSupport_hints_decide :
  forall (model_state : BackendModel) (default_max_batch_size_ : Z)
         (found_dynamic_batching : bool) (inputs outputs : TRITONTF_IOList),
    sig_supports_batch [inputs; outputs] = true ->
    bm_MaxBatchSize model_state = 0 ->
    match FixBatchingSupport model_state default_max_batch_size_ found_dynamic_batching
            inputs outputs with
    | inr r =>
        (forall b,
            In b (batch_hints (cfg_input (bm_ModelConfig model_state)) inputs
                  ++ batch_hints (cfg_output (bm_ModelConfig model_state)) outputs) ->
            b = model_support_batching_ r)
        /\ (batch_hints (cfg_input (bm_ModelConfig model_state)) inputs
            ++ batch_hints (cfg_output (bm_ModelConfig model_state)) outputs = [] ->
            model_support_batching_ r = true)
    | inl err =>
        err = contradicting_hints_error (bm_Name model_state)
        /\ exists b1 b2,
             In b1 (batch_hints (cfg_input (bm_ModelConfig model_state)) inputs
                    ++ batch_hints (cfg_output (bm_ModelConfig model_state)) outputs)
             /\ In b2 (batch_hints (cfg_input (bm_ModelConfig model_state)) inputs
                       ++ batch_hints (cfg_output (bm_ModelConfig model_state)) outputs)
             /\ b1 <> b2
    end.
Proof.
  intros ms dflt fdb inputs outputs Hsig Hz. unfold FixBatchingSupport. cbv zeta.
  rewrite Hsig, Hz. cbn [negb andb Z.eqb].
  pose proof (take_hints_fresh (bm_Name ms)
                (batch_hints (cfg_input (bm_ModelConfig ms)) inputs
                 ++ batch_hints (cfg_output (bm_ModelConfig ms)) outputs) true) as H.
  rewrite <- (hints_of_both (bm_Name ms) (cfg_input (bm_ModelConfig ms))
                (cfg_output (bm_ModelConfig ms)) inputs outputs) in H.
  match goal with
  | |- match match ?h with _ => _ end with _ => _ end =>
      destruct h as [err|[hint msb]]; exact H
  end.
Qed.

Lemma FixBatchingSupport_hints_decide_witness :
  match FixBatchingSupport (one_input_model 0) 4 false [batched_x_io] [] with
  | inr r => model_support_batching_ r = true
  | inl _ => False
  end.
Proof.
  pose proof (FixBatchingSupport_hints_decide (one_input_model 0) 4 false
                [batched_x_io] [] eq_refl eq_refl) as H.
  cbv beta iota in H.
  destruct (FixBatchingSupport (one_input_model 0) 4 false [batched_x_io] []) as [err|r].
  - destruct H as (_ & b1 & b2 & H1 & H2 & Hne). cbn in H1, H2.
    destruct H1 as [<-|[]], H2 as [<-|[]]. now contradiction Hne.
  - symmetry. apply (proj1 H). cbn. now left.
Defined.

(* ----------------------------------------------------------------- *)
(** ** Auto-completed entries and the validator *)

Lemma auto_complete_config_dims (msb : bool) (io : TRITONTF_IO) :
  config_dims (auto_complete_io msb io)
  = map (dims_at (shape_ io))
      (seq (if msb then 1%nat else 0%nat)
           (rank_ (shape_ io) - (if msb then 1%nat else 0%nat))).
Proof.
  unfold auto_complete_io, auto_complete_dims. cbv zeta.
  destruct (map (dims_at (shape_ io))
              (seq (if msb then 1%nat else 0%nat)
                   (rank_ (shape_ io) - (if msb then 1%nat else 0%nat)))) as [|d ds];
    reflexivity.
Qed.

Lemma auto_complete_io_name (msb : bool) (io : TRITONTF_IO) :
  cio_name (auto_complete_io msb io) = name_ io
  /\ cio_data_type (auto_complete_io msb io) = ConvertToModelConfigString (data_type_ io)
  /\ cio_allow_ragged_batch (auto_complete_io msb io) = None.
Proof.
  unfold auto_complete_io. destruct (auto_complete_dims msb (shape_ io)). now cbn.
Qed.

Lemma shape_dims_cons (s : TRITONTF_Shape) :
  rank_ s <> 0%nat ->
  shape_dims s = dims_at s 0 :: map (dims_at s) (seq 1 (rank_ s - 1)).
Proof.
  intros Hr. unfold shape_dims. destruct (rank_ s) as [|n]; [ contradiction | ].
  replace (S n - 1)%nat with n by lia. reflexivity.
Qed.

Lemma CompareDims_auto_complete (model_name tensor_name : string) (io : TRITONTF_IO)
    (msb supports_batching compare_exact : bool) :
  rank_ (shape_ io) <> 0%nat ->
  (msb = true -> dims_at (shape_ io) 0 = WILDCARD_DIM) ->
  CompareDims model_name tensor_name (shape_ io) (config_dims (auto_complete_io msb io))
    supports_batching compare_exact = None
  <-> msb = supports_batching.
Proof.
  intros Hr Hw. rewrite auto_complete_config_dims.
  destruct supports_batching.
  - rewrite CompareDims_batching_None, CompareDims_plain_None.
    cbn [length]. rewrite length_map, length_seq.
    destruct msb.
    + rewrite shape_dims_cons by exact Hr. rewrite (Hw eq_refl).
      split; [ reflexivity | intros _ ].
      split; [ exact Hr | ]. split; [ reflexivity | ]. split; [ lia | ].
      apply Forall2_dim_compatible_refl.
    + split; [ intros (_ & _ & H & _); lia | discriminate ].
  - rewrite CompareDims_plain_None. rewrite length_map, length_seq.
    destruct msb.
    + split; [ intros (H & _); lia | discriminate ].
    + split; [ reflexivity | intros _ ].
      split; [ lia | ]. rewrite Nat.sub_0_r. apply Forall2_dim_compatible_refl.
Qed.

Lemma CompareDataType_own_name (dtype : TRITONTF_DataType) :
  CompareDataType dtype (ConvertToModelConfigString dtype) = true <->
  dtype <> TRITONTF_TYPE_INVALID /\ dtype <> TRITONTF_TYPE_unlisted.
Proof.
  destruct dtype; cbn; split; try discriminate; try (intros (H1 & H2); congruence);
    intros _; split; discriminate.
Qed.

Lemma FixBatchingSupport_flags (model_state : BackendModel) (default_max_batch_size_ : Z)
    (found_dynamic_batching : bool) (inputs outputs : TRITONTF_IOList)
    (r : BatchingSupport) :
  FixBatchingSupport model_state default_max_batch_size_ found_dynamic_batching
    inputs outputs = inr r ->
  (model_support_batching_ r = true -> sig_supports_batch [inputs; outputs] = true)
  /\ (0 < new_MaxBatchSize r -> model_support_batching_ r = true).
Proof.
  unfold FixBatchingSupport. cbv zeta.
  destruct (sig_supports_batch [inputs; outputs]) eqn:Esig; cbn [negb andb].
  - destruct (Z.eqb_spec (bm_MaxBatchSize model_state) 0) as [Hz|Hnz].
    + match goal with
      | |- match ?h with _ => _ end = _ -> _ => destruct h as [err|[hint msb]]
      end; [ discriminate | ].
      intros [= <-]. cbn. destruct msb; split; intros; batching_fin.
    + intros [= <-]. cbn. split; intros; batching_fin.
  - destruct (Z.gtb_spec (bm_MaxBatchSize model_state) 0) as [Hpos|Hle]; [ discriminate | ].
    intros [= <-]. cbn.
    destruct (Z.eqb_spec (bm_MaxBatchSize model_state) 0) as [Hz|Hnz];
      split; intros; batching_fin.
Qed.

Lemma FindIOByName_names (ios : TRITONTF_IOList) (io : TRITONTF_IO) :
  FindIOByName ios (name_ io) = Some io -> name_ io ∈ io_names ios /\ In io ios.
Proof.
  intros H. apply FindIOByName_Some in H. destruct H as (pre & post & -> & _ & _).
  split.
  - unfold io_names. rewrite elem_of_list_to_set, list_elem_of_In, in_map_iff.
    exists io. split; [ reflexivity | ]. apply in_or_app. right. now left.
  - apply in_or_app. right. now left.
Qed.

(** X27.  What auto-completion builds, the validator reads.  After a
    successful [FixBatchingSupport], the entry built for a signature
    tensor of known rank and with a real datatype passes the SavedModel
    validator's check of a configured input, and of a configured output
    that is not a batch output, under the new maximum batch size exactly
    when batching is not taken to be supported or that maximum batch size
    is positive.  So the entries built while batching is taken to be
    supported are rejected when the maximum batch size comes out as
    zero. *)
Theorem auto_complete_io_validates :
  forall (fresh : nat -> Z) (model_state : BackendModel) (default_max_batch_size_ : Z)
         (found_dynamic_batching : bool) (inputs outputs : TRITONTF_IOList)
         (r : BatchingSupport) (completed : BackendModel) (io : TRITONTF_IO),
    FixBatchingSupport model_state default_max_batch_size_ found_dynamic_batching
      inputs outputs = inr r ->
    bm_MaxBatchSize completed = new_MaxBatchSize r ->
    rank_ (shape_ io) <> 0%nat ->
    data_type_ io <> TRITONTF_TYPE_INVALID ->
    data_type_ io <> TRITONTF_TYPE_unlisted ->
    (FindIOByName inputs (name_ io) = Some io ->
     (savedmodel.validate_input fresh completed (io_names inputs) inputs
        (auto_complete_io (model_support_batching_ r) io)
      = (None, inputs)
      <-> (model_support_batching_ r = true -> 0 < new_MaxBatchSize r)))
    /\ (FindIOByName outputs (name_ io) = Some io ->
        bm_FindBatchOutput completed (name_ io) = false ->
        (savedmodel.validate_output fresh completed (io_names outputs) outputs
           (auto_complete_io (model_support_batching_ r) io)
         = (None, outputs)
         <-> (model_support_batching_ r = true -> 0 < new_MaxBatchSize r))).
Proof.
  intros fresh ms dflt fdb inputs outputs r cm io Hfix Hmbs Hr Hd1 Hd2.
  destruct (FixBatchingSupport_flags ms dflt fdb inputs outputs r Hfix) as (Hsig & Hpos).
  assert (Hflag : model_support_batching_ r = (new_MaxBatchSize r >? 0)
                  <-> (model_support_batching_ r = true -> 0 < new_MaxBatchSize r)).
  { destruct (Z.gtb_spec (new_MaxBatchSize r) 0) as [Hgt|Hle].
    - rewrite (Hpos ltac:(lia)). split; [ intros _ _; lia | reflexivity ].
    - destruct (model_support_batching_ r);
        split; try discriminate; try reflexivity; intros H; specialize (H eq_refl); lia. }
  assert (Hbatch : In io (inputs ++ outputs) ->
                   model_support_batching_ r = true ->
                   dims_at (shape_ io) 0 = WILDCARD_DIM).
  { intros Hin Hm. apply Hsig in Hm. apply sig_supports_batch_batchable in Hm.
    rewrite List.Forall_forall in Hm. exact (proj2 (Hm io Hin)). }
  pose proof (CompareDataType_own_name (data_type_ io)) as Hdt.
  destruct (auto_complete_io_name (model_support_batching_ r) io) as (Hn & Hty & Hrag).
  split; intros Hfind; destruct (FindIOByName_names _ _ Hfind) as (Hname & Hin).
  - unfold savedmodel.validate_input, CheckAllowedModelInput. cbv zeta.
    rewrite Hmbs, Hn, Hty, Hrag.
    destruct (decide (name_ io ∈ io_names inputs)); [ | contradiction ].
    rewrite Hfind. destruct (Nat.eqb_spec (rank_ (shape_ io)) 0); [ contradiction | ].
    cbn [negb].
    pose proof (CompareDims_auto_complete (bm_Name cm) (name_ io) io
                  (model_support_batching_ r) (new_MaxBatchSize r >? 0) false Hr
                  (Hbatch (in_or_app _ _ _ (or_introl Hin)))) as Hc.
    rewrite <- Hflag, <- Hc.
    destruct (CompareDims (bm_Name cm) (name_ io) (shape_ io)
                (config_dims (auto_complete_io (model_support_batching_ r) io))
                (new_MaxBatchSize r >? 0) false) as [err|].
    + split; discriminate.
    + rewrite (proj2 Hdt (conj Hd1 Hd2)). cbn [negb]. tauto.
  - intros Hfbo.
    unfold savedmodel.validate_output, CheckAllowedModelOutput. cbv zeta.
    rewrite Hmbs, Hn, Hty, Hfbo.
    destruct (decide (name_ io ∈ io_names outputs)); [ | contradiction ].
    rewrite Hfind. destruct (Nat.eqb_spec (rank_ (shape_ io)) 0); [ contradiction | ].
    cbn [negb].
    pose proof (CompareDims_auto_complete (bm_Name cm) (name_ io) io
                  (model_support_batching_ r) (new_MaxBatchSize r >? 0) true Hr
                  (Hbatch (in_or_app _ _ _ (or_intror Hin)))) as Hc.
    rewrite <- Hflag, <- Hc.
    destruct (CompareDims (bm_Name cm) (name_ io) (shape_ io)
                (config_dims (auto_complete_io (model_support_batching_ r) io))
                (new_MaxBatchSize r >? 0) true) as [err|].
    + split; discriminate.
    + rewrite (proj2 Hdt (conj Hd1 Hd2)). cbn [negb]. tauto.
Qed.

Lemma auto_complete_io_validates_witness :
  savedmodel.validate_input (fun _ => 0) (empty_config_model 4) (io_names [batched_x_io])
    [batched_x_io] (auto_complete_io true batched_x_io)
  = (None, [batched_x_io])
  /\ savedmodel.validate_input (fun _ => 0) (empty_config_model 0) (io_names [batched_x_io])
       [batched_x_io] (auto_complete_io true batched_x_io)
     <> (None, [batched_x_io]).
Proof.
  split.
  - refine (proj2 (proj1 (auto_complete_io_validates (fun _ => 0) (empty_config_model 0) 4
                            false [batched_x_io] [] (mkBatchingSupport true 4 true)
                            (empty_config_model 4) batched_x_io _ _ _ _ _) _) _).
    + reflexivity.
    + reflexivity.
    + discriminate.
    + discriminate.
    + discriminate.
    + reflexivity.
    + intros _. reflexivity.
  - intros H.
    refine (_ (proj1 (proj1 (auto_complete_io_validates (fun _ => 0) (empty_config_model 0) 0
                               false [batched_x_io] [] (mkBatchingSupport true 0 false)
                               (empty_config_model 0) batched_x_io _ _ _ _ _) _) H eq_refl)).
    + cbn. lia.
    + reflexivity.
    + reflexivity.
    + discriminate.
    + discriminate.
    + discriminate.
    + reflexivity.
Defined.

(* ----------------------------------------------------------------- *)
(** ** Auto-completion against configured entries *)

Lemma FixIOConfig_None_inv (Name key : string) (msb : bool)
    (ios : option (list (option (list Z)))) (writes : nat -> option TRITONSERVER_Error)
    (reference_list : TRITONTF_IOList) :
  forall idx : nat,
    FixIOConfig Name key msb ios writes idx reference_list = None ->
    forall io, In io reference_list ->
      exists i, fix_io Name key msb ios writes i io = None.
Proof.
  induction reference_list as [|x rest IH]; intros idx H io Hin; [ destruct Hin | ].
  cbn [FixIOConfig] in H.
  destruct (fix_io Name key msb ios writes idx x) eqn:E; [ discriminate | ].
  destruct Hin as [<-|Hin]; [ now exists idx | exact (IH _ H io Hin) ].
Qed.

Lemma fix_io_configured_rank (Name key : string) (msb : bool)
    (ios : list (option (list Z))) (writes : nat -> option TRITONSERVER_Error)
    (idx : nat) (io : TRITONTF_IO) (entry : option (list Z)) :
  fix_io Name key msb (Some ios) writes idx io = None ->
  In entry ios ->
  if Nat.eqb (rank_ (shape_ io)) 0 then entry <> None
  else rank_ (shape_ io)
       = (length (found_dims entry) + (if msb then 1 else 0))%nat.
Proof.
  unfold fix_io. cbv zeta. intros H Hin.
  destruct (Nat.eqb_spec (rank_ (shape_ io)) 0) as [Hr|Hr].
  - destruct (Nat.eqb (length ios) 0); [ discriminate | ].
    destruct (forallb _ ios) eqn:Ef; [ | discriminate ].
    rewrite forallb_forall in Ef. specialize (Ef entry Hin).
    destruct entry; [ discriminate | discriminate Ef ].
  - destruct msb.
    + destruct (forallb _ ios) eqn:Ef; [ | discriminate ].
      rewrite forallb_forall in Ef. specialize (Ef entry Hin).
      apply Nat.eqb_eq in Ef. lia.
    + destruct (forallb _ ios) eqn:Ef; [ | discriminate ].
      rewrite forallb_forall in Ef. specialize (Ef entry Hin).
      apply Nat.eqb_eq in Ef. lia.
Qed.

(** X28.  [FixIOConfig] holds every configured entry of a kind against
    every tensor of that kind, whatever their names.  So when it succeeds
    for a configuration with at least one entry, every entry has dims if
    some tensor reports rank 0, and all tensors of known rank have one and
    the same rank: the number of dims of each entry, plus one when
    batching is taken to be supported. *)
Theorem FixIOConfig_configured_needs_one_rank :
  forall (Name key : string) (model_support_batching_ : bool)
         (ios : list (option (list Z))) (writes : nat -> option TRITONSERVER_Error)
         (reference_list : TRITONTF_IOList),
    FixIOConfig Name key model_support_batching_ (Some ios) writes 0 reference_list
    = None ->
    (forall io entry, In io reference_list -> In entry ios ->
       rank_ (shape_ io) = 0%nat -> entry <> None)
    /\ (forall io entry, In io reference_list -> In entry ios ->
          rank_ (shape_ io) <> 0%nat ->
          rank_ (shape_ io)
          = (length (found_dims entry) + (if model_support_batching_ then 1 else 0))%nat)
    /\ (ios <> [] ->
        forall io1 io2, In io1 reference_list -> In io2 reference_list ->
          rank_ (shape_ io1) <> 0%nat -> rank_ (shape_ io2) <> 0%nat ->
          rank_ (shape_ io1) = rank_ (shape_ io2)).
Proof.
  intros Name key msb ios writes ref H.
  pose proof (FixIOConfig_None_inv Name key msb (Some ios) writes ref 0 H) as Hall.
  assert (Hone : forall io entry, In io ref -> In entry ios ->
            if Nat.eqb (rank_ (shape_ io)) 0 then entry <> None
            else rank_ (shape_ io)
                 = (length (found_dims entry) + (if msb then 1 else 0))%nat).
  { intros io entry Hio Hentry. destruct (Hall io Hio) as (i & Hi).
    exact (fix_io_configured_rank Name key msb ios writes i io entry Hi Hentry). }
  split; [ | split ].
  - intros io entry Hio Hentry Hr. specialize (Hone io entry Hio Hentry).
    rewrite Hr in Hone. exact Hone.
  - intros io entry Hio Hentry Hr. specialize (Hone io entry Hio Hentry).
    destruct (Nat.eqb_spec (rank_ (shape_ io)) 0); [ contradiction | exact Hone ].
  - intros Hne io1 io2 H1 H2 Hr1 Hr2.
    destruct ios as [|entry ios']; [ contradiction | ].
    pose proof (Hone io1 entry H1 (or_introl eq_refl)) as E1.
    pose proof (Hone io2 entry H2 (or_introl eq_refl)) as E2.
    destruct (Nat.eqb_spec (rank_ (shape_ io1)) 0); [ contradiction | ].
    destruct (Nat.eqb_spec (rank_ (shape_ io2)) 0); [ contradiction | ].
    congruence.
Qed.

Lemma FixIOConfig_configured_needs_one_rank_witness :
  rank_ (shape_ batched_x_io) = (length (found_dims (Some [3%Z])) + 1)%nat.
Proof.
  refine (proj1 (proj2 (FixIOConfig_configured_needs_one_rank "m" "input" true
                          [Some [3]] (fun _ => None) [batched_x_io] _))
            batched_x_io (Some [3]) _ _ _).
  - reflexivity.
  - now left.
  - now left.
  - discriminate.
Defined.
